(** * The rollout engine of the VLN agent (src/agent.py)

    A shallow embedding of [Seq2SeqAgent]: the batch preprocessor
    ([_sort_batch]), the candidate feature builder ([_candidate_variable],
    [get_input_feat]), the teacher oracle ([_teacher_action]), the
    environment actuator ([make_equiv_action]) and [rollout] with its reward
    shaper and actor-critic pass.
    Around them: the primitive simulator moves of the actuator, the test
    runs ([BaseAgent.test], [Seq2SeqAgent.test]), [train], and the
    checkpoints ([save], [load]).

    Conventions.
    - float32 numbers (numpy arrays, torch scalars) are rationals [Q] with
      exact arithmetic; rounding is not part of the model, except for the
      discounted return, which is also given in binary32
      ([discount_step32]).
    - A numpy array or torch tensor is a list (of lists); shapes that the
      source leaves to numpy/torch to check are checked explicitly and a
      mismatch is a [ShapeError]. The broadcast of a vector of length one
      is modelled ([broadcast_to], [elementwise]); for the assignments of
      whole blocks of rows (lines 155-157 and 381) the two sides must have
      the same shape.
    - A Python exception is an [Err] of the [result] monad and aborts the
      whole call, as it does in the source.
    - The simulator, the networks and the torch library calls are fields of
      the record [Collaborators]; the mutable outside world (simulator
      state, random number generator) is threaded as a value of its type
      [World]. *)

From Stdlib Require Import QArith Lqa.
From Stdlib Require SpecFloat.
From stdpp Require Import base list strings sorting gmap.

(** ** Exceptions and the error monad *)

Inductive PyError : Type :=
  | NameError (msg : string)
  | ValueError
  | IndexError
  | ShapeError
  | AssertionError
  | AttributeError
  | ZeroDivisionError
  | SystemExit (msg : string).

Inductive result (A : Type) : Type :=
  | Ok (a : A)
  | Err (e : PyError).
Arguments Ok {A} a.
Arguments Err {A} e.

#[global] Instance result_ret : MRet result := λ A a, Ok a.
#[global] Instance result_bind : MBind result :=
  λ A B f m, match m with Ok a => f a | Err e => Err e end.
#[global] Instance result_fmap : FMap result :=
  λ A B f m, match m with Ok a => Ok (f a) | Err e => Err e end.

Definition is_Ok {A} (m : result A) : Prop := ∃ a, m = Ok a.
Definition is_Ok_bool {A} (m : result A) : bool :=
  match m with Ok _ => true | Err _ => false end.

(** [l[i]] for an index that [enumerate], [range] or an index array gives. *)
Definition at_index {A} (l : list A) (i : nat) : result A :=
  match l !! i with Some x => Ok x | None => Err IndexError end.

(** [l[k]] for a Python integer [k]: a negative index counts from the end. *)
Definition py_index {A} (l : list A) (k : Z) : result A :=
  let n := Z.of_nat (length l) in
  let k' := if (k <? 0)%Z then (k + n)%Z else k in
  if ((0 <=? k') && (k' <? n))%Z then at_index l (Z.to_nat k') else Err IndexError.

(** [l[perm]] for an array of indices, as in [obs[perm_idx]]. *)
Definition at_index_all {A} (l : list A) (perm : list nat) : result (list A) :=
  mapM (at_index l) perm.

(** [enumerate(l)] *)
Definition enumerate {A} (l : list A) : list (nat * A) := imap pair l.

(** ** Arrays *)

Abbreviation Row := (list Q).
Abbreviation Mat := (list (list Q)).
Abbreviation Tensor3 := (list (list (list Q))).

Definition zeros2 (r c : nat) : Mat := replicate r (replicate c 0%Q).
Definition zeros3 (b r c : nat) : Tensor3 := replicate b (zeros2 r c).

(** Assignment of a vector into a slot of width [n]: numpy and torch accept
    the same width, or width one, which they broadcast. *)
Definition broadcast_to (n : nat) (v : Row) : result Row :=
  if length v =? n then Ok v
  else match v with
       | [x] => Ok (replicate n x)
       | _ => Err ShapeError
       end.

(** [dst[start : start + len(src)] = src] on one row. *)
Definition set_cols (start : nat) (src dst : Row) : Row :=
  take start dst ++ src ++ drop (start + length src) dst.

Definition Qltb (x y : Q) : bool := negb (Qle_bool y x).

(** ** Data model *)

Record Candidate : Type := {
  viewpointId : string;
  pointId : Z;
  idx : Z;
  feature : Row
}.

Record Observation : Type := {
  instr_id : string;
  instr_encoding : list Z;
  scan : string;
  viewpoint : string;
  viewIndex : Z;
  heading : Q;
  elevation : Q;
  distance : Q;
  gt_path : list string;
  teacher : string;
  candidate : list Candidate
}.

Record Traj : Type := {
  traj_instr_id : string;
  path : list (string * Q * Q)
}.

(** The fields of [param.args] that the agent reads. *)
Record Args : Type := {
  feature_size : nat;
  angle_feat_size : nat;
  ignoreid : Z;
  gamma : Q;
  normalize_loss : string
}.

(** A number held in [self.loss]: a Python int, a Python float or a torch
    scalar. *)
Inductive PyNum : Type :=
  | PyInt (n : Z)
  | PyFloat (x : Q)
  | PyTensor (x : Q).

Definition num_val (p : PyNum) : Q :=
  match p with PyInt n => inject_Z n | PyFloat x => x | PyTensor x => x end.

(** [a + b]: a torch scalar absorbs Python numbers, a float absorbs ints. *)
Definition py_add (a b : PyNum) : PyNum :=
  match a, b with
  | PyTensor x, _ => PyTensor (x + num_val b)
  | _, PyTensor y => PyTensor (num_val a + y)
  | PyInt m, PyInt n => PyInt (m + n)
  | _, _ => PyFloat (num_val a + num_val b)
  end.

(** Arithmetic of [a] with Python floats, as [a * k / n]. *)
Definition py_map (f : Q → Q) (a : PyNum) : PyNum :=
  match a with
  | PyTensor x => PyTensor (f x)
  | _ => PyFloat (f (num_val a))
  end.

(** [a.item()]: only a torch scalar has the method. *)
Definition item (a : PyNum) : result Q :=
  match a with PyTensor x => Ok x | _ => Err AttributeError end.

(** ** External collaborators *)

Record LanguageInputs : Type := {
  l_sentence : list (list Z);
  l_attention_mask : list (list Z);
  l_lang_mask : list (list Z);
  l_token_type_ids : list (list Z)
}.

Record VisualInputs (Emb : Type) : Type := {
  v_sentence : Emb;
  v_attention_mask : list (list Z);
  v_lang_mask : list (list Z);
  v_vis_mask : list (list Z);
  v_token_type_ids : list (list Z);
  v_action_feats : Mat;
  v_cand_feats : Tensor3;
  v_t : nat;
  v_seq_lengths : list nat;
  v_att_drop_rate : Q
}.
Arguments v_sentence {Emb}.
Arguments v_cand_feats {Emb}.
Arguments v_t {Emb}.

(** What [rollout] calls outside of agent.py. [World] is the mutable
    outside (simulator, random number generator); [Emb], [Hidden] and
    [Logit] are the tensors of the networks, which the agent only passes
    on. [sim_navigate] stands for the primitive moves of one item in
    [make_equiv_action]; [softmax] and [Categorical] are folded into the
    functions on logits. *)
Record Collaborators : Type := {
  World : Type;
  Emb : Type;
  Hidden : Type;
  Logit : Type;
  (* utils *)
  padding_idx : Z;
  angle_feature : Q → Q → Row;
  ndtw : string → list string → list string → Q;
  (* torch *)
  torch_sort_descending : list nat → list nat * list nat;
  rand_like : World → list (list Z) → World * list (list Q);
  kl_div : Emb → Emb → Q;
  log_softmax_emb : Emb → Emb;
  softmax_emb : Emb → Emb;
  masked_fill_neg_inf : Logit → list (list bool) → Logit;
  cross_entropy_sum : Z → Logit → list Z → Q;
  logit_argmax : Logit → list Z;
  log_softmax_gather : Logit → list Z → list Q;
  categorical_entropy : Logit → list Q;
  categorical_sample : World → Logit → World * list Z;
  categorical_log_prob : Logit → list Z → list Q;
  (* environment *)
  env_reset : World → World * list Observation;
  env_get_obs : World → list Observation;
  sim_navigate :
    World → nat → Observation → Candidate → result (World * (string * Q * Q));
  (* networks *)
  vln_bert_language : World → LanguageInputs → World * Emb;
  vln_bert_visual :
    World → VisualInputs Emb → World * (Hidden * Tensor3 * Logit * Q);
  critic : World → Hidden → World * list Q
}.



(** ** Batch preprocessor: [_sort_batch] *)

(** The second dimension of [np.array(rows)]; an empty or ragged batch, or
    one of empty rows, has no [argmax] along axis 1. *)
Definition shape1 (rows : list (list Z)) : result nat :=
  match rows with
  | [] => Err ValueError
  | r :: rs =>
      if forallb (λ r', length r' =? length r) rs && (0 <? length r)
      then Ok (length r) else Err ValueError
  end.

(** [np.argmax(row == padding_idx)] with 0 replaced by the row width. *)
Definition seq_length (pad : Z) (width : nat) (row : list Z) : nat :=
  match list_find (λ x, x = pad) row with
  | Some (S k, _) => S k
  | _ => width
  end.

Record SortedBatch : Type := {
  sentence : list (list Z);
  language_attention_mask : list (list Z);
  token_type_ids : list (list Z);
  seq_lengths : list nat;
  perm_idx : list nat
}.

Definition _sort_batch (C : Collaborators) (obs : list Observation)
    : result SortedBatch :=
  let seq_tensor := instr_encoding <$> obs in
  width ← shape1 seq_tensor;
  let seq_lengths := seq_length (padding_idx C) width <$> seq_tensor in
  let '(seq_lengths, perm_idx) := torch_sort_descending C seq_lengths in
  sorted_tensor ← at_index_all seq_tensor perm_idx;
  let mask :=
    fmap (M:=list) (λ x, if bool_decide (x = padding_idx C) then 0 else 1)%Z
      <$> sorted_tensor in
  let token_type_ids := fmap (M:=list) (λ _, 0%Z) <$> mask in
  Ok {| sentence := sorted_tensor; language_attention_mask := mask;
        token_type_ids := token_type_ids; seq_lengths := seq_lengths;
        perm_idx := perm_idx |}.


(** ** Candidate feature builder: [_candidate_variable], [get_input_feat] *)

(** Shapes [vis_taj[:, t-1, :]] and the two slice assignments need. *)
Definition bank_shape_ok (b t W : nat) (vis_taj : Tensor3) : bool :=
  (length vis_taj =? b)
  && forallb (λ m : Mat,
       (t <=? length m) && forallb (λ row : Row, length row =? W) m) vis_taj.

Definition action_shape_ok (b afs : nat) (input_a_t : Mat) : bool :=
  (length input_a_t =? b) && forallb (λ a : Row, length a =? afs) input_a_t.

(** Lines 155-157 on one batch item: [bank] is [vis_taj[i]], [a] is
    [input_a_t[i]] and [m] is [candidate_feat[i]]. The slice
    [-angle_feat_size:] starts at column [feature_size], and at column 0
    when [angle_feat_size] is 0. *)
Definition history_rows (fs afs t : nat) (bank : Mat) (a : Row) (m : Mat) : Mat :=
  let m := take (t - 1) bank ++ drop (t - 1) m in
  let v := default [] (bank !! (t - 1)) in
  let m := alter (set_cols 0 (take fs v)) (t - 1) m in
  alter (set_cols (if afs =? 0 then 0 else fs) a) (t - 1) m.

(** [for j, cc in enumerate(ob['candidate']): candidate_feat[i, j+t, :] = cc['feature']] *)
Fixpoint fill_candidates (W t j : nat) (cands : list Candidate) (m : Mat)
    : result Mat :=
  match cands with
  | [] => Ok m
  | cc :: rest =>
      f ← broadcast_to W (feature cc);
      if j + t <? length m
      then fill_candidates W t (S j) rest (<[j + t := f]> m)
      else Err IndexError
  end.

Definition candidate_leng_of (t : nat) (obs : list Observation) : list nat :=
  (λ ob, length (candidate ob) + 1 + t) <$> obs.

(** Lines 150-164. [max] of an empty batch raises; for [t > 0] the memory
    bank must be [batch x R x (feature_size + angle_feat_size)] with
    [R >= t] and [input_a_t] must be [batch x angle_feat_size]. *)
Definition _candidate_variable (args : Args) (obs : list Observation) (t : nat)
    (vis_taj : Tensor3) (input_a_t : Mat) : result (Tensor3 * list nat) :=
  let fs := feature_size args in
  let afs := angle_feat_size args in
  let W := fs + afs in
  let candidate_leng := candidate_leng_of t obs in
  match obs with
  | [] => Err ValueError
  | _ =>
      let candidate_feat := zeros3 (length obs) (max_list candidate_leng) W in
      candidate_feat ←
        (if 0 <? t then
           if bank_shape_ok (length obs) t W vis_taj
              && action_shape_ok (length obs) afs input_a_t
              && ((0 <? afs) || (fs =? 0))
           then Ok (zip_with (λ m '(bank, a), history_rows fs afs t bank a m)
                      candidate_feat (zip vis_taj input_a_t))
           else Err ShapeError
         else Ok candidate_feat);
      candidate_feat ←
        mapM (λ '(ob, m), fill_candidates W t 0 (candidate ob) m)
          (zip obs candidate_feat);
      Ok (candidate_feat, candidate_leng)
  end.

Definition get_input_feat (C : Collaborators) (args : Args)
    (obs : list Observation) (t : nat) (vis_taj : Tensor3)
    : result (Mat * Tensor3 * list nat) :=
  input_a_t ←
    mapM (λ ob, broadcast_to (angle_feat_size args)
                  (angle_feature C (heading ob) (elevation ob))) obs;
  '(candidate_feat, candidate_leng) ←
    _candidate_variable args obs t vis_taj input_a_t;
  Ok (input_a_t, candidate_feat, candidate_leng).

(** ** Teacher oracle: [_teacher_action] *)

Definition teacher_action_item (ignore : Z) (ended_i : bool) (ob : Observation) : Z :=
  if ended_i then ignore
  else match list_find (λ c, viewpointId c = teacher ob) (candidate ob) with
       | Some (k, _) => Z.of_nat k
       | None => Z.of_nat (length (candidate ob))
       end.

Definition _teacher_action (args : Args) (obs : list Observation)
    (ended : list bool) : result (list Z) :=
  mapM (λ '(i, ob),
          e ← at_index ended i;
          Ok (teacher_action_item (ignoreid args) e ob))
       (enumerate obs).

(** ** Environment actuator: [make_equiv_action]

    The primitive moves of one item (tilt, pan, the check of the reached
    viewpoint and the final move, lines 216-233) are the collaborator
    [sim_navigate], which returns the simulator state read back after the
    move. [rollout] always passes its trajectories. *)

Definition append_path (state : string * Q * Q) (tr : Traj) : Traj :=
  {| traj_instr_id := traj_instr_id tr; path := path tr ++ [state] |}.

Fixpoint make_equiv_action (C : Collaborators) (a_t : list Z)
    (perm_obs : list Observation) (todo : list (nat * nat))
    (w : World C) (traj : list Traj) : result (World C * list Traj) :=
  match todo with
  | [] => Ok (w, traj)
  | (i, idx) :: rest =>
      action ← at_index a_t i;
      if (action =? -1)%Z then make_equiv_action C a_t perm_obs rest w traj
      else
        ob ← at_index perm_obs i;
        select_candidate ← py_index (candidate ob) action;
        '(w, state) ← sim_navigate C w idx ob select_candidate;
        tr ← at_index traj i;
        make_equiv_action C a_t perm_obs rest w (<[i := append_path state tr]> traj)
  end.

(** ** Masks *)

(** Modelled from the spec: [utils.length2mask] is not among the sources.
    The spec has the trailing indices of an item, from its length on,
    marked invalid (4.2: rows beyond an item's count are padding; 4.4:
    [-inf] on invalid trailing indices); the mask is as wide as the longest
    item. *)
Definition length2mask (length : list nat) : list (list bool) :=
  (λ l, (λ j, l <=? j) <$> seq 0 (max_list length)) <$> length.

(** [torch.cat((x, y), dim=-1)] on two-dimensional masks. *)
Definition cat_last (x y : list (list Z)) : result (list (list Z)) :=
  if length x =? length y then Ok (zip_with app x y) else Err ShapeError.

(** An elementwise operation of numpy or torch on vectors, with the
    broadcast of a vector of length one. *)
Definition elementwise (f : Q → Q → Q) (x y : list Q) : result (list Q) :=
  if length x =? length y then Ok (zip_with f x y)
  else match x, y with
       | [a], _ => Ok (f a <$> y)
       | _, [b] => Ok ((λ a, f a b) <$> x)
       | _, _ => Err ShapeError
       end.

Definition Qsum (l : list Q) : Q := foldr Qplus 0%Q l.

(** ** Reward shaper (lines 406-429, one batch item) *)

Definition shaped_reward (ended_i : bool) (action_idx : Z)
    (dist last_dist ndtw_score last_ndtw : Q) : result (Q * Q) :=
  if ended_i then Ok (0, 0)%Q
  else if (action_idx =? -1)%Z then
    if Qltb dist 3.0 then Ok (2.0 + ndtw_score * 2.0, 1)%Q
    else Ok (- 2.0, 1)%Q
  else
    let reward := (- (dist - last_dist))%Q in
    let ndtw_reward := (ndtw_score - last_ndtw)%Q in
    reward ←
      (if Qltb 0.0 reward then Ok (1.0 + ndtw_reward)%Q
       else if Qltb reward 0.0 then Ok (- 1.0 + ndtw_reward)%Q
       else Err (NameError "The action doesn't change the move"));
    if Qle_bool last_dist 1.0 && Qltb 0.0 (dist - last_dist)
    then Ok (reward - (1.0 - last_dist) * 2.0, 1)%Q
    else Ok (reward, 1%Q).

(** ** Rollout *)

(** The agent's own fields that [rollout] reads and writes; [env] is the
    outside world behind [self.env] and the networks. *)
Record Agent (C : Collaborators) : Type := {
  feedback : string;
  episode_len : nat;
  loss : PyNum;
  losses : list Q;
  env : World C
}.
Arguments feedback {C}.
Arguments episode_len {C}.
Arguments loss {C}.
Arguments losses {C}.
Arguments env {C}.

(** The local variables of [rollout] that live across timesteps. [last_t]
    is the loop variable [t], unbound until the first iteration;
    [dis_loss_c] likewise. *)
Record LoopState (C : Collaborators) : Type := {
  world : World C;
  perm_obs : list Observation;
  traj : list Traj;
  last_dist : list Q;
  last_ndtw : list Q;
  ended : list bool;
  rewards : list (list Q);
  hidden_states : list (Hidden C);
  policy_log_probs : list (list Q);
  masks : list (list Q);
  entropys : list (list Q);
  ml_loss : PyNum;
  vis_taj : Tensor3;
  dis_loss_c : option Q;
  last_t : option nat
}.
Arguments world {C}.
Arguments perm_obs {C}.
Arguments traj {C}.
Arguments last_dist {C}.
Arguments last_ndtw {C}.
Arguments ended {C}.
Arguments rewards {C}.
Arguments hidden_states {C}.
Arguments policy_log_probs {C}.
Arguments masks {C}.
Arguments entropys {C}.
Arguments ml_loss {C}.
Arguments vis_taj {C}.
Arguments dis_loss_c {C}.
Arguments last_t {C}.

(** The inputs of the visual pass (lines 325-340 and 447-462). *)
Definition visual_inputs (C : Collaborators) (sb : SortedBatch)
    (language_features : Emb C) (att_drop_rate : Q) (t : nat)
    (input_a_t : Mat) (candidate_feat : Tensor3) (candidate_leng : list nat)
    : result (VisualInputs (Emb C)) :=
  let visual_temp_mask :=
    fmap (M:=list) (λ b : bool, if b then 0 else 1)%Z
      <$> length2mask candidate_leng in
  visual_attention_mask ← cat_last (language_attention_mask sb) visual_temp_mask;
  Ok {| v_sentence := language_features;
        v_attention_mask := visual_attention_mask;
        v_lang_mask := language_attention_mask sb;
        v_vis_mask := visual_temp_mask;
        v_token_type_ids := token_type_ids sb;
        v_action_feats := input_a_t;
        v_cand_feats := candidate_feat;
        v_t := t;
        v_seq_lengths := seq_lengths sb;
        v_att_drop_rate := att_drop_rate |}.

(** The mask of the policy logits (line 347). *)
Definition candidate_mask (t : nat) (candidate_leng : list nat) : list (list bool) :=
  length2mask ((λ l, l - t) <$> candidate_leng).

(** [dst[:t, :] = src[:t, :]]: both slices must have the same shape. *)
Definition assign_rows (t : nat) (src dst : Mat) : result Mat :=
  if (t <=? length src) && (t <=? length dst)
     && forallb (λ '(a, b), length a =? length b) (zip (take t src) (take t dst))
  then Ok (take t src ++ drop t dst)
  else Err ShapeError.

(** Lines 376-381: the rows the encoder has just read are written back to
    the memory bank, except for items whose action is the ignore index. *)
Fixpoint write_back (ignore : Z) (t : nat) (cpu_a_t : list Z)
    (todo : list (nat * Mat)) (vis_taj : Tensor3) : result Tensor3 :=
  match todo with
  | [] => Ok vis_taj
  | (i, cf_i) :: rest =>
      a ← at_index cpu_a_t i;
      if (a =? ignore)%Z then write_back ignore t cpu_a_t rest vis_taj
      else if 0 <? t then
        bank ← at_index vis_taj i;
        bank ← assign_rows t cf_i bank;
        write_back ignore t cpu_a_t rest (<[i := bank]> vis_taj)
      else write_back ignore t cpu_a_t rest vis_taj
  end.

(** The test of line 384: the stop slot, the ignore index, or an item that
    has ended. *)
Definition stops (args : Args) (t leng_i : nat) (next_id : Z) : bool :=
  ((next_id =? Z.of_nat leng_i - 1 - Z.of_nat t) || (next_id =? ignoreid args))%Z.

(** Lines 383-388 on one item: the action becomes -1, or the visual output
    of the chosen candidate is committed to row [t] of the memory bank. *)
Definition commit_action (args : Args) (t : nat) (candidate_leng : list nat)
    (ended : list bool) (visn_output : Tensor3) (i : nat) (next_id : Z)
    (vis_taj : Tensor3) : result (Z * Tensor3) :=
  leng_i ← at_index candidate_leng i;
  if stops args t leng_i next_id then Ok ((-1)%Z, vis_taj)
  else
    e ← at_index ended i;
    if e : bool then Ok ((-1)%Z, vis_taj)
    else
      out_i ← at_index visn_output i;
      src ← py_index out_i next_id;
      bank ← at_index vis_taj i;
      old ← at_index bank t;
      src ← broadcast_to (feature_size args `min` length old) src;
      Ok (next_id, <[i := <[t := set_cols 0 src old]> bank]> vis_taj).

Fixpoint commit_actions (args : Args) (t : nat) (candidate_leng : list nat)
    (ended : list bool) (visn_output : Tensor3) (todo : list (nat * Z))
    (vis_taj : Tensor3) : result (list Z * Tensor3) :=
  match todo with
  | [] => Ok ([], vis_taj)
  | (i, next_id) :: rest =>
      '(a, vis_taj) ←
        commit_action args t candidate_leng ended visn_output i next_id vis_taj;
      '(acts, vis_taj) ←
        commit_actions args t candidate_leng ended visn_output rest vis_taj;
      Ok (a :: acts, vis_taj)
  end.

(** Lines 401-429 on one item: distance, similarity, reward and mask. The
    arrays are read where the source reads them; an argument the taken
    branch of [shaped_reward] does not read is passed as 0. *)
Definition reward_item (C : Collaborators) (batch_size : nat)
    (traj : list Traj) (ended : list bool) (cpu_a_t : list Z)
    (last_dist last_ndtw : list Q) (i : nat) (ob : Observation)
    : result (Q * Q * Q * Q) :=
  if batch_size <=? i then Err IndexError
  else
    let dist_i := distance ob in
    tr ← at_index traj i;
    let path_act := (λ vp : string * Q * Q, vp.1.1) <$> path tr in
    let ndtw_i := ndtw C (scan ob) path_act (gt_path ob) in
    e ← at_index ended i;
    '(r, m) ←
      (if e : bool then shaped_reward true 0 dist_i 0 ndtw_i 0
       else
         action_idx ← at_index cpu_a_t i;
         if (action_idx =? -1)%Z
         then shaped_reward false action_idx dist_i 0 ndtw_i 0
         else
           ld ← at_index last_dist i;
           ln ← at_index last_ndtw i;
           shaped_reward false action_idx dist_i ld ndtw_i ln);
    Ok (dist_i, ndtw_i, r, m).

(** The arrays of one timestep; entries the loop does not reach keep the
    initial value of their array. *)
Definition reward_step (C : Collaborators) (batch_size : nat)
    (perm_obs : list Observation) (traj : list Traj) (ended : list bool)
    (cpu_a_t : list Z) (last_dist last_ndtw : list Q)
    : result (list Q * list Q * list Q * list Q) :=
  items ← mapM (λ '(i, ob),
                  reward_item C batch_size traj ended cpu_a_t last_dist last_ndtw i ob)
               (enumerate perm_obs);
  let rest := batch_size - length items in
  Ok (((λ x : Q * Q * Q * Q, x.1.1.1) <$> items) ++ replicate rest 0%Q,
      ((λ x : Q * Q * Q * Q, x.1.1.2) <$> items) ++ replicate rest 0%Q,
      ((λ x : Q * Q * Q * Q, x.1.2) <$> items) ++ replicate rest 0%Q,
      ((λ x : Q * Q * Q * Q, x.2) <$> items) ++ replicate rest 1%Q).

(** [ended[:] = np.logical_or(ended, cpu_a_t == -1)] *)
Definition update_ended (ended : list bool) (cpu_a_t : list Z) : result (list bool) :=
  let stopped := (λ a, a =? -1)%Z <$> cpu_a_t in
  if length stopped =? length ended then Ok (zip_with orb ended stopped)
  else match stopped with
       | [b] => Ok ((λ e, e || b) <$> ended)
       | _ => Err ShapeError
       end.

(** An array of [batch_size] entries initialised to [d] whose first entries
    a loop over the observations has assigned. *)
Definition fill_array (batch_size : nat) (d : Q) (values : list Q) : result (list Q) :=
  if length values <=? batch_size
  then Ok (values ++ replicate (batch_size - length values) d)
  else Err IndexError.

(** Lines 355-371. [softmax] and [Categorical] are folded into the
    collaborators, which take the masked logits. *)
Definition select_action (C : Collaborators) (fb : string) (w : World C)
    (logit : Logit C) (target : list Z)
    (policy_log_probs entropys : list (list Q))
    : result (World C * list Z * list (list Q) * list (list Q)) :=
  if String.eqb fb "teacher" then Ok (w, target, policy_log_probs, entropys)
  else if String.eqb fb "argmax" then
    let a_t := logit_argmax C logit in
    Ok (w, a_t, policy_log_probs ++ [log_softmax_gather C logit a_t], entropys)
  else if String.eqb fb "sample" then
    let entropy := categorical_entropy C logit in
    let '(w, a_t) := categorical_sample C w logit in
    Ok (w, a_t, policy_log_probs ++ [categorical_log_prob C logit a_t],
        entropys ++ [entropy])
  else Err (SystemExit "Invalid feedback option").

(** The body of [for t in range(self.episode_len)], lines 322-437. *)
Definition timestep (C : Collaborators) (args : Args) (fb : string)
    (train_rl : bool) (batch_size : nat) (sb : SortedBatch)
    (language_features : Emb C) (att_drop_rate : Q) (t : nat)
    (st : LoopState C) : result (LoopState C) :=
  '(input_a_t, candidate_feat, candidate_leng) ←
    get_input_feat C args (perm_obs st) t (vis_taj st);
  let candidate_feat_for_traj := candidate_feat in
  inputs ← visual_inputs C sb language_features att_drop_rate t
             input_a_t candidate_feat candidate_leng;
  let '(w, (h_t, visn_output, logit, dis_loss_c)) :=
    vln_bert_visual C (world st) inputs in
  let hidden_states := hidden_states st ++ [h_t] in
  let logit := masked_fill_neg_inf C logit (candidate_mask t candidate_leng) in
  target ← _teacher_action args (perm_obs st) (ended st);
  let ml_loss :=
    py_add (ml_loss st) (PyTensor (cross_entropy_sum C (ignoreid args) logit target)) in
  '(w, a_t, policy_log_probs, entropys) ←
    select_action C fb w logit target (policy_log_probs st) (entropys st);
  let cpu_a_t := a_t in
  vis_taj ← write_back (ignoreid args) t cpu_a_t
              (enumerate candidate_feat_for_traj) (vis_taj st);
  '(cpu_a_t, vis_taj) ←
    commit_actions args t candidate_leng (ended st) visn_output
      (enumerate cpu_a_t) vis_taj;
  '(w, traj) ←
    make_equiv_action C cpu_a_t (perm_obs st) (enumerate (perm_idx sb)) w (traj st);
  perm_obs ← at_index_all (env_get_obs C w) (perm_idx sb);
  '(rewards, masks, last_dist, last_ndtw) ←
    (if train_rl then
       '(dist, ndtw_score, reward, mask) ←
         reward_step C batch_size perm_obs traj (ended st) cpu_a_t
           (last_dist st) (last_ndtw st);
       Ok (rewards st ++ [reward], masks st ++ [mask], dist, ndtw_score)
     else Ok (rewards st, masks st, last_dist st, last_ndtw st));
  ended ← update_ended (ended st) cpu_a_t;
  Ok {| world := w; perm_obs := perm_obs; traj := traj;
        last_dist := last_dist; last_ndtw := last_ndtw; ended := ended;
        rewards := rewards; hidden_states := hidden_states;
        policy_log_probs := policy_log_probs; masks := masks;
        entropys := entropys; ml_loss := ml_loss; vis_taj := vis_taj;
        dis_loss_c := Some dis_loss_c; last_t := Some t |}.

(** The loop of lines 320-441: at most [fuel] timesteps from [t] on, left
    early once every item has ended. *)
Fixpoint rollout_loop (C : Collaborators) (args : Args) (fb : string)
    (train_rl : bool) (batch_size : nat) (sb : SortedBatch)
    (language_features : Emb C) (att_drop_rate : Q) (fuel t : nat)
    (st : LoopState C) : result (LoopState C) :=
  match fuel with
  | 0 => Ok st
  | S fuel =>
      st ← timestep C args fb train_rl batch_size sb language_features
             att_drop_rate t st;
      if forallb id (ended st) then Ok st
      else rollout_loop C args fb train_rl batch_size sb language_features
             att_drop_rate fuel (S t) st
  end.

(** Lines 471-473: the critic's value of the last state for the items that
    have not ended, zero for the others. *)
Definition bootstrap (batch_size : nat) (ended : list bool)
    (last_value : list Q) : result (list Q) :=
  mapM (λ i, e ← at_index ended i;
             if e : bool then Ok 0%Q else at_index last_value i)
       (seq 0 batch_size).

(** Line 478: [discount_reward * args.gamma + rewards[t]], in exact
    arithmetic; [discount_step32] is the same line in binary32. *)
Definition discount_step (g : Q) (discount_reward rewards_t : list Q)
    : result (list Q) :=
  elementwise Qplus ((λ d, d * g)%Q <$> discount_reward) rewards_t.

(** The body of [for t in range(length-1, -1, -1)], lines 478-491, over
    the timesteps [ts]; it returns the discounted return, the loss and the
    count of unmasked steps. *)
Fixpoint a2c_backward (C : Collaborators) (args : Args) (fb : string)
    (st : LoopState C) (ts : list nat) (w : World C)
    (discount_reward : list Q) (rl_loss total : Q)
    : result (World C * list Q * Q * Q) :=
  match ts with
  | [] => Ok (w, discount_reward, rl_loss, total)
  | t :: ts =>
      rewards_t ← at_index (rewards st) t;
      discount_reward ← discount_step (gamma args) discount_reward rewards_t;
      mask_ ← at_index (masks st) t;
      let r_ := discount_reward in
      h ← at_index (hidden_states st) t;
      let '(w, v_) := critic C w h in
      a_ ← elementwise Qminus r_ v_;
      log_probs ← at_index (policy_log_probs st) t;
      actor ← elementwise Qmult (Qopp <$> log_probs) a_;
      actor ← elementwise Qmult actor mask_;
      let rl_loss := (rl_loss + Qsum actor)%Q in
      value_err ← elementwise Qmult ((λ x, x * x)%Q <$> a_) mask_;
      let rl_loss := (rl_loss + Qsum value_err * 0.5)%Q in
      rl_loss ←
        (if String.eqb fb "sample" then
           entropy ← at_index (entropys st) t;
           bonus ← elementwise Qmult ((λ x, - 0.01 * x)%Q <$> entropy) mask_;
           Ok (rl_loss + Qsum bonus)%Q
         else Ok rl_loss);
      let total := (total + Qsum mask_)%Q in
      a2c_backward C args fb st ts w discount_reward rl_loss total
  end.

(** The recursion of the spec on its own, [return = return*gamma + reward[t]]
    from the last timestep of [ts] to the first, to compare with the
    return that [a2c_backward] accumulates. *)
Fixpoint discounted_return (g : Q) (rewards : list (list Q)) (ts : list nat)
    (ret : list Q) : result (list Q) :=
  match ts with
  | [] => Ok ret
  | t :: ts =>
      rewards_t ← at_index rewards t;
      ret ← discount_step g ret rewards_t;
      discounted_return g rewards ts ret
  end.

(** ** The return in float32 (lines 470-478)

    [discount_reward] and [rewards[t]] are numpy arrays of dtype float32
    and [args.gamma] is a Python float, a binary64 number. numpy computes
    [discount_reward * args.gamma + rewards[t]] in binary32: gamma is
    converted to binary32, the product is rounded to binary32, and so is
    the sum. The operations are those of IEEE 754 as [SpecFloat] defines
    them, rounding to nearest, ties to even; a binary32 number has 24
    digits and exponents below 128, a binary64 number 53 digits and
    exponents below 1024. *)

Abbreviation float32 := SpecFloat.spec_float.
Abbreviation float64 := SpecFloat.spec_float.

Definition f32_of_Z (z : Z) : float32 := SpecFloat.binary_normalize 24 128 z 0 false.

(** The conversion that numpy applies to the Python float. *)
Definition f32_of_f64 (x : float64) : float32 :=
  match x with
  | SpecFloat.S754_finite s m e => SpecFloat.binary_round 24 128 s m e
  | _ => x
  end.

Definition f32_mul : float32 → float32 → float32 := SpecFloat.SFmul 24 128.
Definition f32_add : float32 → float32 → float32 := SpecFloat.SFadd 24 128.

(** The number a finite float stands for; 0 for the infinities and NaN. *)
Definition float_value (x : SpecFloat.spec_float) : Q :=
  match x with
  | SpecFloat.S754_finite s m e =>
      ((if s then -1 else 1) * inject_Z (Z.pos m) * 2 ^ e)%Q
  | _ => 0%Q
  end.

(** [elementwise] on float32 vectors. *)
Definition elementwise32 (f : float32 → float32 → float32)
    (x y : list float32) : result (list float32) :=
  if length x =? length y then Ok (zip_with f x y)
  else match x, y with
       | [a], _ => Ok (f a <$> y)
       | _, [b] => Ok ((λ a, f a b) <$> x)
       | _, _ => Err ShapeError
       end.

(** Line 478 as numpy computes it. *)
Definition discount_step32 (gamma : float64)
    (discount_reward rewards_t : list float32) : result (list float32) :=
  elementwise32 f32_add
    ((λ d, f32_mul d (f32_of_f64 gamma)) <$> discount_reward) rewards_t.

(** Lines 477-478, [for t in range(length-1, -1, -1)], over the
    timesteps [ts]. *)
Fixpoint discounted_return32 (gamma : float64) (rewards : list (list float32))
    (ts : list nat) (ret : list float32) : result (list float32) :=
  match ts with
  | [] => Ok ret
  | t :: ts =>
      rewards_t ← at_index rewards t;
      ret ← discount_step32 gamma ret rewards_t;
      discounted_return32 gamma rewards ts ret
  end.

(** The Python float [0.9]: the binary64 number nearest to 9/10. *)
Definition py_float_0_9 : float64 :=
  SpecFloat.S754_finite false 8106479329266893 (-53).

(** The rewards [1.0, -1.0, 2.0] of one item as float32 arrays. *)
Definition one_item_rewards32 : list (list float32) :=
  [[f32_of_Z 1]; [f32_of_Z (-1)]; [f32_of_Z 2]].

(** Lines 443-503: the last visual pass, the backward pass and the
    normalisation. The result is the world, the final discounted return
    and the loss term. *)
Definition a2c (C : Collaborators) (args : Args) (fb : string)
    (batch_size : nat) (sb : SortedBatch) (language_features : Emb C)
    (att_drop_rate : Q) (st : LoopState C) : result (World C * list Q * Q) :=
  t ← match last_t st with Some t => Ok t | None => Err (NameError "t") end;
  '(input_a_t, candidate_feat, candidate_leng) ←
    get_input_feat C args (perm_obs st) (t + 1) (vis_taj st);
  inputs ← visual_inputs C sb language_features att_drop_rate (t + 1)
             input_a_t candidate_feat candidate_leng;
  let '(w, (last_h_, _, _, _)) := vln_bert_visual C (world st) inputs in
  let '(w, last_value__) := critic C w last_h_ in
  discount_reward ← bootstrap batch_size (ended st) last_value__;
  let length := length (rewards st) in
  '(w, discount_reward, rl_loss, total) ←
    a2c_backward C args fb st (reverse (seq 0 length)) w discount_reward 0 0;
  rl_loss ←
    (if String.eqb (normalize_loss args) "total" then Ok (rl_loss / total)%Q
     else if String.eqb (normalize_loss args) "batch"
     then Ok (rl_loss / inject_Z (Z.of_nat batch_size))%Q
     else if String.eqb (normalize_loss args) "none" then Ok rl_loss
     else Err AssertionError);
  Ok (w, discount_reward, rl_loss).

(** What one call of [rollout] leaves behind: the returned trajectories,
    the agent, and the local lists of the reinforcement pass. *)
Record Outcome (C : Collaborators) : Type := {
  out_traj : list Traj;
  out_agent : Agent C;
  out_rewards : list (list Q);
  out_masks : list (list Q);
  out_rl_loss : option Q
}.
Arguments out_traj {C}.
Arguments out_agent {C}.
Arguments out_rewards {C}.
Arguments out_masks {C}.
Arguments out_rl_loss {C}.

(** The state at the head of the loop, lines 293-318. *)
Definition initial_state (C : Collaborators) (episode_len batch_size : nat)
    (w : World C) (perm_obs : list Observation) : result (LoopState C) :=
  let traj :=
    (λ ob, {| traj_instr_id := instr_id ob;
              path := [(viewpoint ob, heading ob, elevation ob)] |}) <$> perm_obs in
  last_dist ← fill_array batch_size 0 (distance <$> perm_obs);
  last_ndtw ←
    fill_array batch_size 0
      ((λ ob, ndtw C (scan ob) [viewpoint ob] (gt_path ob)) <$> perm_obs);
  Ok {| world := w; perm_obs := perm_obs; traj := traj;
        last_dist := last_dist; last_ndtw := last_ndtw;
        ended := replicate batch_size false;
        rewards := []; hidden_states := []; policy_log_probs := [];
        masks := []; entropys := []; ml_loss := PyFloat 0;
        vis_taj := zeros3 batch_size episode_len 2176;
        dis_loss_c := None; last_t := None |}.

(** [rollout], with [args.vlnbert == 'prevalent'] as the constructor of the
    agent requires. The log dictionary is not modelled. *)
Definition rollout_run (C : Collaborators) (args : Args) (ag : Agent C)
    (train_ml train_dis_l train_dis_c : option Q) (att_drop_rate : Q)
    (train_rl reset : bool) : result (Outcome C) :=
  let fb := feedback ag in
  let train_rl :=
    if String.eqb fb "teacher" || String.eqb fb "argmax" then false else train_rl in
  let '(w, obs) :=
    if reset then env_reset C (env ag) else (env ag, env_get_obs C (env ag)) in
  let batch_size := length obs in
  sb ← _sort_batch C obs;
  perm_obs ← at_index_all obs (perm_idx sb);
  let mask := language_attention_mask sb in
  let '(w, text_embeds) :=
    vln_bert_language C w
      {| l_sentence := sentence sb; l_attention_mask := mask;
         l_lang_mask := mask; l_token_type_ids := token_type_ids sb |} in
  let '(w, noise) := rand_like C w mask in
  let mask_drop :=
    zip_with (zip_with (λ r m, (if Qltb r att_drop_rate then 1 else 0) * m)%Z)
      noise mask in
  let '(w, text_embeds_drop) :=
    vln_bert_language C w
      {| l_sentence := sentence sb; l_attention_mask := mask_drop;
         l_lang_mask := mask_drop; l_token_type_ids := token_type_ids sb |} in
  let dis_loss_l :=
    (0.0 + kl_div C (log_softmax_emb C text_embeds_drop) (softmax_emb C text_embeds)
     + kl_div C (log_softmax_emb C text_embeds) (softmax_emb C text_embeds_drop))%Q in
  let language_features := text_embeds in
  st ← initial_state C (episode_len ag) batch_size w perm_obs;
  st ← rollout_loop C args fb train_rl batch_size sb language_features
         att_drop_rate (episode_len ag) 0 st;
  '(w, loss, rl) ←
    (if train_rl then
       '(w, _, rl_loss) ←
         a2c C args fb batch_size sb language_features att_drop_rate st;
       Ok (w, py_add (loss ag) (PyTensor rl_loss), Some rl_loss)
     else Ok (world st, loss ag, None));
  loss ←
    match train_ml with
    | Some k =>
        let term :=
          py_map (λ x, x * k / inject_Z (Z.of_nat batch_size))%Q (ml_loss st) in
        _ ← item term;
        Ok (py_add loss term)
    | None => Ok loss
    end;
  let loss :=
    match train_dis_l with
    | Some k => py_add loss (PyTensor (dis_loss_l * k))
    | None => loss
    end in
  loss ←
    match train_dis_c with
    | Some k =>
        match dis_loss_c st with
        | Some d => Ok (py_add loss (PyTensor (d * k)))
        | None => Err (NameError "dis_loss_c")
        end
    | None => Ok loss
    end;
  losses ←
    match loss with
    | PyInt _ => Ok (losses ag ++ [0.0%Q])
    | _ =>
        x ← item loss;
        if episode_len ag =? 0 then Err ZeroDivisionError
        else Ok (losses ag ++ [x / inject_Z (Z.of_nat (episode_len ag))])%Q
    end;
  Ok {| out_traj := traj st;
        out_agent := {| feedback := fb; episode_len := episode_len ag;
                        loss := loss; losses := losses; env := w |};
        out_rewards := rewards st; out_masks := masks st; out_rl_loss := rl |}.

Definition rollout (C : Collaborators) (args : Args) (ag : Agent C)
    (train_ml train_dis_l train_dis_c : option Q) (att_drop_rate : Q)
    (train_rl reset : bool) : result (list Traj * Agent C) :=
  (λ o, (out_traj o, out_agent o)) <$>
    rollout_run C args ag train_ml train_dis_l train_dis_c att_drop_rate
      train_rl reset.

(** ** A stable sorting routine for [torch.sort]

    It orders (length, position) pairs by descending length and, on equal
    lengths, by position. *)

Definition earlier_first (x y : nat * nat) : Prop :=
  y.1 < x.1 ∨ (x.1 = y.1 ∧ x.2 ≤ y.2).

#[global] Instance earlier_first_dec x y : Decision (earlier_first x y).
Proof. unfold earlier_first. apply _. Defined.

Definition sort_pairs (R : relation (nat * nat)) `{∀ x y, Decision (R x y)}
    (l : list nat) : list nat * list nat :=
  let sorted := merge_sort R (zip l (seq 0 (length l))) in
  (sorted.*1, sorted.*2).

Definition sort_keep_ties : list nat → list nat * list nat := sort_pairs earlier_first.

(** ** A small world to run the rollout in

    Two instructions over one scan. The world is the number of moves made
    so far, and every move brings both agents one unit closer to the goal.
    The first observation has no candidate towards its teacher viewpoint,
    the second always has one. The networks return zeros; a hidden state
    and a logit tensor are represented by their batch size. *)

Definition toy_candidate (vp : string) : Candidate :=
  {| viewpointId := vp; pointId := 0; idx := 0; feature := replicate 2176 0%Q |}.

Definition toy_obs (moves : nat) : list Observation :=
  [ {| instr_id := "i0"; instr_encoding := [5; 6; 0]%Z; scan := "s";
       viewpoint := "start"; viewIndex := 0; heading := 0; elevation := 0;
       distance := 12.0 - inject_Z (Z.of_nat moves); gt_path := ["start"]; teacher := "start";
       candidate := [toy_candidate "a"] |};
    {| instr_id := "i1"; instr_encoding := [5; 6; 7]%Z; scan := "s";
       viewpoint := "start"; viewIndex := 0; heading := 0; elevation := 0;
       distance := 15.0 - inject_Z (Z.of_nat moves); gt_path := ["start"; "b"]; teacher := "b";
       candidate := [toy_candidate "a"; toy_candidate "b"] |} ].

Definition toy : Collaborators :=
  {| World := nat; Emb := unit; Hidden := nat; Logit := nat;
     padding_idx := 0;
     angle_feature := λ _ _, replicate 128 0%Q;
     ndtw := λ _ _ _, 0.5%Q;
     torch_sort_descending := sort_keep_ties;
     rand_like := λ w mask, (w, fmap (M:=list) (λ _, 0.7%Q) <$> mask);
     kl_div := λ _ _, 0%Q;
     log_softmax_emb := λ e, e;
     softmax_emb := λ e, e;
     masked_fill_neg_inf := λ l _, l;
     cross_entropy_sum := λ _ _ _, 1%Q;
     logit_argmax := λ b, replicate b 0%Z;
     log_softmax_gather := λ b _, replicate b 0%Q;
     categorical_entropy := λ b, replicate b 0%Q;
     categorical_sample := λ w b, (w, replicate b 0%Z);
     categorical_log_prob := λ b _, replicate b 0%Q;
     env_reset := λ _, (0, toy_obs 0);
     env_get_obs := toy_obs;
     sim_navigate := λ w _ _ c, Ok (S w, (viewpointId c, 0%Q, 0%Q));
     vln_bert_language := λ w _, (w, ());
     vln_bert_visual := λ w inp,
       let b := length (v_cand_feats inp) in
       (w, (b, fmap (M:=list) (take 2048) <$> v_cand_feats inp, b, 0%Q));
     critic := λ w b, (w, replicate b 0%Q) |}.

Definition toy_args : Args :=
  {| feature_size := 2048; angle_feat_size := 128; ignoreid := -100;
     gamma := 0.9; normalize_loss := "total" |}.

Definition toy_agent (fb : string) : Agent toy :=
  {| feedback := fb; episode_len := 3; loss := PyInt 0; losses := [];
     env := (0 : World toy) |}.

(** ** Inputs of the examples *)

Definition three_candidates : list Candidate :=
  [ {| viewpointId := "u"; pointId := 0; idx := 0; feature := [] |};
    {| viewpointId := "v"; pointId := 1; idx := 1; feature := [] |};
    {| viewpointId := "w"; pointId := 2; idx := 2; feature := [] |} ].

Definition obs_with_teacher (next : string) : Observation :=
  {| instr_id := "i"; instr_encoding := []; scan := "s"; viewpoint := "here";
     viewIndex := 0; heading := 0; elevation := 0; distance := 4.0;
     gt_path := []; teacher := next; candidate := three_candidates |}.

(** A feature of two visual columns and one angle column. *)
Definition small_args : Args :=
  {| feature_size := 2; angle_feat_size := 1; ignoreid := -100;
     gamma := 0.9; normalize_loss := "total" |}.

Definition small_obs : Observation :=
  {| instr_id := "i"; instr_encoding := [5; 0]%Z; scan := "s";
     viewpoint := "here"; viewIndex := 0; heading := 0; elevation := 0;
     distance := 4.0; gt_path := []; teacher := "a";
     candidate := [ {| viewpointId := "a"; pointId := 0; idx := 0;
                       feature := [7; 8; 9]%Q |} ] |}.

Definition small_bank : Tensor3 := [[[1; 2; 3]; [4; 5; 6]; [0; 0; 0]]]%Q.
Definition small_action : Mat := [[9]]%Q.

Definition one_item_rewards : list (list Q) := [[1.0]; [- 1.0]; [2.0]]%Q.

(** The lists of a reinforcement pass over one item and three timesteps. *)
Definition one_item_state : LoopState toy :=
  {| world := (0 : World toy); perm_obs := []; traj := [];
     last_dist := [0%Q]; last_ndtw := [0%Q]; ended := [true];
     rewards := one_item_rewards;
     hidden_states := [1; 1; 1] : list (Hidden toy);
     policy_log_probs := [[0]; [0]; [0]]%Q;
     masks := [[1]; [1]; [1]]%Q; entropys := [];
     ml_loss := PyFloat 0; vis_taj := []; dis_loss_c := None;
     last_t := Some 2 |}.

(** The sorted batch and the state at the head of the loop in the small
    world, for an episode of three timesteps. *)
Definition toy_sorted : SortedBatch :=
  match _sort_batch toy (toy_obs 0) with
  | Ok sb => sb
  | Err _ =>
      {| sentence := []; language_attention_mask := []; token_type_ids := [];
         seq_lengths := []; perm_idx := [] |}
  end.

Definition toy_start : LoopState toy :=
  let perm_obs :=
    match at_index_all (toy_obs 0) (perm_idx toy_sorted) with
    | Ok l => l
    | Err _ => []
    end in
  match initial_state toy 3 2 (0 : World toy) perm_obs with
  | Ok st => st
  | Err _ => one_item_state
  end.


(** ** Further definitions *)

(** The discounted return of one item in Bellman form: the rewards [rs]
    of its timesteps in order, then the value [v] of the state after the
    last of them. *)
Definition discounted_sum (g v : Q) (rs : list Q) : Q :=
  foldr (λ r acc, r + g * acc)%Q v rs.

(** The rewards of item [i] over the timesteps. *)
Definition item_rewards (i : nat) (rewards : list (list Q)) : list Q :=
  (λ r : list Q, default 0%Q (r !! i)) <$> rewards.

(** The observations a call of [rollout] starts from (lines 248-251). *)
Definition first_obs (C : Collaborators) (ag : Agent C) (reset : bool)
    : list Observation :=
  if reset then (env_reset C (env ag)).2 else env_get_obs C (env ag).

(** [zero_grad] (lines 533-538); [hook] is what [model.train()] and
    [optimizer.zero_grad()] do to the networks. *)
Definition zero_grad {C : Collaborators} (hook : World C → World C)
    (ag : Agent C) : Agent C :=
  {| feedback := feedback ag; episode_len := episode_len ag;
     loss := PyFloat 0; losses := []; env := hook (env ag) |}.

(** The agent of the small world with another episode length. *)
Definition toy_agent_steps (n : nat) (fb : string) : Agent toy :=
  {| feedback := fb; episode_len := n; loss := PyInt 0; losses := [];
     env := (0 : World toy) |}.

(** ** The primitive moves of [make_equiv_action] (lines 202-233)

    What the collaborator [sim_navigate] stands for, on the simulator of
    one batch item. A call of [makeAction] is recorded as the source makes
    it: with a navigable-location index, or with the triple that
    [env_actions] has for a name. *)

Inductive ActionName : Type :=
  | act_left | act_right | act_up | act_down
  | act_forward | act_end | act_start | act_ignore.

(** The table of lines 84-93. *)
Definition env_actions (name : ActionName) : Z * Z * Z :=
  match name with
  | act_left => (0, -1, 0)
  | act_right => (0, 1, 0)
  | act_up => (0, 0, 1)
  | act_down => (0, 0, -1)
  | act_forward => (1, 0, 0)
  | act_end | act_start | act_ignore => (0, 0, 0)
  end%Z.

Inductive SimCall : Type :=
  | GoTo (name : Z)
  | Adjust (move : Z * Z * Z).

Record SimState : Type := {
  s_viewIndex : Z;
  s_viewpointId : string;
  s_heading : Q;
  s_elevation : Q;
  s_navigableLocations : list string
}.

Record Simulator : Type := {
  Sim : Type;
  makeAction : Sim → SimCall → Sim;
  getState : Sim → SimState
}.

(** [take_action(i, idx, name)]: an int goes to the next viewpoint, a name
    adjusts the camera. *)
Definition take_action (S : Simulator) (sim : Sim S) (name : ActionName + Z)
    : Sim S :=
  match name with
  | inr n => makeAction S sim (GoTo n)
  | inl name => makeAction S sim (Adjust (env_actions name))
  end.

(** [while sims[idx].getState()[0].viewIndex != trg_point: take_action('right')];
    [None] when the target is not reached within [fuel] turns, where the
    source keeps turning. *)
Fixpoint turn_right (S : Simulator) (fuel : nat) (trg_point : Z) (sim : Sim S)
    : option (Sim S) :=
  if (s_viewIndex (getState S sim) =? trg_point)%Z then Some sim
  else match fuel with
       | 0 => None
       | Datatypes.S fuel =>
           turn_right S fuel trg_point (take_action S sim (inl act_right))
       end.

(** Lines 215-233 for one item whose action is not -1: the tilts, the
    turns, the check of the reached location, the move, and the state read
    back for the trajectory. *)
Definition navigate (S : Simulator) (fuel : nat) (sim : Sim S)
    (ob : Observation) (select_candidate : Candidate)
    : option (result (Sim S * (string * Q * Q))) :=
  let src_point := viewIndex ob in
  let trg_point := pointId select_candidate in
  let src_level := (src_point / 12)%Z in
  let trg_level := (trg_point / 12)%Z in
  let sim :=
    Nat.iter (Z.to_nat (trg_level - src_level))
      (λ sim, take_action S sim (inl act_up)) sim in
  let sim :=
    Nat.iter (Z.to_nat (src_level - trg_level))
      (λ sim, take_action S sim (inl act_down)) sim in
  sim ← turn_right S fuel trg_point sim;
  Some (reached ← py_index (s_navigableLocations (getState S sim))
                    (idx select_candidate);
        if String.eqb (viewpointId select_candidate) reached then
          let sim := take_action S sim (inr (idx select_candidate)) in
          let state := getState S sim in
          Ok (sim, (s_viewpointId state, s_heading state, s_elevation state))
        else Err AssertionError).

(** The simulator after a sequence of calls. *)
Definition run_calls (S : Simulator) (sim : Sim S) (calls : list SimCall)
    : Sim S :=
  foldl (makeAction S) sim calls.

(** A simulator of three levels of twelve views: the state is the view
    index, a turn to the right goes to the next view of the level, a tilt
    to the level above or below. *)
Definition toy_simulator : Simulator :=
  {| Sim := Z;
     makeAction := λ v call,
       match call with
       | GoTo _ => v
       | Adjust (_, h, e) =>
           (12 * ((v / 12 + e) `mod` 3) + (v `mod` 12 + h) `mod` 12)%Z
       end;
     getState := λ v,
       {| s_viewIndex := v; s_viewpointId := "here"; s_heading := 0;
          s_elevation := 0; s_navigableLocations := ["here"; "a"; "b"] |} |}.

(** ** [self.results] and [BaseAgent.test] (lines 38-77)

    A Python dict keeps its keys in the order of their first insertion. *)

Definition Path : Type := list (string * Q * Q).

Fixpoint dict_set {V} (k : string) (v : V) (d : list (string * V))
    : list (string * V) :=
  match d with
  | [] => [(k, v)]
  | (k', v') :: d =>
      if String.eqb k' k then (k', v) :: d else (k', v') :: dict_set k v d
  end.

Fixpoint dict_get {V} (k : string) (d : list (string * V)) : option V :=
  match d with
  | [] => None
  | (k', v') :: d => if String.eqb k' k then Some v' else dict_get k d
  end.

Definition dict_mem {V} (k : string) (d : list (string * V)) : bool :=
  if dict_get k d is Some _ then true else false.

Record ResultEntry : Type := {
  r_instr_id : string;
  r_trajectory : Path
}.

(** [get_results] *)
Definition get_results (results : list (string * Path)) : list ResultEntry :=
  (λ kv, {| r_instr_id := kv.1; r_trajectory := kv.2 |}) <$> results.

Definition set_loss_zero {C : Collaborators} (ag : Agent C) : Agent C :=
  {| feedback := feedback ag; episode_len := episode_len ag;
     loss := PyInt 0; losses := losses ag; env := env ag |}.

(** Lines 65-67: every trajectory of a rollout is stored under its
    instruction id. *)
Definition record_all {C : Collaborators} (trajs : list Traj)
    (ag : Agent C) (results : list (string * Path))
    : Agent C * list (string * Path) :=
  foldl (λ '(ag, results) tr,
           (set_loss_zero ag, dict_set (traj_instr_id tr) (path tr) results))
        (ag, results) trajs.

(** Lines 70-75: a trajectory whose instruction id is known sets [looped];
    the others are stored. *)
Definition record_new {C : Collaborators} (trajs : list Traj)
    (ag : Agent C) (results : list (string * Path)) (looped : bool)
    : Agent C * list (string * Path) * bool :=
  foldl (λ '(ag, results, looped) tr,
           if dict_mem (traj_instr_id tr) results then (ag, results, true)
           else (set_loss_zero ag,
                 dict_set (traj_instr_id tr) (path tr) results, looped))
        (ag, results, looped) trajs.

Section BaseAgent.
Context {C : Collaborators}.
(** The rollout of the subclass with the keyword arguments of the call,
    and [env.reset_epoch]. *)
Variable rollout_kwargs : Agent C → result (list Traj * Agent C).
Variable reset_epoch : bool → World C → World C.

(** [for i in range(iters)] of lines 64-67. *)
Fixpoint test_iters (iters : nat) (ag : Agent C)
    (results : list (string * Path))
    : result (Agent C * list (string * Path)) :=
  match iters with
  | 0 => Ok (ag, results)
  | Datatypes.S iters =>
      '(trajs, ag) ← rollout_kwargs ag;
      let '(ag, results) := record_all trajs ag results in
      test_iters iters ag results
  end.

(** [while True] of lines 69-77, for at most [fuel] rounds; [None] when
    no round has met a known instruction id by then. *)
Fixpoint test_full (fuel : nat) (ag : Agent C)
    (results : list (string * Path))
    : option (result (Agent C * list (string * Path))) :=
  match fuel with
  | 0 => None
  | Datatypes.S fuel =>
      match rollout_kwargs ag with
      | Err e => Some (Err e)
      | Ok (trajs, ag) =>
          let '(ag, results, looped) := record_new trajs ag results false in
          if looped then Some (Ok (ag, results))
          else test_full fuel ag results
      end
  end.

(** [BaseAgent.test] *)
Definition base_test (fuel : nat) (iters : option nat) (ag : Agent C)
    : option (result (Agent C * list (string * Path))) :=
  let ag :=
    {| feedback := feedback ag; episode_len := episode_len ag;
       loss := PyInt 0; losses := [];
       env := reset_epoch (if iters is Some _ then true else false) (env ag) |} in
  match iters with
  | Some n => Some (test_iters n ag [])
  | None => test_full fuel ag []
  end.
End BaseAgent.

(** What a trajectory stores. *)
Definition entry_of (tr : Traj) : string * Path := (traj_instr_id tr, path tr).

(** An entry that some call of the rollout returned. *)
Definition from_rollout {C : Collaborators}
    (rollout_kwargs : Agent C → result (list Traj * Agent C))
    (kv : string * Path) : Prop :=
  ∃ ag trajs ag' tr,
    rollout_kwargs ag = Ok (trajs, ag') ∧ tr ∈ trajs ∧ kv = entry_of tr.

(** The runs of [BaseAgent.test] once more, now with a log: the
    trajectories that the rollouts of the run returned, in the order of
    the run. Apart from the log they are [test_iters], [test_full] and
    [base_test]. *)
Fixpoint test_iters_log {C : Collaborators}
    (rollout_kwargs : Agent C → result (list Traj * Agent C)) (iters : nat)
    (ag : Agent C) (results : list (string * Path)) (log : list Traj)
    : result (Agent C * list (string * Path) * list Traj) :=
  match iters with
  | 0 => Ok (ag, results, log)
  | Datatypes.S iters =>
      '(trajs, ag) ← rollout_kwargs ag;
      let '(ag, results) := record_all trajs ag results in
      test_iters_log rollout_kwargs iters ag results (log ++ trajs)
  end.

Fixpoint test_full_log {C : Collaborators}
    (rollout_kwargs : Agent C → result (list Traj * Agent C)) (fuel : nat)
    (ag : Agent C) (results : list (string * Path)) (log : list Traj)
    : option (result (Agent C * list (string * Path) * list Traj)) :=
  match fuel with
  | 0 => None
  | Datatypes.S fuel =>
      match rollout_kwargs ag with
      | Err e => Some (Err e)
      | Ok (trajs, ag) =>
          let '(ag, results, looped) := record_new trajs ag results false in
          if looped then Some (Ok (ag, results, log ++ trajs))
          else test_full_log rollout_kwargs fuel ag results (log ++ trajs)
      end
  end.

Definition base_test_log {C : Collaborators}
    (rollout_kwargs : Agent C → result (list Traj * Agent C))
    (reset_epoch : bool → World C → World C) (fuel : nat) (iters : option nat)
    (ag : Agent C)
    : option (result (Agent C * list (string * Path) * list Traj)) :=
  let ag :=
    {| feedback := feedback ag; episode_len := episode_len ag;
       loss := PyInt 0; losses := [];
       env := reset_epoch (if iters is Some _ then true else false) (env ag) |} in
  match iters with
  | Some n => Some (test_iters_log rollout_kwargs n ag [] [])
  | None => test_full_log rollout_kwargs fuel ag [] []
  end.

(** What the results are to the log: every instruction id of the log is a
    key, once, and nothing else is; every entry is the id and the path of a
    trajectory of the log. *)
Definition results_of_log (results : list (string * Path)) (log : list Traj)
    : Prop :=
  NoDup results.*1 ∧
  (∀ k, k ∈ results.*1 ↔ ∃ tr, tr ∈ log ∧ traj_instr_id tr = k) ∧
  Forall (λ kv, ∃ tr, tr ∈ log ∧ kv = entry_of tr) results.

(** [Seq2SeqAgent.test] (lines 522-531): [mode] is what [train()] or
    [eval()] does to the networks; the rollouts run with the defaults of
    [rollout]. *)
Definition seq2seq_test (C : Collaborators) (args : Args)
    (mode : bool → World C → World C) (reset_epoch : bool → World C → World C)
    (fuel : nat) (use_dropout : bool) (fb : string) (iters : option nat)
    (ag : Agent C) : option (result (Agent C * list (string * Path))) :=
  let ag :=
    {| feedback := fb; episode_len := episode_len ag; loss := loss ag;
       losses := losses ag; env := mode use_dropout (env ag) |} in
  base_test (λ ag, rollout C args ag None None None 0.5 true true)
    reset_epoch fuel iters ag.

(** ** [train] (lines 548-580) *)

Record TrainArgs : Type := {
  teacher_weight : Q;
  ml_weight : Q;
  distance_weight : Q;
  distance_weight_c : Q;
  drop_rate : Q
}.

(** What [train] does to the networks outside of [rollout]: switch to
    training mode, copy the shared weights and zero the gradients, and
    run [scaler.scale(self.loss).backward()]. *)
Record TrainHooks (C : Collaborators) : Type := {
  train_mode : World C → World C;
  sync_models : World C → World C;
  backward : PyNum → World C → World C
}.
Arguments train_mode {C}.
Arguments sync_models {C}.
Arguments backward {C}.

Definition set_feedback {C : Collaborators} (fb : string) (ag : Agent C)
    : Agent C :=
  {| feedback := fb; episode_len := episode_len ag; loss := loss ag;
     losses := losses ag; env := env ag |}.

(** One iteration of the loop of lines 557-578. *)
Definition train_iteration (C : Collaborators) (args : Args)
    (targs : TrainArgs) (hooks : TrainHooks C) (fb : string) (reset : bool)
    (ag : Agent C) : result (Agent C) :=
  let ag :=
    {| feedback := feedback ag; episode_len := episode_len ag;
       loss := PyInt 0; losses := losses ag;
       env := sync_models hooks (env ag) |} in
  ag ←
    (if String.eqb fb "teacher" then
       snd <$> rollout C args (set_feedback "teacher" ag)
                 (Some (teacher_weight targs)) (Some (distance_weight targs))
                 (Some (distance_weight_c targs)) (drop_rate targs) false reset
     else if String.eqb fb "sample" then
       ag ←
         (if Qeq_bool (ml_weight targs) 0 then Ok ag
          else snd <$> rollout C args (set_feedback "teacher" ag)
                         (Some (ml_weight targs)) (Some (distance_weight targs))
                         (Some (distance_weight_c targs)) (drop_rate targs)
                         false reset);
       snd <$> rollout C args (set_feedback "sample" ag) None
                 (Some (distance_weight targs)) (Some (distance_weight_c targs))
                 (drop_rate targs) true reset
     else Err AssertionError);
  Ok {| feedback := feedback ag; episode_len := episode_len ag;
        loss := loss ag; losses := losses ag;
        env := backward hooks (loss ag) (env ag) |}.

Fixpoint train_loop (C : Collaborators) (args : Args) (targs : TrainArgs)
    (hooks : TrainHooks C) (fb : string) (reset : bool) (n_iters : nat)
    (ag : Agent C) : result (Agent C) :=
  match n_iters with
  | 0 => Ok ag
  | Datatypes.S n =>
      ag ← train_iteration C args targs hooks fb reset ag;
      train_loop C args targs hooks fb reset n ag
  end.

Definition train (C : Collaborators) (args : Args) (targs : TrainArgs)
    (hooks : TrainHooks C) (n_iters : nat) (fb : string) (reset : bool)
    (ag : Agent C) : result (Agent C) :=
  let ag :=
    {| feedback := fb; episode_len := episode_len ag; loss := loss ag;
       losses := []; env := train_mode hooks (env ag) |} in
  train_loop C args targs hooks fb reset n_iters ag.

Definition toy_targs : TrainArgs :=
  {| teacher_weight := 1; ml_weight := 0.2; distance_weight := 1;
     distance_weight_c := 1; drop_rate := 0.5 |}.

Definition toy_hooks : TrainHooks toy :=
  {| train_mode := λ w, w; sync_models := λ w, w; backward := λ _ w, w |}.

(** ** A rollout for the examples of [BaseAgent.test]

    An environment of three instructions shown two per batch: the batch
    that starts at instruction [w] holds instructions [w] and [w + 1]
    modulo three, and the next batch starts at [w + 2]. *)

Definition instr_name (k : nat) : string :=
  match k mod 3 with
  | 0 => "i0"
  | 1 => "i1"
  | _ => "i2"
  end.

Definition cycling_rollout (ag : Agent toy) : result (list Traj * Agent toy) :=
  let w : nat := env ag in
  Ok ([ {| traj_instr_id := instr_name w;
           path := [(instr_name w, inject_Z (Z.of_nat w), 0%Q)] |};
        {| traj_instr_id := instr_name (w + 1);
           path := [(instr_name (w + 1), inject_Z (Z.of_nat w), 0%Q)] |} ],
      {| feedback := feedback ag; episode_len := episode_len ag;
         loss := loss ag; losses := losses ag; env := (w + 2 : World toy) |}).

(** ** Checkpoints: [save] and [load] (lines 582-616)

    What torch provides: the parameters of a network as a dict from names
    to tensors ([state_dict]), its strict [load_state_dict], which may
    refuse the dict, and the same pair for an optimizer. *)

Record Torch : Type := {
  Param : Type;
  OptState : Type;
  Net : Type;
  Optimizer : Type;
  state_dict : Net → gmap string Param;
  load_state_dict : Net → gmap string Param → option Net;
  opt_state_dict : Optimizer → OptState;
  opt_load_state_dict : Optimizer → OptState → option Optimizer
}.

Inductive IOError : Type :=
  | KeyError (key : string)
  | FileNotFoundError
  | RuntimeError.

(** The value of [states[name]]. *)
Record Snapshot (T : Torch) : Type := {
  ck_epoch : Z;
  ck_state_dict : gmap string (Param T);
  ck_optimizer : OptState T
}.
Arguments ck_epoch {T}.
Arguments ck_state_dict {T}.
Arguments ck_optimizer {T}.

(** [self.vln_bert] and [self.critic] with their optimizers. *)
Record Nets (T : Torch) : Type := {
  vln_bert_model : Net T;
  vln_bert_optimizer : Optimizer T;
  critic_model : Net T;
  critic_optimizer : Optimizer T
}.
Arguments vln_bert_model {T}.
Arguments vln_bert_optimizer {T}.
Arguments critic_model {T}.
Arguments critic_optimizer {T}.

Definition create_state (T : Torch) (epoch : Z) (model : Net T)
    (optimizer : Optimizer T) : Snapshot T :=
  {| ck_epoch := epoch + 1;
     ck_state_dict := state_dict T model;
     ck_optimizer := opt_state_dict T optimizer |}.

(** [save]: the file system is a map from paths to what [torch.save]
    wrote there; the directories that [os.makedirs] creates are not
    modelled. *)
Definition save (T : Torch) (epoch : Z) (path : string) (nets : Nets T)
    (files : gmap string (gmap string (Snapshot T)))
    : gmap string (gmap string (Snapshot T)) :=
  let states : gmap string (Snapshot T) := ∅ in
  let states :=
    <["vln_bert" := create_state T epoch (vln_bert_model nets)
                      (vln_bert_optimizer nets)]> states in
  let states :=
    <["critic" := create_state T epoch (critic_model nets)
                    (critic_optimizer nets)]> states in
  <[path := states]> files.

(** [recover_state(name, model, optimizer)]; the boolean tells whether the
    notice about different keys is printed. *)
Definition recover_state (T : Torch) (loadOptim : bool)
    (states : gmap string (Snapshot T)) (name : string) (model : Net T)
    (optimizer : Optimizer T) : IOError + (Net T * Optimizer T * bool) :=
  let state := state_dict T model in
  match states !! name with
  | None => inl (KeyError name)
  | Some snapshot =>
      let notice :=
        bool_decide (dom state ≠ dom (ck_state_dict snapshot)) in
      let state := ck_state_dict snapshot ∪ state in
      match load_state_dict T model state with
      | None => inl RuntimeError
      | Some model =>
          if loadOptim then
            match opt_load_state_dict T optimizer (ck_optimizer snapshot) with
            | None => inl RuntimeError
            | Some optimizer => inr (model, optimizer, notice)
            end
          else inr (model, optimizer, notice)
      end
  end.

(** [load], with [args.loadOptim]: the networks after it, the epoch it
    returns, and the notices of the two networks. *)
Definition load (T : Torch) (loadOptim : bool) (path : string)
    (files : gmap string (gmap string (Snapshot T))) (nets : Nets T)
    : IOError + (Nets T * Z * list bool) :=
  match files !! path with
  | None => inl FileNotFoundError
  | Some states =>
      match recover_state T loadOptim states "vln_bert" (vln_bert_model nets)
              (vln_bert_optimizer nets) with
      | inl e => inl e
      | inr (m1, o1, n1) =>
          match recover_state T loadOptim states "critic" (critic_model nets)
                  (critic_optimizer nets) with
          | inl e => inl e
          | inr (m2, o2, n2) =>
              match states !! "vln_bert" with
              | None => inl (KeyError "vln_bert")
              | Some snapshot =>
                  inr ({| vln_bert_model := m1; vln_bert_optimizer := o1;
                          critic_model := m2; critic_optimizer := o2 |},
                       (ck_epoch snapshot - 1)%Z, [n1; n2])
              end
          end
      end
  end.

(** A torch of integer parameters: a network is its dict of parameters
    and takes a dict with exactly its own keys; the state of an optimizer
    is a number. *)
Definition toy_torch : Torch :=
  {| Param := Z; OptState := Z; Net := gmap string Z; Optimizer := Z;
     state_dict := λ m, m;
     load_state_dict := λ m d, if decide (dom d = dom m) then Some d else None;
     opt_state_dict := λ o, o;
     opt_load_state_dict := λ _ s, Some s |}.

Definition trained_nets : Nets toy_torch :=
  Build_Nets toy_torch (<["w" := 5%Z]> (<["b" := 7%Z]> ∅) : gmap string Z) 3%Z
    (<["c" := 1%Z]> ∅ : gmap string Z) 4%Z.

Definition fresh_nets : Nets toy_torch :=
  Build_Nets toy_torch (<["w" := 0%Z]> (<["b" := 0%Z]> ∅) : gmap string Z) 0%Z
    (<["c" := 0%Z]> ∅ : gmap string Z) 0%Z.

(** * Properties *)

(** ** The error monad *)

Lemma bind_Ok {A B} (f : A → result B) (m : result A) (b : B) :
  m ≫= f = Ok b ↔ ∃ a, m = Ok a ∧ f a = Ok b.
Proof.
  destruct m as [a|e]; simpl; split.
  - intros H. by exists a.
  - by intros (a' & [= <-] & H).
  - done.
  - by intros (a' & [=] & _).
Qed.

Lemma at_index_Ok {A} (l : list A) (i : nat) (x : A) :
  at_index l i = Ok x ↔ l !! i = Some x.
Proof. unfold at_index. destruct (l !! i); naive_solver. Qed.

Lemma mapM_Ok {A B} (f : A → result B) (l : list A) (k : list B) :
  mapM f l = Ok k ↔ Forall2 (λ x y, f x = Ok y) l k.
Proof.
  revert k. induction l as [|x l IH]; intros k; simpl.
  - split; [intros [= <-]; constructor | by inversion 1].
  - split.
    + intros H. apply bind_Ok in H as (y & Hy & H).
      apply bind_Ok in H as (k' & Hk' & [= <-]).
      constructor; [done | by apply IH].
    + inversion 1 as [|? y ? k' Hy Hk']; subst.
      apply bind_Ok. exists y. split; [done|].
      apply bind_Ok. exists k'. split; [by apply IH | done].
Qed.

Lemma mapM_is_Ok {A B} (f : A → result B) (l : list A) :
  Forall (λ x, is_Ok (f x)) l → is_Ok (mapM f l).
Proof.
  induction 1 as [|x l [y Hy] _ [k Hk]].
  - by exists [].
  - exists (y :: k). apply mapM_Ok. constructor; [done | by apply mapM_Ok].
Qed.

Tactic Notation "bind_inv" hyp(H) "as" simple_intropattern(a) ident(Ha) :=
  apply bind_Ok in H as (a & Ha & H).

Lemma enumerate_lookup {A} (l : list A) (i : nat) :
  enumerate l !! i = pair i <$> l !! i.
Proof. unfold enumerate. by rewrite list_lookup_imap. Qed.

(** ** Batch preprocessor *)

#[global] Instance earlier_first_total : Total earlier_first.
Proof. intros [x i] [y j]. unfold earlier_first. simpl. lia. Qed.
#[global] Instance earlier_first_trans : Transitive earlier_first.
Proof. intros [x i] [y j] [z k]. unfold earlier_first. simpl. lia. Qed.











(** ** Candidate feature builder *)

Lemma broadcast_to_same (n : nat) (v : Row) :
  length v = n → broadcast_to n v = Ok v.
Proof. intros <-. unfold broadcast_to. by rewrite Nat.eqb_refl. Qed.

Lemma fill_candidates_spec (W t : nat) (cands : list Candidate) :
  Forall (λ c, length (feature c) = W) cands →
  ∀ (j : nat) (m : Mat),
    j + t + length cands ≤ length m →
    ∃ m', fill_candidates W t j cands m = Ok m' ∧
          length m' = length m ∧
          (∀ k, k < j + t → m' !! k = m !! k) ∧
          (∀ j' c, cands !! j' = Some c → m' !! (j + j' + t) = Some (feature c)).
Proof.
  induction 1 as [|c cands Hc _ IH]; intros j m Hlen; simpl in *.
  - exists m. split_and!; [done | done | done |]. by intros j' c.
  - rewrite (broadcast_to_same _ _ Hc). simpl.
    assert ((j + t <? length m) = true) as -> by (apply Nat.ltb_lt; lia).
    destruct (IH (S j) (<[j + t := feature c]> m)) as (m' & Hm' & Hl & Hlow & Hrow).
    { rewrite length_insert. lia. }
    rewrite length_insert in Hl.
    exists m'. split_and!; [done | done | |].
    + intros k Hk. rewrite Hlow by lia. apply list_lookup_insert_ne. lia.
    + intros [|j'] c' Hj'; simpl in Hj'.
      * injection Hj' as <-. rewrite Nat.add_0_r, Hlow by lia.
        apply list_lookup_insert_eq. lia.
      * rewrite <- (Hrow j' c' Hj'). f_equal. lia.
Qed.

Lemma history_rows_spec (fs afs t R : nat) (bank : Mat) (a : Row) :
  0 < t → 0 < afs → t < R → t ≤ length bank →
  Forall (λ row : Row, length row = fs + afs) bank →
  length a = afs →
  let m := history_rows fs afs t bank a (zeros2 R (fs + afs)) in
  length m = R ∧
  (∀ k, k < t - 1 → m !! k = bank !! k) ∧
  ∃ v, bank !! (t - 1) = Some v ∧ m !! (t - 1) = Some (take fs v ++ a).
Proof.
  intros Ht Hafs HR Hbank Hwidth Ha m.
  destruct (lookup_lt_is_Some_2 bank (t - 1)) as [v Hv]; [lia|].
  assert (length v = fs + afs) as Hlv.
  { rewrite Forall_forall in Hwidth. apply Hwidth.
    by eapply list_elem_of_lookup_2. }
  assert (length (take (t - 1) bank) = t - 1) as Htake.
  { rewrite length_take. lia. }
  subst m. unfold history_rows. rewrite Hv. simpl.
  assert ((afs =? 0) = false) as -> by (apply Nat.eqb_neq; lia).
  split_and!.
  - rewrite !length_alter, length_app, Htake, length_drop.
    unfold zeros2. rewrite length_replicate. lia.
  - intros k Hk.
    rewrite !list_lookup_alter_ne by lia.
    rewrite lookup_app_l by (rewrite Htake; lia). apply lookup_take_lt. lia.
  - exists v. split; [done|].
    rewrite !list_lookup_alter_eq.
    rewrite lookup_app_r by (rewrite Htake; lia). rewrite Htake, Nat.sub_diag.
    rewrite lookup_drop, Nat.add_0_r. unfold zeros2.
    rewrite lookup_replicate_2 by lia. simpl. f_equal.
    unfold set_cols. simpl.
    assert (length (take fs v) = fs) as Hfs by (rewrite length_take; lia).
    rewrite Hfs, Ha.
    rewrite take_app_length' by done.
    rewrite drop_app_add' by done.
    rewrite drop_drop, drop_ge; [by rewrite app_nil_r|].
    rewrite length_replicate. lia.
Qed.

Lemma forallb_Forall_rows (W : nat) (m : Mat) :
  forallb (λ row : Row, length row =? W) m = true →
  Forall (λ row : Row, length row = W) m.
Proof.
  rewrite forallb_forall, Forall_forall. intros H row Hrow.
  apply Nat.eqb_eq, H. by apply list_elem_of_In.
Qed.

Lemma candidate_leng_bound (t : nat) (obs : list Observation) (i : nat)
    (ob : Observation) :
  obs !! i = Some ob →
  length (candidate ob) + 1 + t ≤ max_list (candidate_leng_of t obs).
Proof.
  intros Hob. apply max_list_elem_of_le. unfold candidate_leng_of.
  apply list_elem_of_fmap. exists ob. split; [done|].
  by eapply list_elem_of_lookup_2.
Qed.

(** C1, as the code has it. For [t > 0] the tensor of
    [_candidate_variable] has, per batch item, its rows [0 .. t-2] copied
    from the memory bank; row [t-1] has its first [feature_size] columns
    from the memory bank's row [t-1] and its last [angle_feat_size] columns
    from the current action angle feature [input_a_t]; candidate [j] of the
    current observation is at row [j + t]. *)
Theorem candidate_variable_rows (args : Args) (obs : list Observation)
    (t : nat) (vis_taj : Tensor3) (input_a_t : Mat) :
  let fs := feature_size args in
  let afs := angle_feat_size args in
  0 < t → obs ≠ [] → 0 < afs →
  bank_shape_ok (length obs) t (fs + afs) vis_taj = true →
  action_shape_ok (length obs) afs input_a_t = true →
  Forall (λ ob, Forall (λ c, length (feature c) = fs + afs) (candidate ob)) obs →
  ∃ cf,
    _candidate_variable args obs t vis_taj input_a_t
    = Ok (cf, candidate_leng_of t obs) ∧
    ∀ i ob bank a,
      obs !! i = Some ob → vis_taj !! i = Some bank → input_a_t !! i = Some a →
      ∃ m, cf !! i = Some m ∧
           (∀ k, k < t - 1 → m !! k = bank !! k) ∧
           (∃ v, bank !! (t - 1) = Some v ∧ m !! (t - 1) = Some (take fs v ++ a)) ∧
           (∀ j c, candidate ob !! j = Some c → m !! (j + t) = Some (feature c)).
Proof.
  intros fs afs Ht Hobs Hafs Hbank Haction Hfeat.
  unfold _candidate_variable. fold fs afs.
  destruct obs as [|ob0 obs']; [done|]. set (obs := ob0 :: obs') in *.
  assert ((0 <? t) = true) as -> by (by apply Nat.ltb_lt).
  rewrite Hbank, Haction.
  assert ((0 <? afs) || (fs =? 0) = true) as ->.
  { apply orb_true_iff. left. by apply Nat.ltb_lt. }
  simpl andb. cbv iota.
  set (R := max_list (candidate_leng_of t obs)).
  set (cf1 := zip_with _ (zeros3 (length obs) R (fs + afs)) (zip vis_taj input_a_t)).
  apply andb_true_iff in Hbank as [Hb Hbank]. apply Nat.eqb_eq in Hb.
  apply andb_true_iff in Haction as [Ha Haction]. apply Nat.eqb_eq in Ha.
  rewrite forallb_forall in Hbank, Haction.
  (* every item of [cf1] is [history_rows] of its bank and angle feature *)
  assert (∀ i ob bank a,
    obs !! i = Some ob → vis_taj !! i = Some bank → input_a_t !! i = Some a →
    cf1 !! i = Some (history_rows fs afs t bank a (zeros2 R (fs + afs)))
    ∧ t < R ∧ t ≤ length bank
    ∧ Forall (λ row : Row, length row = fs + afs) bank ∧ length a = afs)
    as Hitem.
  { intros i ob bank a Hob Hbk Hai. split_and!.
    - subst cf1. rewrite lookup_zip_with. unfold zeros3.
      rewrite lookup_replicate_2 by (by eapply lookup_lt_Some).
      simpl. rewrite lookup_zip_with, Hbk. simpl. by rewrite Hai.
    - pose proof (candidate_leng_bound t obs i ob Hob). subst R. lia.
    - specialize (Hbank bank). rewrite andb_true_iff in Hbank.
      apply Nat.leb_le, Hbank, list_elem_of_In. by eapply list_elem_of_lookup_2.
    - specialize (Hbank bank). rewrite andb_true_iff in Hbank.
      apply forallb_Forall_rows, Hbank, list_elem_of_In.
      by eapply list_elem_of_lookup_2.
    - apply Nat.eqb_eq, Haction, list_elem_of_In. by eapply list_elem_of_lookup_2. }
  assert (∀ i ob, obs !! i = Some ob →
    ∃ bank a, vis_taj !! i = Some bank ∧ input_a_t !! i = Some a) as Hrows.
  { intros i ob Hob. apply lookup_lt_Some in Hob.
    destruct (lookup_lt_is_Some_2 vis_taj i) as [bank Hbk]; [lia|].
    destruct (lookup_lt_is_Some_2 input_a_t i) as [a Hai]; [lia|]. eauto. }
  destruct (mapM_is_Ok
    (λ '(ob, m), fill_candidates (fs + afs) t 0 (candidate ob) m) (zip obs cf1))
    as [cf Hcf].
  { apply Forall_lookup_2. intros i [ob m] Him.
    apply lookup_zip_with_Some in Him as (ob' & m' & [= <- <-] & Hob & Hm).
    destruct (Hrows i ob Hob) as (bank & a & Hbk & Hai).
    destruct (Hitem i ob bank a Hob Hbk Hai) as (Hm' & HR & Hlb & Hw & Hla).
    rewrite Hm' in Hm. injection Hm as <-.
    destruct (history_rows_spec fs afs t R bank a Ht Hafs HR Hlb Hw Hla)
      as (Hlen & _).
    destruct (fill_candidates_spec (fs + afs) t (candidate ob)) with
      (j := 0) (m := history_rows fs afs t bank a (zeros2 R (fs + afs)))
      as (m' & Hm'' & _).
    - rewrite Forall_forall in Hfeat. apply Hfeat.
      by eapply list_elem_of_lookup_2.
    - rewrite Hlen. pose proof (candidate_leng_bound t obs i ob Hob).
      subst R. lia.
    - by exists m'. }
  exists cf. split; [apply bind_Ok; exists cf1; split; [done|]; by rewrite Hcf|].
  intros i ob bank a Hob Hbk Hai.
  destruct (Hitem i ob bank a Hob Hbk Hai) as (Hm' & HR & Hlb & Hw & Hla).
  destruct (history_rows_spec fs afs t R bank a Ht Hafs HR Hlb Hw Hla)
    as (Hlen & Hlow & v & Hv & Hlast).
  apply mapM_Ok in Hcf.
  destruct (Forall2_lookup_l _ _ _ i
    (ob, history_rows fs afs t bank a (zeros2 R (fs + afs))) Hcf)
    as (m & Hm & Hfill).
  { rewrite lookup_zip_with, Hob. simpl. by rewrite Hm'. }
  simpl in Hfill.
  destruct (fill_candidates_spec (fs + afs) t (candidate ob)) with
    (j := 0) (m := history_rows fs afs t bank a (zeros2 R (fs + afs)))
    as (m' & Hm'' & _ & Hkeep & Hcand).
  { rewrite Forall_forall in Hfeat. apply Hfeat.
    by eapply list_elem_of_lookup_2. }
  { rewrite Hlen. pose proof (candidate_leng_bound t obs i ob Hob).
    subst R. lia. }
  rewrite Hfill in Hm''. injection Hm'' as <-.
  exists m. split_and!; [done | | |].
  - intros k Hk. rewrite Hkeep by lia. by apply Hlow.
  - exists v. split; [done|]. rewrite Hkeep by lia. done.
  - intros j c Hj. by apply (Hcand j c).
Qed.

Example candidate_variable_small :
  _candidate_variable small_args [small_obs] 2 small_bank small_action
  = Ok ([[[1; 2; 3]; [4; 5; 9]; [7; 8; 9]; [0; 0; 0]]]%Q, [4]).
Proof. reflexivity. Qed.

Lemma candidate_variable_rows_witness :
  ∃ cf m,
    _candidate_variable small_args [small_obs] 2 small_bank small_action
    = Ok (cf, [4]) ∧
    cf !! 0 = Some m ∧
    m !! 0 = Some [1; 2; 3]%Q ∧ m !! 1 = Some [4; 5; 9]%Q ∧
    m !! 2 = Some [7; 8; 9]%Q.
Proof.
  destruct (candidate_variable_rows small_args [small_obs] 2 small_bank small_action)
    as (cf & Hcf & Hrows);
    [simpl; lia | discriminate | simpl; lia | reflexivity | reflexivity
    | repeat constructor |].
  destruct (Hrows 0 small_obs [[1; 2; 3]; [4; 5; 6]; [0; 0; 0]]%Q [9]%Q)
    as (m & Hm & Hlow & (v & Hv & Hlast) & Hcand);
    [reflexivity | reflexivity | reflexivity |].
  exists cf, m. split_and!; [done | done | | |].
  - rewrite (Hlow 0) by (simpl; lia). reflexivity.
  - injection Hv as <-. exact Hlast.
  - apply (Hcand 0 {| viewpointId := "a"; pointId := 0; idx := 0;
                      feature := [7; 8; 9]%Q |}). reflexivity.
Defined.

(** The claim as the spec words it has all of the first [t] rows copied
    from the memory bank. At [t = 2] row 1 of the tensor is [4; 5; 9]
    where the memory bank has [4; 5; 6]: its angle column is the current
    action angle feature. *)
Lemma candidate_variable_last_row_counterexample :
  ¬ (∀ (args : Args) (obs : list Observation) (t : nat) (vis_taj : Tensor3)
       (input_a_t : Mat) (cf : Tensor3) (leng : list nat) (i k : nat)
       (bank m : Mat),
       0 < t →
       _candidate_variable args obs t vis_taj input_a_t = Ok (cf, leng) →
       vis_taj !! i = Some bank → cf !! i = Some m →
       k < t → m !! k = bank !! k).
Proof.
  intros H.
  specialize (H small_args [small_obs] 2 small_bank small_action _ _ 0 1 _ _
                ltac:(lia) candidate_variable_small eq_refl eq_refl ltac:(lia)).
  discriminate H.
Qed.

(** ** Teacher oracle *)

Lemma teacher_action_item_first (ignore : Z) (ob : Observation) (k : nat) (c : Candidate) :
  candidate ob !! k = Some c →
  viewpointId c = teacher ob →
  (∀ j c', j < k → candidate ob !! j = Some c' → viewpointId c' ≠ teacher ob) →
  teacher_action_item ignore false ob = Z.of_nat k.
Proof.
  intros Hk Hc Hfirst. unfold teacher_action_item.
  destruct (list_find _ _) as [[k' c']|] eqn:Hfind.
  - apply list_find_Some in Hfind as (Hk' & Hc' & Hmin).
    destruct (decide (k' = k)) as [->|Hne]; [done|].
    destruct (decide (k' < k)) as [Hlt|Hge].
    + by destruct (Hfirst k' c' Hlt Hk').
    + destruct (Hmin k c Hk); [lia | done].
  - apply list_find_None in Hfind.
    rewrite Forall_forall in Hfind.
    destruct (Hfind c); [by eapply list_elem_of_lookup_2 | done].
Qed.

Lemma teacher_action_item_none (ignore : Z) (ob : Observation) :
  (∀ c, c ∈ candidate ob → viewpointId c ≠ teacher ob) →
  teacher_action_item ignore false ob = Z.of_nat (length (candidate ob)).
Proof.
  intros Hnone. unfold teacher_action_item.
  destruct (list_find _ _) as [[k c]|] eqn:Hfind; [|done].
  apply list_find_Some in Hfind as (Hk & Hc & _).
  destruct (Hnone c); [by eapply list_elem_of_lookup_2 | done].
Qed.

(** C4. [_teacher_action] gives an ended item the ignore index; an item
    that has not ended gets the index of the first candidate whose
    viewpoint is the teacher's next viewpoint, and the number of candidates
    (the stop slot) when no candidate has it. *)
Theorem teacher_action_spec (args : Args) (obs : list Observation)
    (ended : list bool) (i : nat) (ob : Observation) (e : bool) :
  length obs ≤ length ended →
  obs !! i = Some ob →
  ended !! i = Some e →
  ∃ a a_i,
    _teacher_action args obs ended = Ok a ∧ a !! i = Some a_i ∧
    (e = true → a_i = ignoreid args) ∧
    (e = false →
       ∀ k c, candidate ob !! k = Some c →
              viewpointId c = teacher ob →
              (∀ j c', j < k → candidate ob !! j = Some c' →
                       viewpointId c' ≠ teacher ob) →
              a_i = Z.of_nat k) ∧
    (e = false →
       (∀ c, c ∈ candidate ob → viewpointId c ≠ teacher ob) →
       a_i = Z.of_nat (length (candidate ob))).
Proof.
  intros Hlen Hob He.
  destruct (mapM_is_Ok
    (λ '(j, ob'), e' ← at_index ended j;
                  Ok (teacher_action_item (ignoreid args) e' ob'))
    (enumerate obs)) as [a Ha].
  { apply Forall_lookup_2. intros j [j' ob'] Hj.
    rewrite enumerate_lookup in Hj.
    apply fmap_Some in Hj as (ob'' & Hobj & [= -> ->]).
    destruct (lookup_lt_is_Some_2 ended j) as [e' He'].
    { apply lookup_lt_Some in Hobj. lia. }
    exists (teacher_action_item (ignoreid args) e' ob'').
    unfold at_index. by rewrite He'. }
  pose proof Ha as Hall. apply mapM_Ok in Hall.
  destruct (Forall2_lookup_l _ _ _ i (i, ob) Hall) as (a_i & Hai & Hf).
  { by rewrite enumerate_lookup, Hob. }
  simpl in Hf. unfold at_index in Hf. rewrite He in Hf. simpl in Hf.
  injection Hf as <-.
  exists a, (teacher_action_item (ignoreid args) e ob).
  split_and!; [done | done | by intros -> | |].
  - intros -> k c. apply teacher_action_item_first.
  - intros ->. apply teacher_action_item_none.
Qed.

Example teacher_action_second_of_three :
  _teacher_action toy_args [obs_with_teacher "v"] [false] = Ok [1%Z].
Proof. reflexivity. Qed.

Example teacher_action_no_match :
  _teacher_action toy_args [obs_with_teacher "here"] [false] = Ok [3%Z].
Proof. reflexivity. Qed.

Example teacher_action_ended :
  _teacher_action toy_args [obs_with_teacher "v"] [true] = Ok [(-100)%Z].
Proof. reflexivity. Qed.

Lemma teacher_action_spec_witness :
  ∃ a a_i,
    _teacher_action toy_args [obs_with_teacher "v"] [false] = Ok a ∧
    a !! 0 = Some a_i ∧ a_i = 1%Z.
Proof.
  destruct (teacher_action_spec toy_args [obs_with_teacher "v"] [false] 0
              (obs_with_teacher "v") false)
    as (a & a_i & Ha & Hi & _ & Hfirst & _);
    [simpl; lia | reflexivity | reflexivity |].
  exists a, a_i. split_and!; [done | done |].
  apply (Hfirst eq_refl 1 {| viewpointId := "v"; pointId := 1; idx := 1; feature := [] |});
    [reflexivity | reflexivity |].
  intros [|j] c' Hj Hc'; [|lia]. by injection Hc' as <-.
Defined.

(** ** The stop slot *)

Lemma valid_prefix_count (l M s : nat) :
  length (filter (λ b : bool, b = false) ((λ j, l <=? j) <$> seq s M))
  = M `min` (l - s).
Proof.
  revert s. induction M as [|M IH]; intros s; [done|].
  change (seq s (S M)) with (s :: seq (S s) M).
  rewrite fmap_cons, filter_cons.
  destruct (decide _) as [Hlt|Hge]; [rewrite length_cons|]; rewrite IH.
  - apply Nat.leb_gt in Hlt. lia.
  - apply not_false_is_true, Nat.leb_le in Hge. lia.
Qed.

Lemma length2mask_lookup (length : list nat) (i l : nat) :
  length !! i = Some l →
  length2mask length !! i = Some ((λ j, l <=? j) <$> seq 0 (max_list length)).
Proof. intros H. unfold length2mask. by rewrite list_lookup_fmap, H. Qed.

Lemma commit_actions_stop (args : Args) (t : nat) (candidate_leng : list nat)
    (ended : list bool) (visn_output : Tensor3) (todo : list (nat * Z)) :
  ∀ (vis_taj vis_taj' : Tensor3) (acts : list Z),
    commit_actions args t candidate_leng ended visn_output todo vis_taj
    = Ok (acts, vis_taj') →
    Forall2 (λ '(i, next_id) a,
               (∀ leng_i, candidate_leng !! i = Some leng_i →
                          stops args t leng_i next_id = true → a = (-1)%Z)
               ∧ (ended !! i = Some true → a = (-1)%Z)
               ∧ (a = (-1)%Z ∨ a = next_id))
            todo acts.
Proof.
  induction todo as [|[i next_id] todo IH]; intros vis_taj vis_taj' acts H;
    simpl in H.
  - injection H as <- _. constructor.
  - bind_inv H as [a vis1] Ha. bind_inv H as [acts' vis2] Hacts.
    injection H as <- _.
    constructor; [|by eapply IH].
    unfold commit_action in Ha.
    bind_inv Ha as leng_i Hleng. apply at_index_Ok in Hleng.
    destruct (stops args t leng_i next_id) eqn:Hstop.
    { injection Ha as <- _. split_and!; [done | done | by left]. }
    bind_inv Ha as e He. apply at_index_Ok in He.
    destruct e.
    { injection Ha as <- _. split_and!; [done | done | by left]. }
    bind_inv Ha as out_i Hout. bind_inv Ha as src Hsrc.
    bind_inv Ha as bank Hbank. bind_inv Ha as old Hold.
    bind_inv Ha as src' Hsrc'. injection Ha as <- _.
    split_and!; [| |by right].
    + intros leng_i' Hleng'. rewrite Hleng in Hleng'.
      injection Hleng' as <-. by rewrite Hstop.
    + intros He'. by rewrite He in He'.
Qed.

(** The lengths [rollout] masks with are those of the current candidates. *)
Lemma candidate_variable_leng (args : Args) (obs : list Observation) (t : nat)
    (vis_taj : Tensor3) (input_a_t : Mat) (cf : Tensor3) (leng : list nat) :
  _candidate_variable args obs t vis_taj input_a_t = Ok (cf, leng) →
  leng = candidate_leng_of t obs.
Proof.
  unfold _candidate_variable. destruct obs as [|ob obs]; [done|]. intros H.
  bind_inv H as cf1 Hcf1. bind_inv H as cf2 Hcf2. by injection H as _ <-.
Qed.

Lemma get_input_feat_leng (C : Collaborators) (args : Args)
    (obs : list Observation) (t : nat) (vis_taj : Tensor3) (input_a_t : Mat)
    (cf : Tensor3) (leng : list nat) :
  get_input_feat C args obs t vis_taj = Ok (input_a_t, cf, leng) →
  leng = candidate_leng_of t obs.
Proof.
  unfold get_input_feat. intros H.
  bind_inv H as a Ha. bind_inv H as [cf' leng'] Hcv. injection H as _ _ <-.
  by eapply candidate_variable_leng.
Qed.

(** C5. At timestep [t] the action-index space of an item has size
    [n + 1], where [n] is the number of its real candidates: that is the
    length [rollout] hands to the mask of the logits, and the mask leaves
    exactly the indices [0 .. n] valid. [rollout] turns the index
    [(n + 1) - 1], the last slot of the candidate list with its stop
    appended, into -1 before the actuator sees it. *)
Theorem stop_slot_spec (args : Args) (t : nat) (obs : list Observation)
    (i : nat) (ob : Observation) :
  obs !! i = Some ob →
  let n := length (candidate ob) in
  ((λ l, l - t) <$> candidate_leng_of t obs) !! i = Some (n + 1) ∧
  (∃ row, candidate_mask t (candidate_leng_of t obs) !! i = Some row ∧
          length (filter (λ b : bool, b = false) row) = n + 1 ∧
          ∀ j, row !! j = Some false ↔ j ≤ n) ∧
  (∀ (ended : list bool) (visn_output vis_taj vis_taj' : Tensor3)
     (cpu_a_t acts : list Z),
     cpu_a_t !! i = Some (Z.of_nat (n + 1) - 1)%Z →
     commit_actions args t (candidate_leng_of t obs) ended visn_output
       (enumerate cpu_a_t) vis_taj = Ok (acts, vis_taj') →
     acts !! i = Some (-1)%Z).
Proof.
  intros Hob n.
  set (L := (λ l, l - t) <$> candidate_leng_of t obs).
  assert (L !! i = Some (n + 1)) as HL.
  { subst L. unfold candidate_leng_of.
    rewrite !list_lookup_fmap, Hob. simpl. f_equal. lia. }
  split_and!; [done | |].
  - assert (n + 1 ≤ max_list L) as Hmax.
    { apply max_list_elem_of_le. by eapply list_elem_of_lookup_2. }
    eexists. split; [apply (length2mask_lookup L i (n + 1) HL)|]. split.
    + rewrite valid_prefix_count. lia.
    + intros j. rewrite list_lookup_fmap. split.
      * intros Hj. apply fmap_Some in Hj as (j' & Hj' & Hle).
        apply lookup_seq in Hj' as [-> _]. symmetry in Hle.
        apply Nat.leb_gt in Hle. lia.
      * intros Hj. rewrite lookup_seq_lt by lia. simpl. f_equal.
        apply Nat.leb_gt. lia.
  - intros ended visn_output vis_taj vis_taj' cpu_a_t acts Ha Hcommit.
    apply commit_actions_stop in Hcommit.
    destruct (Forall2_lookup_l _ _ _ i (i, (Z.of_nat (n + 1) - 1)%Z) Hcommit)
      as (a & Hai & Hstop & _).
    { by rewrite enumerate_lookup, Ha. }
    rewrite Hai. f_equal. apply (Hstop (n + 1 + t)).
    + unfold candidate_leng_of. by rewrite list_lookup_fmap, Hob.
    + unfold stops. apply orb_true_iff. left. apply Z.eqb_eq. lia.
Qed.

Example stop_slot_of_three :
  candidate_mask 2 (candidate_leng_of 2 [obs_with_teacher "v"])
  = [[false; false; false; false]] ∧
  commit_actions toy_args 2 (candidate_leng_of 2 [obs_with_teacher "v"])
    [false] [] (enumerate [3%Z]) [] = Ok ([(-1)%Z], []).
Proof. split; reflexivity. Qed.

Lemma stop_slot_spec_witness :
  ∃ row,
    candidate_mask 2 (candidate_leng_of 2 [obs_with_teacher "v"]) !! 0 = Some row ∧
    length (filter (λ b : bool, b = false) row) = 3 + 1.
Proof.
  destruct (stop_slot_spec toy_args 2 [obs_with_teacher "v"] 0
              (obs_with_teacher "v") eq_refl)
    as (_ & (row & Hrow & Hcount & _) & _).
  by exists row.
Defined.

(** ** Reward shaper *)

Lemma Qltb_lt (x y : Q) : Qltb x y = true ↔ (x < y)%Q.
Proof.
  unfold Qltb. rewrite negb_true_iff, <- not_true_iff_false, Qle_bool_iff.
  split; [apply Qnot_le_lt | apply Qlt_not_le].
Qed.

Lemma Qltb_ge (x y : Q) : Qltb x y = false ↔ (y <= x)%Q.
Proof. unfold Qltb. by rewrite negb_false_iff, Qle_bool_iff. Qed.

Lemma not_stop_eqb (a : Z) : a ≠ (-1)%Z → (a =? -1)%Z = false.
Proof. intros. by apply Z.eqb_neq. Qed.

(** An item that has not ended gets the reward and mask of
    [shaped_reward] on its action, distances and similarity scores. *)
Lemma reward_item_not_ended (C : Collaborators) (batch_size : nat)
    (traj : list Traj) (ended : list bool) (cpu_a_t : list Z)
    (last_dist last_ndtw : list Q) (i : nat) (ob : Observation) (tr : Traj)
    (a : Z) (d n : Q) :
  i < batch_size → traj !! i = Some tr → ended !! i = Some false →
  cpu_a_t !! i = Some a → last_dist !! i = Some d → last_ndtw !! i = Some n →
  let score := ndtw C (scan ob) ((λ vp : string * Q * Q, vp.1.1) <$> path tr)
                 (gt_path ob) in
  reward_item C batch_size traj ended cpu_a_t last_dist last_ndtw i ob
  = (λ rm : Q * Q, (distance ob, score, rm.1, rm.2)) <$>
      shaped_reward false a (distance ob) d score n.
Proof.
  intros Hi Htr He Ha Hd Hn score. unfold reward_item, at_index.
  assert ((batch_size <=? i) = false) as -> by (apply Nat.leb_gt; lia).
  rewrite Htr, He, Ha, Hd, Hn. cbn [mbind result_bind]. fold score.
  destruct (a =? -1)%Z eqn:Hstop.
  - unfold shaped_reward. rewrite Hstop. by destruct (Qltb _ _).
  - by destruct (shaped_reward _ _ _ _ _ _) as [[r m]|].
Qed.

(** C3. For an item that has not ended and whose action is stop, the
    reward is [2.0 + 2.0 * similarity] when the distance to the goal is
    below 3.0 and [-2.0] otherwise; distance 2.0 with similarity 0.5 gives
    3.0 and distance 4.0 gives -2.0. The mask is 1. *)
Theorem stop_reward_spec (dist last_dist ndtw_score last_ndtw : Q) :
  ((dist < 3.0)%Q →
     shaped_reward false (-1) dist last_dist ndtw_score last_ndtw
     = Ok (2.0 + ndtw_score * 2.0, 1)%Q
     ∧ (2.0 + ndtw_score * 2.0 == 2.0 + 2.0 * ndtw_score)%Q) ∧
  (¬ (dist < 3.0)%Q →
     shaped_reward false (-1) dist last_dist ndtw_score last_ndtw
     = Ok (- 2.0, 1)%Q) ∧
  (∃ r, shaped_reward false (-1) 2.0 last_dist 0.5 last_ndtw = Ok (r, 1%Q)
        ∧ (r == 3.0)%Q) ∧
  shaped_reward false (-1) 4.0 last_dist ndtw_score last_ndtw = Ok (- 2.0, 1)%Q.
Proof.
  split_and!.
  - intros Hlt. apply Qltb_lt in Hlt. unfold shaped_reward. simpl.
    rewrite Hlt. split; [done | ring].
  - intros Hge. unfold shaped_reward. simpl.
    destruct (Qltb dist 3.0) eqn:Hlt; [|done].
    by apply Qltb_lt in Hlt.
  - eexists. split; [reflexivity | reflexivity].
  - reflexivity.
Qed.

Lemma stop_reward_spec_witness :
  (2.0 < 3.0)%Q ∧
  shaped_reward false (-1) 2.0 5.0 0.5 0.25 = Ok (2.0 + 0.5 * 2.0, 1)%Q.
Proof.
  split; [reflexivity|].
  apply (stop_reward_spec 2.0 5.0 0.5 0.25). reflexivity.
Defined.

(** C2, as the code has it. For an item that has not ended and whose
    action is a move, with [base = -(distance_now - distance_prev)] and
    [delta] the change of the nDTW score: if [base > 0] (the agent moved
    closer) the reward is [1.0 + delta]; if [base < 0] (it moved farther)
    the reward is [-1.0 + delta], less the penalty
    [(1.0 - distance_prev) * 2.0] when [distance_prev <= 1.0]. *)
Theorem move_reward_spec (action_idx : Z) (dist last_dist ndtw_score last_ndtw : Q) :
  action_idx ≠ (-1)%Z →
  let base := (- (dist - last_dist))%Q in
  let delta := (ndtw_score - last_ndtw)%Q in
  ((0.0 < base)%Q →
     shaped_reward false action_idx dist last_dist ndtw_score last_ndtw
     = Ok (1.0 + delta, 1)%Q) ∧
  ((base < 0.0)%Q → ¬ (last_dist <= 1.0)%Q →
     shaped_reward false action_idx dist last_dist ndtw_score last_ndtw
     = Ok (- 1.0 + delta, 1)%Q) ∧
  ((base < 0.0)%Q → (last_dist <= 1.0)%Q →
     shaped_reward false action_idx dist last_dist ndtw_score last_ndtw
     = Ok (- 1.0 + delta - (1.0 - last_dist) * 2.0, 1)%Q).
Proof.
  intros Hmove base delta. unfold shaped_reward.
  rewrite (not_stop_eqb _ Hmove). fold base. fold delta. simpl.
  split_and!.
  - intros Hpos. rewrite (proj2 (Qltb_lt _ _) Hpos). simpl.
    assert (Qltb 0.0 (dist - last_dist) = false) as ->; [|by rewrite andb_false_r].
    apply Qltb_ge. unfold base in Hpos. lra.
  - intros Hneg Hfar.
    assert (Qltb 0.0 base = false) as ->.
    { apply Qltb_ge. lra. }
    rewrite (proj2 (Qltb_lt _ _) Hneg). simpl.
    destruct (Qle_bool last_dist 1.0) eqn:Hle; [|done].
    by apply Qle_bool_iff in Hle.
  - intros Hneg Hnear.
    assert (Qltb 0.0 base = false) as ->.
    { apply Qltb_ge. lra. }
    rewrite (proj2 (Qltb_lt _ _) Hneg). simpl.
    rewrite (proj2 (Qle_bool_iff _ _) Hnear). simpl.
    assert (Qltb 0.0 (dist - last_dist) = true) as ->; [|done].
    apply Qltb_lt. unfold base in Hneg. lra.
Qed.

Lemma move_reward_spec_witness :
  (0.0 < - (3.0 - 5.0))%Q ∧
  shaped_reward false 0 3.0 5.0 0.7 0.5 = Ok (1.0 + (0.7 - 0.5), 1)%Q.
Proof.
  split; [reflexivity|].
  apply (move_reward_spec 0 3.0 5.0 0.7 0.5); [discriminate | reflexivity].
Defined.

(** The claim as the spec words it gives [-1.0 + delta] for [base > 0]:
    from distance 5.0 to distance 3.0 with a similarity change of 0.2 the
    base is positive and the reward is 1.2, not -0.8. *)
Lemma move_reward_sign_counterexample :
  ¬ (∀ (action_idx : Z) (dist last_dist ndtw_score last_ndtw : Q),
       action_idx ≠ (-1)%Z →
       (0.0 < - (dist - last_dist))%Q →
       ∃ r, shaped_reward false action_idx dist last_dist ndtw_score last_ndtw
            = Ok (r, 1%Q)
            ∧ (r == - 1.0 + (ndtw_score - last_ndtw))%Q).
Proof.
  intros H.
  destruct (H 0%Z 3.0 5.0 0.7 0.5)%Q as (r & Hr & Heq);
    [discriminate | reflexivity |].
  vm_compute in Hr. injection Hr as <-. vm_compute in Heq. discriminate.
Qed.

Example move_closer_reward :
  ∃ r, shaped_reward false 0 3.0 5.0 0.7 0.5 = Ok (r, 1%Q) ∧ (r == 1.2)%Q.
Proof. eexists. split; reflexivity. Qed.

(** C6. For an item that has not ended and whose action is a move, a
    distance to the goal equal to the previous one raises [NameError]; any
    other distance yields a reward and the mask 1. *)
Theorem zero_delta_move_is_fatal (action_idx : Z)
    (dist last_dist ndtw_score last_ndtw : Q) :
  action_idx ≠ (-1)%Z →
  ((dist == last_dist)%Q →
     shaped_reward false action_idx dist last_dist ndtw_score last_ndtw
     = Err (NameError "The action doesn't change the move")) ∧
  (¬ (dist == last_dist)%Q →
     ∃ r, shaped_reward false action_idx dist last_dist ndtw_score last_ndtw
          = Ok (r, 1%Q)).
Proof.
  intros Hmove. unfold shaped_reward. rewrite (not_stop_eqb _ Hmove). simpl.
  split.
  - intros Heq.
    assert (Qltb 0.0 (- (dist - last_dist)) = false) as ->.
    { apply Qltb_ge. lra. }
    assert (Qltb (- (dist - last_dist)) 0.0 = false) as ->; [|done].
    apply Qltb_ge. lra.
  - intros Hne.
    destruct (Qltb 0.0 (- (dist - last_dist))) eqn:Hpos; simpl.
    { destruct (_ && _); eauto. }
    destruct (Qltb (- (dist - last_dist)) 0.0) eqn:Hneg; simpl.
    { destruct (_ && _); eauto. }
    destruct Hne. apply Qltb_ge in Hpos, Hneg. lra.
Qed.

Lemma zero_delta_move_is_fatal_witness :
  (4.0 == 4.0)%Q ∧
  shaped_reward false 1 4.0 4.0 0.7 0.5
  = Err (NameError "The action doesn't change the move").
Proof.
  split; [reflexivity|].
  apply (zero_delta_move_is_fatal 1 4.0 4.0 0.7 0.5); [discriminate | reflexivity].
Defined.

(** ** The ended flags *)

Lemma update_ended_mono (ended ended' : list bool) (cpu_a_t : list Z) (i : nat) :
  update_ended ended cpu_a_t = Ok ended' →
  ended !! i = Some true → ended' !! i = Some true.
Proof.
  unfold update_ended. intros H Hi.
  destruct (_ =? _) eqn:Hlen.
  - injection H as <-. apply Nat.eqb_eq in Hlen.
    destruct (lookup_lt_is_Some_2 ((λ a, a =? -1)%Z <$> cpu_a_t) i) as [b Hb].
    { rewrite Hlen. by eapply lookup_lt_Some. }
    by rewrite lookup_zip_with, Hi, Hb.
  - destruct (_ <$> cpu_a_t) as [|b [|]]; [done | | done].
    injection H as <-. by rewrite list_lookup_fmap, Hi.
Qed.

Lemma timestep_update_ended (C : Collaborators) (args : Args) (fb : string)
    (train_rl : bool) (batch_size : nat) (sb : SortedBatch)
    (language_features : Emb C) (att_drop_rate : Q) (t : nat)
    (st st' : LoopState C) :
  timestep C args fb train_rl batch_size sb language_features att_drop_rate t st
  = Ok st' →
  ∃ cpu_a_t, update_ended (ended st) cpu_a_t = Ok (ended st').
Proof.
  unfold timestep. intros H.
  bind_inv H as [[input_a_t cf] leng] Hfeat.
  bind_inv H as inputs Hin.
  destruct (vln_bert_visual C (world st) inputs) as [w [[[h_t vo] logit] dlc]].
  bind_inv H as target Htarget.
  bind_inv H as [[[w1 a_t] plp] ent] Hsel.
  bind_inv H as vt Hwb.
  bind_inv H as [cpu vt2] Hcommit.
  bind_inv H as [w2 traj'] Hact.
  bind_inv H as perm_obs' Hperm.
  bind_inv H as [[[rw mk] ld] ln] Hrew.
  bind_inv H as ended' Hend.
  injection H as <-. by exists cpu.
Qed.

Lemma rollout_loop_ended_mono (C : Collaborators) (args : Args) (fb : string)
    (train_rl : bool) (batch_size : nat) (sb : SortedBatch)
    (language_features : Emb C) (att_drop_rate : Q) (i : nat) (fuel : nat) :
  ∀ (t : nat) (st st' : LoopState C),
    rollout_loop C args fb train_rl batch_size sb language_features
      att_drop_rate fuel t st = Ok st' →
    ended st !! i = Some true → ended st' !! i = Some true.
Proof.
  induction fuel as [|fuel IH]; intros t st st' H Hi; simpl in H.
  - by injection H as <-.
  - bind_inv H as st1 Hstep.
    apply timestep_update_ended in Hstep as [cpu Hcpu].
    pose proof (update_ended_mono _ _ _ i Hcpu Hi) as Hi1.
    destruct (forallb id (ended st1)).
    + by injection H as <-.
    + by eapply IH.
Qed.

(** A run of at most [k'] timesteps goes through the state of the run of
    at most [k] timesteps. *)
Lemma rollout_loop_prefix (C : Collaborators) (args : Args) (fb : string)
    (train_rl : bool) (batch_size : nat) (sb : SortedBatch)
    (language_features : Emb C) (att_drop_rate : Q) (k : nat) :
  ∀ (k' t : nat) (st b : LoopState C),
    k ≤ k' →
    rollout_loop C args fb train_rl batch_size sb language_features
      att_drop_rate k' t st = Ok b →
    ∃ a fuel t',
      rollout_loop C args fb train_rl batch_size sb language_features
        att_drop_rate k t st = Ok a ∧
      rollout_loop C args fb train_rl batch_size sb language_features
        att_drop_rate fuel t' a = Ok b.
Proof.
  induction k as [|k IH]; intros k' t st b Hle H.
  - by exists st, k', t.
  - destruct k' as [|k']; [lia|]. simpl in H |- *.
    bind_inv H as st1 Hstep. rewrite Hstep. simpl.
    destruct (forallb id (ended st1)).
    + injection H as <-. by exists st1, 0, t.
    + apply (IH k'); [lia | done].
Qed.

(** C7. Within one episode the ended flag of an item never goes back:
    if it is set after at most [k] timesteps, it is set after at most [k']
    timesteps for every [k' >= k]. *)
Theorem ended_monotone (C : Collaborators) (args : Args) (fb : string)
    (train_rl : bool) (batch_size : nat) (sb : SortedBatch)
    (language_features : Emb C) (att_drop_rate : Q) (k k' t : nat)
    (st a b : LoopState C) (i : nat) :
  k ≤ k' →
  rollout_loop C args fb train_rl batch_size sb language_features
    att_drop_rate k t st = Ok a →
  rollout_loop C args fb train_rl batch_size sb language_features
    att_drop_rate k' t st = Ok b →
  ended a !! i = Some true →
  ended b !! i = Some true.
Proof.
  intros Hle Ha Hb Hi.
  destruct (rollout_loop_prefix _ _ _ _ _ _ _ _ k k' t st b Hle Hb)
    as (a' & fuel & t' & Ha' & Hrest).
  rewrite Ha in Ha'. injection Ha' as <-.
  by eapply rollout_loop_ended_mono.
Qed.

Lemma ended_monotone_witness :
  ∃ a b : LoopState toy,
    rollout_loop toy toy_args "teacher" false 2 toy_sorted (() : Emb toy) 0.5
      1 0 toy_start = Ok a ∧
    rollout_loop toy toy_args "teacher" false 2 toy_sorted (() : Emb toy) 0.5
      3 0 toy_start = Ok b ∧
    ended a = [false; true] ∧ ended b !! 1 = Some true.
Proof.
  assert (@ended toy <$>
            rollout_loop toy toy_args "teacher" false 2 toy_sorted
              (() : Emb toy) 0.5 1 0 toy_start = Ok [false; true]) as Ha
    by (vm_compute; reflexivity).
  assert (is_Ok_bool
            (rollout_loop toy toy_args "teacher" false 2 toy_sorted
               (() : Emb toy) 0.5 3 0 toy_start) = true) as Hb
    by (vm_compute; reflexivity).
  destruct (rollout_loop toy toy_args "teacher" false 2 toy_sorted
              (() : Emb toy) 0.5 1 0 toy_start) as [a|] eqn:Ea;
    [|discriminate Ha].
  destruct (rollout_loop toy toy_args "teacher" false 2 toy_sorted
              (() : Emb toy) 0.5 3 0 toy_start) as [b|] eqn:Eb;
    [|discriminate Hb].
  injection Ha as Ha.
  exists a, b. split_and!; [done | done | done |].
  apply (ended_monotone toy toy_args "teacher" false 2 toy_sorted
           (() : Emb toy) 0.5 1 3 0 toy_start a b 1);
    [lia | done | done | by rewrite Ha].
Defined.

(** ** Discounted return *)

(** The return that [a2c_backward] accumulates is the recursion
    [return = return*gamma + reward[t]] over the same timesteps. *)
Lemma a2c_backward_return (C : Collaborators) (args : Args) (fb : string)
    (st : LoopState C) (ts : list nat) (w w' : World C)
    (ret ret' : list Q) (rl_loss rl_loss' total total' : Q) :
  a2c_backward C args fb st ts w ret rl_loss total
  = Ok (w', ret', rl_loss', total') →
  discounted_return (gamma args) (rewards st) ts ret = Ok ret'.
Proof.
  revert w ret rl_loss total.
  induction ts as [|t ts IH]; intros w ret rl_loss total H; simpl in *.
  - by injection H as _ <- _ _.
  - bind_inv H as rewards_t Hr. rewrite Hr. simpl.
    bind_inv H as ret1 Hret. rewrite Hret. simpl.
    bind_inv H as mask_ Hmask. bind_inv H as h Hh.
    destruct (critic C w h) as [w1 v_].
    bind_inv H as a_ Ha. bind_inv H as lp Hlp.
    bind_inv H as actor Hactor. bind_inv H as actor' Hactor'.
    bind_inv H as value_err Hv. bind_inv H as rl Hrl.
    by apply IH in H.
Qed.

(** In exact arithmetic: iterating [return = return*gamma + reward[t]] from the last
    timestep to the first over the rewards [1.0, -1.0, 2.0] with gamma 0.9
    and a zero bootstrap value, the return that the actor-critic pass
    holds after [t = 0] is 1.72. *)
Lemma discounted_return_exact (C : Collaborators) (args : Args)
    (fb : string) (st : LoopState C) (w w' : World C) (ret : list Q)
    (rl_loss total : Q) :
  gamma args = 0.9%Q →
  rewards st = one_item_rewards →
  a2c_backward C args fb st (reverse (seq 0 (length (rewards st)))) w [0.0%Q] 0 0
  = Ok (w', ret, rl_loss, total) →
  ∃ r, ret = [r] ∧ (r == 1.72)%Q ∧ (r == 1.0 + 0.9 * (- 1.0 + 0.9 * 2.0))%Q.
Proof.
  intros Hgamma Hrewards H.
  apply a2c_backward_return in H. rewrite Hgamma, Hrewards in H.
  vm_compute in H. injection H as <-.
  eexists. split; [reflexivity|]. split; reflexivity.
Qed.

Lemma discounted_return_exact_toy :
  ∃ (w' : World toy) (r rl_loss total : Q),
    a2c_backward toy toy_args "teacher" one_item_state
      (reverse (seq 0 (length (rewards one_item_state)))) (0 : World toy)
      [0.0%Q] 0 0
    = Ok (w', [r], rl_loss, total) ∧ (r == 1.72)%Q.
Proof.
  destruct (a2c_backward toy toy_args "teacher" one_item_state
              (reverse (seq 0 (length (rewards one_item_state))))
              (0 : World toy) [0.0%Q] 0 0)
    as [[[[w' ret] rl_loss] total]|e] eqn:H; [|vm_compute in H; discriminate].
  destruct (discounted_return_exact toy toy_args "teacher" one_item_state
              (0 : World toy) w' ret rl_loss total eq_refl eq_refl H)
    as (r & -> & Hr & _).
  by exists w', r, rl_loss, total.
Defined.

(** [py_float_0_9] is within half a unit in the last place of 9/10. *)
Lemma py_float_0_9_nearest :
  (0.9 - 2 ^ (-54) <= float_value py_float_0_9 <= 0.9 + 2 ^ (-54))%Q.
Proof. split; vm_compute; discriminate. Qed.

Lemma one_item_rewards32_values :
  Forall2 (Forall2 (λ x q, float_value x == q)%Q)
    one_item_rewards32 one_item_rewards.
Proof. repeat constructor. Qed.

(** C9, as the code computes it. Iterating
    [return = return*gamma + reward[t]] from the last timestep to the
    first over the rewards [1.0, -1.0, 2.0] with gamma 0.9 and a zero
    bootstrap value gives 1.72 in exact arithmetic. On the float32 arrays
    of the source the return after [t = 0] is 14428405 * 2^-23, about
    1.7199999: below 1.72 by less than 2^-23, and one unit in the last
    place below the float32 number nearest to 1.72. *)
Theorem discounted_return_example :
  discounted_return32 py_float_0_9 one_item_rewards32
    (reverse (seq 0 (length one_item_rewards32))) [SpecFloat.S754_zero false]
  = Ok [SpecFloat.S754_finite false 14428405 (-23)] ∧
  (float_value (SpecFloat.S754_finite false 14428405 (-23))
   == 14428405 # 8388608)%Q ∧
  (1.72 - 2 ^ (-23) < 14428405 # 8388608 < 1.72)%Q ∧
  (0 < (14428406 # 8388608) - 1.72 < 1.72 - (14428405 # 8388608))%Q ∧
  ∃ r, discounted_return 0.9 one_item_rewards
         (reverse (seq 0 (length one_item_rewards))) [0.0%Q] = Ok [r] ∧
       (r == 1.72)%Q.
Proof.
  split; [vm_compute; reflexivity|].
  split; [reflexivity|].
  split; [split; vm_compute; reflexivity|].
  split; [split; vm_compute; reflexivity|].
  eexists. split; [vm_compute; reflexivity | reflexivity].
Qed.

(** The claim as the spec words it has the return equal to 1.72 exactly;
    the float32 return of the source on these inputs is another number. *)
Lemma discounted_return_float32_counterexample :
  ¬ (∀ ret,
       discounted_return32 py_float_0_9 one_item_rewards32
         (reverse (seq 0 (length one_item_rewards32)))
         [SpecFloat.S754_zero false] = Ok ret →
       ∃ r, ret = [r] ∧ (float_value r == 1.72)%Q).
Proof.
  intros H.
  destruct (H [SpecFloat.S754_finite false 14428405 (-23)])
    as (r & [= <-] & Hr); [vm_compute; reflexivity|].
  vm_compute in Hr. discriminate Hr.
Qed.

(** ** Feedback modes without reinforcement *)

Lemma timestep_no_rl (C : Collaborators) (args : Args) (fb : string)
    (batch_size : nat) (sb : SortedBatch) (language_features : Emb C)
    (att_drop_rate : Q) (t : nat) (st st' : LoopState C) :
  timestep C args fb false batch_size sb language_features att_drop_rate t st
  = Ok st' →
  rewards st' = rewards st ∧ masks st' = masks st.
Proof.
  unfold timestep. intros H.
  bind_inv H as [[input_a_t cf] leng] Hfeat.
  bind_inv H as inputs Hin.
  destruct (vln_bert_visual C (world st) inputs) as [w [[[h_t vo] logit] dlc]].
  bind_inv H as target Htarget.
  bind_inv H as [[[w1 a_t] plp] ent] Hsel.
  bind_inv H as vt Hwb.
  bind_inv H as [cpu vt2] Hcommit.
  bind_inv H as [w2 traj'] Hact.
  bind_inv H as perm_obs' Hperm.
  bind_inv H as [[[rw mk] ld] ln] Hrew.
  bind_inv H as ended' Hend.
  injection H as <-. simpl. by injection Hrew as <- <- _ _.
Qed.

Lemma rollout_loop_no_rl (C : Collaborators) (args : Args) (fb : string)
    (batch_size : nat) (sb : SortedBatch) (language_features : Emb C)
    (att_drop_rate : Q) (fuel : nat) :
  ∀ (t : nat) (st st' : LoopState C),
    rollout_loop C args fb false batch_size sb language_features
      att_drop_rate fuel t st = Ok st' →
    rewards st' = rewards st ∧ masks st' = masks st.
Proof.
  induction fuel as [|fuel IH]; intros t st st' H; simpl in H.
  - by injection H as <-.
  - bind_inv H as st1 Hstep. apply timestep_no_rl in Hstep as [Hr Hm].
    destruct (forallb id (ended st1)).
    + by injection H as <-.
    + apply IH in H as [Hr' Hm']. split; congruence.
Qed.

Lemma initial_state_lists (C : Collaborators) (episode_len batch_size : nat)
    (w : World C) (perm_obs : list Observation) (st : LoopState C) :
  initial_state C episode_len batch_size w perm_obs = Ok st →
  rewards st = [] ∧ masks st = [].
Proof.
  unfold initial_state. intros H.
  bind_inv H as ld Hld. bind_inv H as ln Hln. by injection H as <-.
Qed.

(** With the reinforcement switch off, a call leaves no rewards, no masks
    and no actor-critic loss. *)
Lemma rollout_run_no_rl (C : Collaborators) (args : Args) (ag : Agent C)
    (train_ml train_dis_l train_dis_c : option Q) (att_drop_rate : Q)
    (train_rl reset : bool) (o : Outcome C) :
  (String.eqb (feedback ag) "teacher" || String.eqb (feedback ag) "argmax"
   || negb train_rl) = true →
  rollout_run C args ag train_ml train_dis_l train_dis_c att_drop_rate
    train_rl reset = Ok o →
  out_rewards o = [] ∧ out_masks o = [] ∧ out_rl_loss o = None.
Proof.
  intros Hoff. unfold rollout_run.
  assert ((if String.eqb (feedback ag) "teacher" || String.eqb (feedback ag) "argmax"
           then false else train_rl) = false) as ->.
  { destruct (String.eqb (feedback ag) "teacher"),
      (String.eqb (feedback ag) "argmax"), train_rl; done. }
  destruct (if reset then _ else _) as [w obs].
  intros H. bind_inv H as sb Hsb. bind_inv H as perm_obs Hperm.
  destruct (vln_bert_language C w _) as [w1 text_embeds].
  destruct (rand_like C w1 _) as [w2 noise].
  destruct (vln_bert_language C w2 _) as [w3 text_embeds_drop].
  bind_inv H as st0 Hst0. bind_inv H as st Hloop.
  apply initial_state_lists in Hst0 as [Hr0 Hm0].
  apply rollout_loop_no_rl in Hloop as [Hr Hm].
  cbn [mbind result_bind] in H.
  bind_inv H as loss1 Hloss1. bind_inv H as loss2 Hloss2.
  bind_inv H as losses' Hlosses. injection H as <-. simpl.
  split_and!; congruence.
Qed.

(** C10. When the feedback mode is 'teacher' or 'argmax', a call of
    [rollout] with [train_rl=True] is the call with [train_rl=False]: the
    same trajectories, loss and world, and no rewards, masks or
    actor-critic loss are computed. *)
Theorem rollout_teacher_argmax_ignores_train_rl (C : Collaborators)
    (args : Args) (ag : Agent C) (train_ml train_dis_l train_dis_c : option Q)
    (att_drop_rate : Q) (reset : bool) :
  feedback ag = "teacher" ∨ feedback ag = "argmax" →
  rollout_run C args ag train_ml train_dis_l train_dis_c att_drop_rate true reset
  = rollout_run C args ag train_ml train_dis_l train_dis_c att_drop_rate false reset
  ∧ rollout C args ag train_ml train_dis_l train_dis_c att_drop_rate true reset
    = rollout C args ag train_ml train_dis_l train_dis_c att_drop_rate false reset
  ∧ ∀ o, rollout_run C args ag train_ml train_dis_l train_dis_c att_drop_rate
           true reset = Ok o →
         out_rewards o = [] ∧ out_masks o = [] ∧ out_rl_loss o = None.
Proof.
  intros Hfb.
  assert (String.eqb (feedback ag) "teacher" || String.eqb (feedback ag) "argmax"
          = true) as Hoff.
  { by destruct Hfb as [-> | ->]. }
  assert (rollout_run C args ag train_ml train_dis_l train_dis_c att_drop_rate
            true reset
          = rollout_run C args ag train_ml train_dis_l train_dis_c att_drop_rate
              false reset) as Heq.
  { unfold rollout_run. by rewrite Hoff. }
  split_and!; [done | unfold rollout; by rewrite Heq |].
  intros o Ho. eapply rollout_run_no_rl; [|done]. by rewrite Hoff.
Qed.

Lemma rollout_teacher_argmax_ignores_train_rl_witness :
  ∃ o : Outcome toy,
    rollout_run toy toy_args (toy_agent "teacher") (Some 1%Q) (Some 1%Q)
      (Some 1%Q) 0.5 true true = Ok o ∧
    rollout_run toy toy_args (toy_agent "teacher") (Some 1%Q) (Some 1%Q)
      (Some 1%Q) 0.5 false true = Ok o ∧
    out_rewards o = [] ∧ out_masks o = [] ∧ out_rl_loss o = None.
Proof.
  destruct (rollout_teacher_argmax_ignores_train_rl toy toy_args
              (toy_agent "teacher") (Some 1%Q) (Some 1%Q) (Some 1%Q) 0.5 true)
    as (Heq & _ & Hno); [by left|].
  assert (is_Ok_bool
            (rollout_run toy toy_args (toy_agent "teacher") (Some 1%Q)
               (Some 1%Q) (Some 1%Q) 0.5 true true) = true) as Hok
    by (vm_compute; reflexivity).
  destruct (rollout_run toy toy_args (toy_agent "teacher") (Some 1%Q)
              (Some 1%Q) (Some 1%Q) 0.5 true true) as [o|] eqn:Ho;
    [|discriminate Hok].
  exists o. split; [reflexivity|]. split; [symmetry; exact Heq|].
  exact (Hno o eq_refl).
Defined.

Example rollout_sample_runs_rl :
  (λ o : Outcome toy,
     (length (out_rewards o), length (out_masks o),
      if out_rl_loss o is Some _ then true else false)) <$>
    rollout_run toy toy_args (toy_agent "sample") None (Some 1%Q) (Some 1%Q)
      0.5 true true
  = Ok (3, 3, true).
Proof. vm_compute. reflexivity. Qed.

(** * Further properties of the code *)

(** * Further properties *)

(** ** Batch preprocessor: lengths, shapes and masks *)

Lemma shape1_Ok (rows : list (list Z)) (width : nat) :
  shape1 rows = Ok width →
  rows ≠ [] ∧ 0 < width ∧ Forall (λ r, length r = width) rows.
Proof.
  destruct rows as [|r rs]; simpl; [done|].
  destruct (forallb _ rs && (0 <? length r)) eqn:H; [|done].
  intros [= <-]. apply andb_true_iff in H as [Hall Hpos].
  apply Nat.ltb_lt in Hpos. rewrite forallb_forall in Hall.
  split_and!; [done | done |]. constructor; [done|].
  apply Forall_forall. intros r' Hr'.
  apply Nat.eqb_eq, Hall. by apply list_elem_of_In.
Qed.

(** X1. The length [_sort_batch] gives an instruction is the position of
    its first padding token; an instruction without padding, and one that
    starts with the padding token, count as the full width. The length is
    never 0 and never more than the width. *)
Theorem seq_length_spec (pad : Z) (row : list Z) :
  row ≠ [] →
  let n := seq_length pad (length row) row in
  (0 < n ≤ length row) ∧
  (∀ k, 0 < k → row !! k = Some pad →
        (∀ j, j < k → row !! j ≠ Some pad) → n = k) ∧
  (pad ∉ row → n = length row) ∧
  (row !! 0 = Some pad → n = length row).
Proof.
  intros Hrow n. subst n. unfold seq_length.
  assert (0 < length row) as Hlen by (destruct row; [done | simpl; lia]).
  destruct (list_find (λ x, x = pad) row) as [[k x]|] eqn:Hfind.
  - apply list_find_Some in Hfind as (Hk & -> & Hmin).
    pose proof (lookup_lt_Some _ _ _ Hk) as Hlt.
    split_and!.
    + destruct k; lia.
    + destruct k; lia.
    + intros k' Hpos Hk' Hfirst.
      destruct (decide (k < k')) as [Hlt'|Hge].
      { by destruct (Hfirst k Hlt' Hk). }
      destruct (decide (k' < k)) as [Hlt''|Hge'].
      { by destruct (Hmin k' pad Hk' Hlt''). }
      assert (k = k') as -> by lia. by destruct k'; [lia|].
    + intros Hnot. destruct Hnot. by eapply list_elem_of_lookup_2.
    + intros H0. destruct k as [|k]; [done|].
      by destruct (Hmin 0 pad H0 ltac:(lia)).
  - apply list_find_None in Hfind. rewrite Forall_forall in Hfind.
    split_and!; [lia | lia | | done | done].
    intros k _ Hk _. destruct (Hfind pad); [|done].
    by eapply list_elem_of_lookup_2.
Qed.

Lemma seq_length_spec_witness :
  seq_length 0 3 [5; 6; 0]%Z = 2 ∧ seq_length 0 3 [0; 6; 7]%Z = 3.
Proof.
  destruct (seq_length_spec 0 [5; 6; 0]%Z ltac:(discriminate)) as (_ & Hk & _ & _).
  destruct (seq_length_spec 0 [0; 6; 7]%Z ltac:(discriminate)) as (_ & _ & _ & H0).
  split.
  - apply (Hk 2); [lia | reflexivity |].
    intros [|[|j]] Hj; [discriminate | discriminate | lia].
  - apply H0. reflexivity.
Defined.

Lemma at_index_all_lookup {A} (l : list A) (perm : list nat) (pl : list A) :
  at_index_all l perm = Ok pl →
  Forall2 (λ i x, l !! i = Some x) perm pl.
Proof.
  intros H. apply mapM_Ok in H. eapply Forall2_impl; [exact H|].
  intros i x Hx. by apply at_index_Ok.
Qed.

(** X2. [_sort_batch] only succeeds on a batch that is not empty and whose
    instruction encodings all have one positive width, and then every
    index of the permutation is a position of the batch. *)
Theorem sort_batch_Ok_inputs (C : Collaborators) (obs : list Observation)
    (sb : SortedBatch) :
  _sort_batch C obs = Ok sb →
  obs ≠ [] ∧
  (∃ width, 0 < width ∧ Forall (λ ob, length (instr_encoding ob) = width) obs) ∧
  Forall (λ i, i < length obs) (perm_idx sb).
Proof.
  unfold _sort_batch. intros H. bind_inv H as width Hshape.
  destruct (torch_sort_descending C _) as [values perm].
  bind_inv H as tensor Htensor. injection H as <-. simpl.
  apply shape1_Ok in Hshape as (Hne & Hpos & Hall).
  split_and!.
  - by destruct obs.
  - exists width. split; [done|]. by rewrite Forall_fmap in Hall.
  - apply at_index_all_lookup in Htensor.
    apply Forall2_Forall_l with (Q := λ i, i < length obs) in Htensor; [done|].
    apply Forall_forall. intros row _ i Hi.
    apply lookup_lt_Some in Hi. by rewrite length_fmap in Hi.
Qed.

Lemma sort_batch_Ok_inputs_witness :
  ∃ sb, _sort_batch toy (toy_obs 0) = Ok sb ∧
        Forall (λ i, i < 2) (perm_idx sb).
Proof.
  destruct (_sort_batch toy (toy_obs 0)) as [sb|] eqn:Hsb; [|discriminate Hsb].
  exists sb. split; [done|].
  by destruct (sort_batch_Ok_inputs toy (toy_obs 0) sb Hsb) as (_ & _ & H).
Defined.

Example sort_batch_empty (C : Collaborators) : _sort_batch C [] = Err ValueError.
Proof. reflexivity. Qed.

(** X3. Row [k] of the sorted sentence tensor is the instruction of the
    observation that [perm_idx[k]] points to; the attention mask has a 1
    exactly where that row has a token other than padding, and the token
    type ids are 0 everywhere, in the shape of the sentence tensor. *)
Theorem sort_batch_rows (C : Collaborators) (obs : list Observation)
    (sb : SortedBatch) :
  _sort_batch C obs = Ok sb →
  Forall2 (λ i row, ∃ ob, obs !! i = Some ob ∧ row = instr_encoding ob)
    (perm_idx sb) (sentence sb) ∧
  Forall2 (Forall2 (λ tok m,
             (tok = padding_idx C → m = 0%Z) ∧ (tok ≠ padding_idx C → m = 1%Z)))
    (sentence sb) (language_attention_mask sb) ∧
  Forall2 (Forall2 (λ _ ty, ty = 0%Z)) (sentence sb) (token_type_ids sb).
Proof.
  unfold _sort_batch. intros H. bind_inv H as width Hshape.
  destruct (torch_sort_descending C _) as [values perm].
  bind_inv H as tensor Htensor. injection H as <-. simpl.
  split_and!.
  - apply at_index_all_lookup in Htensor.
    eapply Forall2_impl; [exact Htensor|]. intros i row Hi. simpl in Hi.
    rewrite list_lookup_fmap in Hi.
    apply fmap_Some in Hi as (ob & Hob & ->). by exists ob.
  - apply Forall2_fmap_r, Forall_Forall2_diag, Forall_forall. intros row _.
    apply Forall2_fmap_r, Forall_Forall2_diag, Forall_forall. intros tok _.
    simpl. case_bool_decide; naive_solver.
  - rewrite <- list_fmap_compose.
    apply Forall2_fmap_r, Forall_Forall2_diag, Forall_forall. intros row _.
    simpl. rewrite <- list_fmap_compose.
    apply Forall2_fmap_r, Forall_Forall2_diag, Forall_forall. by intros tok _.
Qed.

Lemma sort_batch_rows_witness :
  ∃ sb, _sort_batch toy (toy_obs 0) = Ok sb ∧
        Forall2 (λ i row, ∃ ob, toy_obs 0 !! i = Some ob ∧ row = instr_encoding ob)
          (perm_idx sb) (sentence sb).
Proof.
  destruct (_sort_batch toy (toy_obs 0)) as [sb|] eqn:Hsb; [|discriminate Hsb].
  exists sb. split; [reflexivity|].
  by destruct (sort_batch_rows toy (toy_obs 0) sb Hsb) as (H & _).
Defined.

(** ** Candidate feature builder: shape and padding *)

Lemma broadcast_to_width (n : nat) (v f : Row) :
  broadcast_to n v = Ok f → length f = n.
Proof.
  unfold broadcast_to. destruct (length v =? n) eqn:Hn.
  - intros [= <-]. by apply Nat.eqb_eq.
  - destruct v as [|x [|]]; [done | | done].
    intros [= <-]. by rewrite length_replicate.
Qed.

Lemma set_cols_length (start : nat) (src dst : Row) :
  start + length src ≤ length dst →
  length (set_cols start src dst) = length dst.
Proof.
  intros H. unfold set_cols.
  rewrite !length_app, length_take, length_drop. lia.
Qed.

Lemma fill_candidates_shape (W t : nat) (cands : list Candidate) :
  ∀ (j : nat) (m m' : Mat),
    fill_candidates W t j cands m = Ok m' →
    length m' = length m ∧
    (Forall (λ row : Row, length row = W) m →
     Forall (λ row : Row, length row = W) m') ∧
    (∀ k, j + t + length cands ≤ k → m' !! k = m !! k).
Proof.
  induction cands as [|c cands IH]; intros j m m' H; simpl in H.
  - by injection H as <-.
  - bind_inv H as f Hf. apply broadcast_to_width in Hf.
    destruct (j + t <? length m) eqn:Hlt; [|done].
    apply IH in H as (Hlen & Hwidth & Habove).
    rewrite length_insert in Hlen. split_and!; [done | |].
    + intros Hm. apply Hwidth. by apply Forall_insert.
    + intros k Hk. simpl in Hk. rewrite Habove by lia.
      apply list_lookup_insert_ne. lia.
Qed.

Lemma history_rows_shape (fs afs t : nat) (bank : Mat) (a : Row) (m : Mat) :
  0 < t → t ≤ length bank → t ≤ length m →
  Forall (λ row : Row, length row = fs + afs) bank →
  Forall (λ row : Row, length row = fs + afs) m →
  length a = afs → (0 < afs ∨ fs = 0) →
  length (history_rows fs afs t bank a m) = length m ∧
  Forall (λ row : Row, length row = fs + afs) (history_rows fs afs t bank a m).
Proof.
  intros Ht Hbank Hm Hwb Hwm Ha Hafs. unfold history_rows.
  destruct (lookup_lt_is_Some_2 bank (t - 1)) as [v Hv]; [lia|].
  rewrite Hv. simpl.
  assert (length v = fs + afs) as Hlv.
  { rewrite Forall_forall in Hwb. apply Hwb. by eapply list_elem_of_lookup_2. }
  split.
  - rewrite !length_alter, length_app, length_take, length_drop. lia.
  - apply Forall_alter; [apply Forall_alter|].
    + apply Forall_app. split; [by apply Forall_take | by apply Forall_drop].
    + intros row _ Hrow. rewrite set_cols_length; [done|].
      rewrite length_take. lia.
    + intros row _ Hrow. rewrite set_cols_length; [done|].
      destruct (afs =? 0) eqn:H0.
      * apply Nat.eqb_eq in H0. lia.
      * lia.
Qed.

Lemma forallb_bank_rows (t W : nat) (vis_taj : Tensor3) (i : nat) (bank : Mat) :
  forallb (λ m : Mat,
     (t <=? length m) && forallb (λ row : Row, length row =? W) m) vis_taj = true →
  vis_taj !! i = Some bank →
  t ≤ length bank ∧ Forall (λ row : Row, length row = W) bank.
Proof.
  rewrite forallb_forall. intros H Hi.
  specialize (H bank). rewrite andb_true_iff in H.
  destruct H as [Hlen Hrows]; [apply list_elem_of_In; by eapply list_elem_of_lookup_2|].
  split; [by apply Nat.leb_le | by apply forallb_Forall_rows].
Qed.

(** X4. Whatever the timestep, a tensor that [_candidate_variable] returns
    has one block per observation, each block has as many rows as the
    longest candidate list of the batch plus the stop slot plus [t], and
    every row has [feature_size + angle_feat_size] columns; the lengths it
    returns with it are [len(candidates) + 1 + t] per observation. *)
Theorem candidate_variable_shape (args : Args) (obs : list Observation)
    (t : nat) (vis_taj : Tensor3) (input_a_t : Mat) (cf : Tensor3)
    (leng : list nat) :
  _candidate_variable args obs t vis_taj input_a_t = Ok (cf, leng) →
  leng = (λ ob, length (candidate ob) + 1 + t) <$> obs ∧
  length cf = length obs ∧
  Forall (λ m : Mat,
            length m = max_list leng ∧
            Forall (λ row : Row,
                      length row = feature_size args + angle_feat_size args) m)
    cf.
Proof.
  intros H. pose proof (candidate_variable_leng _ _ _ _ _ _ _ H) as ->.
  split; [done|]. revert H. unfold _candidate_variable.
  set (fs := feature_size args). set (afs := angle_feat_size args).
  set (R := max_list (candidate_leng_of t obs)).
  intros H.
  assert (obs ≠ []) as Hobs by (by destruct obs).
  assert (∀ {A} (x : result A), match obs with [] => Err ValueError | _ => x end = x)
    as Hmatch by (intros; by destruct obs).
  rewrite Hmatch in H. clear Hmatch.
  bind_inv H as cf1 Hcf1. bind_inv H as cf2 Hcf2.
  injection H as <-. apply mapM_Ok in Hcf2.
  assert (length cf1 = length obs ∧
          Forall (λ m : Mat, length m = R ∧
                    Forall (λ row : Row, length row = fs + afs) m) cf1)
    as [Hlen1 Hshape1].
  { assert (Forall (λ m : Mat, length m = R ∧
                      Forall (λ row : Row, length row = fs + afs) m)
              (zeros3 (length obs) R (fs + afs))) as Hzeros.
    { apply Forall_replicate. unfold zeros2. rewrite length_replicate.
      split; [done|]. apply Forall_replicate. by rewrite length_replicate. }
    destruct (0 <? t) eqn:Ht.
    - apply Nat.ltb_lt in Ht.
      destruct (bank_shape_ok _ _ _ _ && action_shape_ok _ _ _
                && ((0 <? afs) || (fs =? 0))) eqn:Hok; [|done].
      injection Hcf1 as <-.
      apply andb_true_iff in Hok as [Hok Hafs].
      apply andb_true_iff in Hok as [Hbank Haction].
      apply andb_true_iff in Hbank as [Hb Hbank]. apply Nat.eqb_eq in Hb.
      apply andb_true_iff in Haction as [Ha Haction]. apply Nat.eqb_eq in Ha.
      split.
      { rewrite length_zip_with, length_zip. unfold zeros3.
        rewrite length_replicate. lia. }
      apply Forall_lookup_2. intros i m Hi.
      apply lookup_zip_with_Some in Hi as (m0 & [bank a] & -> & Hm0 & Hba).
      apply lookup_zip_with_Some in Hba as (bank' & a' & [= <- <-] & Hbk & Hai).
      unfold zeros3 in Hm0. apply lookup_replicate in Hm0 as [-> Hi].
      destruct (lookup_lt_is_Some_2 obs i Hi) as [ob Hob].
      pose proof (candidate_leng_bound t obs i ob Hob) as HR. fold R in HR.
      destruct (forallb_bank_rows _ _ _ _ _ Hbank Hbk) as [Hlb Hwb].
      assert (length a = afs) as Hla.
      { rewrite forallb_forall in Haction.
        apply Nat.eqb_eq, Haction, list_elem_of_In.
        by eapply list_elem_of_lookup_2. }
      assert (0 < afs ∨ fs = 0) as Hafs'.
      { apply orb_true_iff in Hafs as [H|H];
          [left; by apply Nat.ltb_lt | right; by apply Nat.eqb_eq]. }
      destruct (history_rows_shape fs afs t bank a (zeros2 R (fs + afs)))
        as [Hl Hw]; try done.
      { unfold zeros2. rewrite length_replicate. lia. }
      { unfold zeros2. apply Forall_replicate. by rewrite length_replicate. }
      rewrite Hl. unfold zeros2 at 1. by rewrite length_replicate.
    - injection Hcf1 as <-. split; [|done].
      unfold zeros3. by rewrite length_replicate. }
  split.
  - apply Forall2_length in Hcf2. rewrite length_zip in Hcf2. lia.
  - apply Forall_lookup_2. intros i m Hi.
    destruct (Forall2_lookup_r _ _ _ _ _ Hcf2 Hi) as ([ob m1] & Hz & Hfill).
    apply lookup_zip_with_Some in Hz as (ob' & m1' & [= <- <-] & Hob & Hm1).
    rewrite Forall_lookup in Hshape1. destruct (Hshape1 i m1 Hm1) as [Hl Hw].
    apply fill_candidates_shape in Hfill as (Hl' & Hw' & _).
    split; [congruence | by apply Hw'].
Qed.

Lemma candidate_variable_shape_witness :
  ∃ cf, _candidate_variable small_args [small_obs] 2 small_bank small_action
        = Ok (cf, [4]) ∧
        Forall (λ m : Mat, length m = 4 ∧
                  Forall (λ row : Row, length row = 3) m) cf.
Proof.
  destruct (_candidate_variable small_args [small_obs] 2 small_bank small_action)
    as [[cf leng]|] eqn:H; [|discriminate H].
  destruct (candidate_variable_shape _ _ _ _ _ _ _ H) as (Hleng & _ & Hshape).
  simpl in Hleng. subst leng. by exists cf.
Defined.

(** X5. At [t = 0] the memory bank and the action angle feature are not
    read: block [i] holds the features of the candidates of observation [i]
    in its first rows, in their order, and every other row, the stop slot
    at row [len(candidates)] included, is zero. *)
Theorem candidate_variable_first_step (args : Args) (obs : list Observation)
    (vis_taj : Tensor3) (input_a_t : Mat) :
  let W := feature_size args + angle_feat_size args in
  obs ≠ [] →
  Forall (λ ob, Forall (λ c, length (feature c) = W) (candidate ob)) obs →
  ∃ cf,
    _candidate_variable args obs 0 vis_taj input_a_t
    = Ok (cf, candidate_leng_of 0 obs) ∧
    ∀ i ob, obs !! i = Some ob →
      ∃ m, cf !! i = Some m ∧
           (∀ j c, candidate ob !! j = Some c → m !! j = Some (feature c)) ∧
           (∀ k, length (candidate ob) ≤ k < max_list (candidate_leng_of 0 obs) →
                 m !! k = Some (replicate W 0%Q)).
Proof.
  intros W Hobs Hfeat. unfold _candidate_variable. fold W.
  assert (∀ {A} (x : result A), match obs with [] => Err ValueError | _ => x end = x)
    as -> by (intros; by destruct obs).
  set (R := max_list (candidate_leng_of 0 obs)).
  cbn [Nat.ltb Nat.leb mbind result_bind].
  assert (∀ i ob, obs !! i = Some ob →
            zip obs (zeros3 (length obs) R W) !! i = Some (ob, zeros2 R W))
    as Hzip.
  { intros i ob Hob. rewrite lookup_zip_with, Hob. simpl. unfold zeros3.
    rewrite lookup_replicate_2; [done|]. by eapply lookup_lt_Some. }
  assert (∀ i ob, obs !! i = Some ob →
            ∃ m, fill_candidates W 0 0 (candidate ob) (zeros2 R W) = Ok m ∧
                 length m = R ∧
                 (∀ j c, candidate ob !! j = Some c → m !! j = Some (feature c)))
    as Hfill.
  { intros i ob Hob.
    destruct (fill_candidates_spec W 0 (candidate ob)) with
      (j := 0) (m := zeros2 R W) as (m & Hm & Hl & _ & Hrows).
    - rewrite Forall_forall in Hfeat. apply Hfeat.
      by eapply list_elem_of_lookup_2.
    - unfold zeros2. rewrite length_replicate.
      pose proof (candidate_leng_bound 0 obs i ob Hob). fold R in H. lia.
    - exists m. split_and!; [done | |].
      + rewrite Hl. unfold zeros2. by rewrite length_replicate.
      + intros j c Hj. specialize (Hrows j c Hj).
        by rewrite Nat.add_0_r in Hrows. }
  destruct (mapM_is_Ok
    (λ '(ob, m), fill_candidates W 0 0 (candidate ob) m)
    (zip obs (zeros3 (length obs) R W))) as [cf Hcf].
  { apply Forall_lookup_2. intros i [ob m] Him.
    pose proof Him as Him'.
    apply lookup_zip_with_Some in Him' as (ob' & m' & [= <- <-] & Hob & _).
    rewrite (Hzip i ob Hob) in Him. injection Him as <-.
    destruct (Hfill i ob Hob) as (m' & Hm' & _). by exists m'. }
  exists cf. rewrite Hcf. split; [done|].
  intros i ob Hob. apply mapM_Ok in Hcf.
  destruct (Forall2_lookup_l _ _ _ i _ Hcf (Hzip i ob Hob)) as (m & Hm & Hf).
  simpl in Hf. destruct (Hfill i ob Hob) as (m' & Hm' & Hl & Hrows).
  rewrite Hf in Hm'. injection Hm' as <-.
  exists m. split_and!; [done | done |].
  intros k [Hk HkR].
  apply fill_candidates_shape in Hf as (_ & _ & Habove).
  rewrite Habove by lia. unfold zeros2. by rewrite lookup_replicate_2.
Qed.

Lemma candidate_variable_first_step_witness :
  ∃ cf m,
    _candidate_variable small_args [small_obs] 0 [] [] = Ok (cf, [2]) ∧
    cf !! 0 = Some m ∧
    m !! 0 = Some [7; 8; 9]%Q ∧ m !! 1 = Some [0; 0; 0]%Q.
Proof.
  destruct (candidate_variable_first_step small_args [small_obs] [] [])
    as (cf & Hcf & Hrows); [discriminate | repeat constructor |].
  destruct (Hrows 0 small_obs eq_refl) as (m & Hm & Hcand & Hzero).
  exists cf, m. split_and!; [exact Hcf | exact Hm | |].
  - apply (Hcand 0 {| viewpointId := "a"; pointId := 0; idx := 0;
                      feature := [7; 8; 9]%Q |}). reflexivity.
  - apply (Hzero 1). simpl. lia.
Defined.

(** ** Teacher oracle: range *)

(** X6. Every action of [_teacher_action] is the ignore index or an index
    of the action space of its observation, [0 .. len(candidates)]; below
    [len(candidates)] it is the index of a candidate that leads to the
    teacher's next viewpoint. There is one action per observation. *)
Theorem teacher_action_range (args : Args) (obs : list Observation)
    (ended : list bool) (a : list Z) :
  _teacher_action args obs ended = Ok a →
  Forall2 (λ ob a_i,
             a_i = ignoreid args ∨
             ((0 ≤ a_i ≤ Z.of_nat (length (candidate ob)))%Z ∧
              (a_i ≠ Z.of_nat (length (candidate ob)) →
               ∃ c, candidate ob !! Z.to_nat a_i = Some c ∧
                    viewpointId c = teacher ob)))
    obs a.
Proof.
  unfold _teacher_action. intros H. apply mapM_Ok in H.
  apply Forall2_same_length_lookup. split.
  { apply Forall2_length in H. unfold enumerate in H.
    by rewrite length_imap in H. }
  intros i ob a_i Hob Hai.
  destruct (Forall2_lookup_l _ _ _ i (i, ob) H) as (a_i' & Hai' & Hf).
  { by rewrite enumerate_lookup, Hob. }
  rewrite Hai in Hai'. injection Hai' as <-. simpl in Hf.
  bind_inv Hf as e He. injection Hf as <-.
  unfold teacher_action_item. destruct e; [by left|]. right.
  destruct (list_find _ _) as [[k c]|] eqn:Hfind.
  - apply list_find_Some in Hfind as (Hk & Hc & _).
    pose proof (lookup_lt_Some _ _ _ Hk). split; [lia|].
    intros _. exists c. by rewrite Nat2Z.id.
  - split; [lia | done].
Qed.

Lemma teacher_action_range_witness :
  ∃ a, _teacher_action toy_args [obs_with_teacher "w"; obs_with_teacher "v"]
         [false; true] = Ok a ∧ length a = 2.
Proof.
  destruct (_teacher_action toy_args
              [obs_with_teacher "w"; obs_with_teacher "v"] [false; true])
    as [a|] eqn:H; [|discriminate H].
  exists a. split; [reflexivity|].
  pose proof (teacher_action_range _ _ _ _ H) as Hr.
  apply Forall2_length in Hr. symmetry. exact Hr.
Defined.

(** ** Environment actuator: trajectories *)

Lemma make_equiv_action_item (C : Collaborators) (a_t : list Z)
    (perm_obs : list Observation) (todo : list (nat * nat)) :
  ∀ (w w' : World C) (traj traj' : list Traj),
    make_equiv_action C a_t perm_obs todo w traj = Ok (w', traj') →
    NoDup todo.*1 →
    length traj' = length traj ∧
    (∀ i, i ∈ todo.*1 → is_Some (a_t !! i)) ∧
    ∀ i tr, traj !! i = Some tr →
      ∃ tr', traj' !! i = Some tr' ∧
             (i ∉ todo.*1 ∨ a_t !! i = Some (-1)%Z → tr' = tr) ∧
             (i ∈ todo.*1 → ∀ a, a_t !! i = Some a → a ≠ (-1)%Z →
                ∃ state, tr' = append_path state tr).
Proof.
  induction todo as [|[i0 idx] todo IH]; intros w w' traj traj' H Hnd;
    simpl in H.
  - injection H as <- <-. split_and!; [done | by intros i Hi; inversion Hi |].
    intros i tr Hi. exists tr. split_and!; [done | done |].
    intros Hin. by inversion Hin.
  - apply NoDup_cons in Hnd as [Hi0 Hnd]. simpl in Hi0.
    bind_inv H as action Haction. apply at_index_Ok in Haction.
    destruct (action =? -1)%Z eqn:Hstop.
    + apply Z.eqb_eq in Hstop as ->.
      destruct (IH _ _ _ _ H Hnd) as (Hlen & Hsome & Hrows).
      split_and!; [done | |].
      * intros i Hi. apply elem_of_cons in Hi as [->|Hi]; [by eexists | by apply Hsome].
      * intros i tr Hi. destruct (Hrows i tr Hi) as (tr' & Htr' & Hsame & Hmove).
        exists tr'. split_and!; [done | |].
        -- intros [Hnot | Hm1]; apply Hsame; [|by right].
           left. intros Hin. apply Hnot. simpl. by apply elem_of_cons; right.
        -- intros Hin a Ha Hne. simpl in Hin.
           apply elem_of_cons in Hin as [->|Hin]; [congruence | by eapply Hmove].
    + apply Z.eqb_neq in Hstop.
      bind_inv H as ob Hob. bind_inv H as cand Hcand.
      bind_inv H as [w1 state] Hnav. bind_inv H as tr0 Htr0.
      apply at_index_Ok in Htr0.
      destruct (IH _ _ _ _ H Hnd) as (Hlen & Hsome & Hrows).
      rewrite length_insert in Hlen. split_and!; [done | |].
      * intros i Hi. apply elem_of_cons in Hi as [->|Hi]; [by eexists | by apply Hsome].
      * intros i tr Hi. destruct (decide (i = i0)) as [->|Hne].
        -- rewrite Htr0 in Hi. injection Hi as <-.
           destruct (Hrows i0 (append_path state tr0)) as (tr' & Htr' & Hsame & _).
           { apply list_lookup_insert_eq. by eapply lookup_lt_Some. }
           rewrite (Hsame (or_introl Hi0)) in Htr'.
           exists (append_path state tr0). split_and!; [done | |].
           ++ intros [Hnot | Hm1]; [|congruence].
              destruct Hnot. simpl. apply elem_of_cons. by left.
           ++ intros _ a _ _. by exists state.
        -- destruct (Hrows i tr) as (tr' & Htr' & Hsame & Hmove).
           { by rewrite list_lookup_insert_ne. }
           exists tr'. split_and!; [done | |].
           ++ intros [Hnot | Hm1]; apply Hsame; [|by right].
              left. intros Hin. apply Hnot. simpl. by apply elem_of_cons; right.
           ++ intros Hin a Ha Hne'. simpl in Hin.
              apply elem_of_cons in Hin as [->|Hin]; [done | by eapply Hmove].
Qed.

Lemma enumerate_fst {A} (l : list A) : (enumerate l).*1 = seq 0 (length l).
Proof.
  apply list_eq. intros i.
  rewrite list_lookup_fmap, enumerate_lookup.
  destruct (l !! i) as [x|] eqn:Hx; simpl.
  - symmetry. apply lookup_seq. split; [done | by eapply lookup_lt_Some].
  - symmetry. apply lookup_seq_ge. by apply lookup_ge_None.
Qed.

Lemma make_equiv_action_rows (C : Collaborators) (a_t : list Z)
    (perm_obs : list Observation) (perm_idx : list nat)
    (w w' : World C) (traj traj' : list Traj) :
  make_equiv_action C a_t perm_obs (enumerate perm_idx) w traj = Ok (w', traj') →
  length traj' = length traj ∧
  ∀ i tr, traj !! i = Some tr →
    ∃ tr', traj' !! i = Some tr' ∧
           traj_instr_id tr' = traj_instr_id tr ∧
           (length perm_idx ≤ i ∨ a_t !! i = Some (-1)%Z → tr' = tr) ∧
           (i < length perm_idx → a_t !! i ≠ Some (-1)%Z →
              ∃ state, path tr' = path tr ++ [state]).
Proof.
  intros H. apply make_equiv_action_item in H as (Hlen & Hsome & Hrows).
  2: { rewrite enumerate_fst. apply NoDup_seq. }
  rewrite enumerate_fst in Hsome, Hrows.
  split; [done|]. intros i tr Hi.
  destruct (Hrows i tr Hi) as (tr' & Htr' & Hsame & Hmove).
  exists tr'. split_and!; [done | | |].
  - destruct (decide (i < length perm_idx)) as [Hlt|Hge].
    + destruct (Hsome i) as [a Ha]; [apply elem_of_seq; lia|].
      destruct (decide (a = (-1)%Z)) as [->|Hne].
      * by rewrite (Hsame (or_intror Ha)).
      * destruct (Hmove ltac:(apply elem_of_seq; lia) a Ha Hne) as [s ->]. done.
    + rewrite Hsame; [done|]. left. rewrite elem_of_seq. lia.
  - intros [Hge | Hm1]; apply Hsame; [|by right].
    left. rewrite elem_of_seq. lia.
  - intros Hlt Hne.
    destruct (Hsome i) as [a Ha]; [apply elem_of_seq; lia|].
    destruct (Hmove ltac:(apply elem_of_seq; lia) a Ha) as [s ->]; [congruence|].
    by exists s.
Qed.

(** X7. [make_equiv_action] keeps one trajectory per item and never
    changes an instruction id. An item whose action is -1, or that the
    permutation does not reach, keeps its path; every other item gets
    exactly one entry appended to its path. *)
Theorem make_equiv_action_paths (C : Collaborators) (a_t : list Z)
    (perm_obs : list Observation) (perm_idx : list nat)
    (w w' : World C) (traj traj' : list Traj) :
  make_equiv_action C a_t perm_obs (enumerate perm_idx) w traj = Ok (w', traj') →
  length traj' = length traj ∧
  ∀ i tr, traj !! i = Some tr →
    ∃ tr', traj' !! i = Some tr' ∧
           traj_instr_id tr' = traj_instr_id tr ∧
           (length perm_idx ≤ i ∨ a_t !! i = Some (-1)%Z → tr' = tr) ∧
           (i < length perm_idx → a_t !! i ≠ Some (-1)%Z →
              ∃ state, path tr' = path tr ++ [state]).
Proof. apply make_equiv_action_rows. Qed.

Lemma make_equiv_action_paths_witness :
  ∃ (w' : World toy) traj',
    make_equiv_action toy [1; -1]%Z (perm_obs toy_start) (enumerate [1; 0])
      (0 : World toy) (traj toy_start) = Ok (w', traj') ∧
    length traj' = 2.
Proof.
  destruct (make_equiv_action toy [1; -1]%Z (perm_obs toy_start)
              (enumerate [1; 0]) (0 : World toy) (traj toy_start))
    as [[w' traj']|] eqn:H;
    [|vm_compute in H; discriminate H].
  exists w', traj'. split; [reflexivity|].
  by destruct (make_equiv_action_paths toy _ _ _ _ _ _ _ H) as [-> _].
Defined.

(** X8. When every item's action is -1, [make_equiv_action] makes no
    call to the simulator: the world and the trajectories are as before. *)
Theorem make_equiv_action_all_stop (C : Collaborators) (a_t : list Z)
    (perm_obs : list Observation) (perm_idx : list nat)
    (w : World C) (traj : list Traj) :
  Forall (λ a, a = (-1)%Z) a_t →
  length perm_idx ≤ length a_t →
  make_equiv_action C a_t perm_obs (enumerate perm_idx) w traj = Ok (w, traj).
Proof.
  intros Hall Hlen.
  assert (∀ todo : list (nat * nat),
            Forall (λ p, p.1 < length a_t) todo →
            make_equiv_action C a_t perm_obs todo w traj = Ok (w, traj)) as Hgen.
  { induction 1 as [|[i idx] todo Hi _ IH]; simpl; [done|].
    simpl in Hi. destruct (lookup_lt_is_Some_2 a_t i Hi) as [a Ha].
    unfold at_index. rewrite Ha. simpl.
    rewrite Forall_forall in Hall.
    rewrite (Hall a) by (by eapply list_elem_of_lookup_2). by simpl. }
  apply Hgen. apply Forall_lookup_2. intros i [j idx] Hj.
  rewrite enumerate_lookup in Hj.
  apply fmap_Some in Hj as (idx' & Hidx & [= -> ->]). simpl.
  apply lookup_lt_Some in Hidx. lia.
Qed.

Lemma make_equiv_action_all_stop_witness :
  make_equiv_action toy [-1; -1]%Z (toy_obs 0) (enumerate [1; 0])
    (0 : World toy) (traj toy_start)
  = Ok ((0 : World toy), traj toy_start).
Proof.
  apply make_equiv_action_all_stop; [repeat constructor | simpl; lia].
Defined.

(** ** One timestep *)

(** What a successful timestep did, in the order of the source. *)
Lemma timestep_inv (C : Collaborators) (args : Args) (fb : string)
    (train_rl : bool) (batch_size : nat) (sb : SortedBatch)
    (language_features : Emb C) (att_drop_rate : Q) (t : nat)
    (st st' : LoopState C) :
  timestep C args fb train_rl batch_size sb language_features att_drop_rate t st
  = Ok st' →
  ∃ (leng : list nat) (visn_output vt : Tensor3) (logit : Logit C)
    (target a_t cpu_a_t : list Z) (w w1 : World C) (h_t : Hidden C),
    select_action C fb w logit target (policy_log_probs st) (entropys st)
    = Ok (w1, a_t, policy_log_probs st', entropys st') ∧
    _teacher_action args (perm_obs st) (ended st) = Ok target ∧
    commit_actions args t leng (ended st) visn_output (enumerate a_t) vt
    = Ok (cpu_a_t, vis_taj st') ∧
    make_equiv_action C cpu_a_t (perm_obs st) (enumerate (perm_idx sb)) w1 (traj st)
    = Ok (world st', traj st') ∧
    at_index_all (env_get_obs C (world st')) (perm_idx sb) = Ok (perm_obs st') ∧
    update_ended (ended st) cpu_a_t = Ok (ended st') ∧
    hidden_states st' = hidden_states st ++ [h_t] ∧
    last_t st' = Some t ∧
    (if train_rl then
       ∃ reward mask,
         reward_step C batch_size (perm_obs st') (traj st') (ended st) cpu_a_t
           (last_dist st) (last_ndtw st)
         = Ok (last_dist st', last_ndtw st', reward, mask) ∧
         rewards st' = rewards st ++ [reward] ∧ masks st' = masks st ++ [mask]
     else rewards st' = rewards st ∧ masks st' = masks st ∧
          last_dist st' = last_dist st ∧ last_ndtw st' = last_ndtw st).
Proof.
  unfold timestep. intros H.
  bind_inv H as [[input_a_t cf] leng] Hfeat.
  bind_inv H as inputs Hin.
  destruct (vln_bert_visual C (world st) inputs) as [w [[[h_t vo] logit] dlc]].
  bind_inv H as target Htarget.
  bind_inv H as [[[w1 a_t] plp] ent] Hsel.
  bind_inv H as vt Hwb.
  bind_inv H as [cpu vt2] Hcommit.
  bind_inv H as [w2 traj'] Hact.
  bind_inv H as perm_obs' Hperm.
  bind_inv H as [[[rw mk] ld] ln] Hrew.
  bind_inv H as ended' Hend.
  injection H as <-. simpl.
  exists leng, vo, vt, (masked_fill_neg_inf C logit (candidate_mask t leng)),
    target, a_t, cpu, w, w1, h_t.
  split_and!; try done.
  destruct train_rl.
  - bind_inv Hrew as [[[d n] r] m] Hstep. injection Hrew as <- <- <- <-.
    by exists r, m.
  - by injection Hrew as <- <- <- <-.
Qed.

Lemma commit_actions_length (args : Args) (t : nat) (candidate_leng : list nat)
    (ended : list bool) (visn_output : Tensor3) (todo : list (nat * Z)) :
  ∀ (vis_taj vis_taj' : Tensor3) (acts : list Z),
    commit_actions args t candidate_leng ended visn_output todo vis_taj
    = Ok (acts, vis_taj') →
    length acts = length todo.
Proof.
  intros vt vt' acts H. apply commit_actions_stop in H.
  symmetry. by eapply Forall2_length.
Qed.

(** X9. An item that has ended is not moved again: a timestep leaves its
    trajectory as it is. *)
Theorem timestep_ended_item_stays (C : Collaborators) (args : Args)
    (fb : string) (train_rl : bool) (batch_size : nat) (sb : SortedBatch)
    (language_features : Emb C) (att_drop_rate : Q) (t : nat)
    (st st' : LoopState C) (i : nat) :
  timestep C args fb train_rl batch_size sb language_features att_drop_rate t st
  = Ok st' →
  ended st !! i = Some true →
  traj st' !! i = traj st !! i.
Proof.
  intros H Hi.
  apply timestep_inv in H
    as (leng & vo & vt & logit & target & a_t & cpu & w & w1 & h_t
        & _ & _ & Hcommit & Hact & _).
  pose proof (commit_actions_stop _ _ _ _ _ _ _ _ _ Hcommit) as Hstop.
  pose proof (make_equiv_action_item _ _ _ _ _ _ _ _ Hact) as (Hlen & Hsome & Hrows).
  { rewrite enumerate_fst. apply NoDup_seq. }
  rewrite enumerate_fst in Hsome, Hrows.
  destruct (traj st !! i) as [tr|] eqn:Htr.
  - destruct (Hrows i tr Htr) as (tr' & Htr' & Hsame & _).
    rewrite Htr'. f_equal. apply Hsame.
    destruct (decide (i < length (perm_idx sb))) as [Hlt|Hge].
    + right. destruct (Hsome i) as [a Ha]; [apply elem_of_seq; lia|].
      rewrite Ha. f_equal.
      destruct (Forall2_lookup_r _ _ _ _ _ Hstop Ha) as ([j next_id] & Hj & _ & He & _).
      rewrite enumerate_lookup in Hj.
      apply fmap_Some in Hj as (next_id' & _ & [= -> ->]). by apply He.
    + left. rewrite elem_of_seq. lia.
  - apply lookup_ge_None. rewrite Hlen. by apply lookup_ge_None.
Qed.

Lemma timestep_ended_item_stays_witness :
  ∃ a b : LoopState toy,
    rollout_loop toy toy_args "teacher" false 2 toy_sorted (() : Emb toy) 0.5
      1 0 toy_start = Ok a ∧
    timestep toy toy_args "teacher" false 2 toy_sorted (() : Emb toy) 0.5 1 a
    = Ok b ∧
    ended a !! 1 = Some true ∧ traj b !! 1 = traj a !! 1.
Proof.
  assert (@ended toy <$>
            rollout_loop toy toy_args "teacher" false 2 toy_sorted
              (() : Emb toy) 0.5 1 0 toy_start = Ok [false; true]) as Ha
    by (vm_compute; reflexivity).
  assert (is_Ok_bool
            (rollout_loop toy toy_args "teacher" false 2 toy_sorted
               (() : Emb toy) 0.5 1 0 toy_start
             ≫= timestep toy toy_args "teacher" false 2 toy_sorted
                  (() : Emb toy) 0.5 1) = true) as Hb
    by (vm_compute; reflexivity).
  destruct (rollout_loop toy toy_args "teacher" false 2 toy_sorted
              (() : Emb toy) 0.5 1 0 toy_start) as [a|]; [|discriminate Ha].
  injection Ha as Ha. cbn [mbind result_bind] in Hb.
  destruct (timestep toy toy_args "teacher" false 2 toy_sorted
              (() : Emb toy) 0.5 1 a) as [b|] eqn:Eb; [|discriminate Hb].
  assert (ended a !! 1 = Some true) as He by (by rewrite Ha).
  exists a, b. split_and!; [reflexivity | exact Eb | exact He |].
  exact (timestep_ended_item_stays toy _ _ _ _ _ _ _ _ _ _ 1 Eb He).
Defined.

(** X10. A feedback mode other than 'teacher', 'argmax' and 'sample' never
    gets through a timestep, so a rollout of at least one timestep in such
    a mode does not return. *)
Theorem rollout_invalid_feedback (C : Collaborators) (args : Args)
    (ag : Agent C) (train_ml train_dis_l train_dis_c : option Q)
    (att_drop_rate : Q) (train_rl reset : bool) :
  feedback ag ≠ "teacher" → feedback ag ≠ "argmax" → feedback ag ≠ "sample" →
  0 < episode_len ag →
  ∃ e, rollout_run C args ag train_ml train_dis_l train_dis_c att_drop_rate
         train_rl reset = Err e.
Proof.
  intros Ht Ha Hs Hlen.
  destruct (rollout_run C args ag train_ml train_dis_l train_dis_c att_drop_rate
              train_rl reset) as [o|e] eqn:H; [|by exists e].
  exfalso. revert H. unfold rollout_run.
  destruct (if reset then _ else _) as [w obs].
  intros H. bind_inv H as sb Hsb. bind_inv H as perm_obs Hperm.
  destruct (vln_bert_language C w _) as [w1 text_embeds].
  destruct (rand_like C w1 _) as [w2 noise].
  destruct (vln_bert_language C w2 _) as [w3 text_embeds_drop].
  bind_inv H as st0 Hst0. bind_inv H as st Hloop.
  destruct (episode_len ag) as [|n]; [lia|]. simpl in Hloop.
  bind_inv Hloop as st1 Hstep.
  apply timestep_inv in Hstep
    as (leng & vo & vt & logit & target & a_t & cpu & w' & w1' & h_t & Hsel & _).
  unfold select_action in Hsel.
  apply String.eqb_neq in Ht, Ha, Hs. by rewrite Ht, Ha, Hs in Hsel.
Qed.

Lemma rollout_invalid_feedback_witness :
  rollout_run toy toy_args (toy_agent "greedy") None None None 0.5 true true
  = Err (SystemExit "Invalid feedback option").
Proof.
  destruct (rollout_invalid_feedback toy toy_args (toy_agent "greedy")
              None None None 0.5 true true) as [e He];
    [discriminate | discriminate | discriminate | simpl; lia |].
  rewrite He. f_equal.
  assert (rollout_run toy toy_args (toy_agent "greedy") None None None 0.5
            true true = Err (SystemExit "Invalid feedback option")) as H
    by (vm_compute; reflexivity).
  rewrite H in He. by injection He.
Defined.

(** ** The loop over timesteps *)

Lemma update_ended_length (ended ended' : list bool) (cpu_a_t : list Z) :
  update_ended ended cpu_a_t = Ok ended' → length ended' = length ended.
Proof.
  unfold update_ended. destruct (_ =? _) eqn:Hlen.
  - intros [= <-]. apply Nat.eqb_eq in Hlen.
    rewrite length_zip_with. lia.
  - destruct (_ <$> cpu_a_t) as [|b [|]]; [done | | done].
    intros [= <-]. by rewrite length_fmap.
Qed.

(** X11. A run of the loop with fuel for [fuel > 0] timesteps from [t]
    executes [n] of them, [1 <= n <= fuel]: the loop variable ends at
    [t + n - 1], one hidden state is recorded per executed timestep, and
    with reinforcement on also one reward vector and one mask vector. It
    stops before the fuel is used up only when every item has ended. The
    number of ended flags does not change. *)
Theorem rollout_loop_steps (C : Collaborators) (args : Args) (fb : string)
    (train_rl : bool) (batch_size : nat) (sb : SortedBatch)
    (language_features : Emb C) (att_drop_rate : Q) (fuel : nat) :
  ∀ (t : nat) (st st' : LoopState C),
    0 < fuel →
    rollout_loop C args fb train_rl batch_size sb language_features
      att_drop_rate fuel t st = Ok st' →
    ∃ n, 1 ≤ n ≤ fuel ∧
         last_t st' = Some (t + n - 1) ∧
         length (hidden_states st') = length (hidden_states st) + n ∧
         (train_rl = true →
            length (rewards st') = length (rewards st) + n ∧
            length (masks st') = length (masks st) + n) ∧
         (n < fuel → forallb id (ended st') = true) ∧
         length (ended st') = length (ended st).
Proof.
  induction fuel as [|fuel IH]; intros t st st' Hpos H; [lia|].
  simpl in H. bind_inv H as st1 Hstep.
  apply timestep_inv in Hstep
    as (leng & vo & vt & logit & target & a_t & cpu & w & w1 & h_t
        & _ & _ & _ & _ & _ & Hend & Hhid & Hlast & Hrl).
  apply update_ended_length in Hend.
  assert (train_rl = true →
          length (rewards st1) = length (rewards st) + 1 ∧
          length (masks st1) = length (masks st) + 1) as Hrl1.
  { intros ->. destruct Hrl as (r & m & _ & -> & ->).
    rewrite !length_app. simpl. lia. }
  destruct (forallb id (ended st1)) eqn:Hall.
  - injection H as <-. exists 1. split_and!; try done; try lia.
    + rewrite Hlast. f_equal. lia.
    + rewrite Hhid, length_app. simpl. lia.
  - destruct fuel as [|fuel].
    + simpl in H. injection H as <-. exists 1. split_and!; try done; try lia.
      * rewrite Hlast. f_equal. lia.
      * rewrite Hhid, length_app. simpl. lia.
    + destruct (IH (S t) st1 st' ltac:(lia) H)
        as (n & Hn & Hl & Hh & Hr & Hbreak & He).
      exists (S n). split_and!; try lia.
      * rewrite Hl. f_equal. lia.
      * rewrite Hh, Hhid, length_app. simpl. lia.
      * intros Htrue. destruct (Hr Htrue), (Hrl1 Htrue). lia.
      * intros Hlt. apply Hbreak. lia.
Qed.

Lemma rollout_loop_steps_witness :
  ∃ st' : LoopState toy,
    rollout_loop toy toy_args "teacher" false 2 toy_sorted (() : Emb toy) 0.5
      3 0 toy_start = Ok st' ∧
    ∃ n, 1 ≤ n ≤ 3 ∧ last_t st' = Some (0 + n - 1).
Proof.
  assert (is_Ok_bool
            (rollout_loop toy toy_args "teacher" false 2 toy_sorted
               (() : Emb toy) 0.5 3 0 toy_start) = true) as Hb
    by (vm_compute; reflexivity).
  destruct (rollout_loop toy toy_args "teacher" false 2 toy_sorted
              (() : Emb toy) 0.5 3 0 toy_start) as [st'|] eqn:E;
    [|discriminate Hb].
  exists st'. split; [reflexivity|].
  destruct (rollout_loop_steps toy _ _ _ _ _ _ _ 3 0 toy_start st'
              ltac:(lia) E) as (n & Hn & Hl & _).
  exists n. split; [exact Hn | exact Hl].
Defined.

(** ** Rewards and masks of one timestep *)

Lemma shaped_reward_mask (e : bool) (a : Z) (x y z u r m : Q) :
  shaped_reward e a x y z u = Ok (r, m) →
  m = (if e then 0 else 1)%Q ∧ (e = true → r = 0%Q).
Proof.
  unfold shaped_reward. destruct e; [by intros [= <- <-]|].
  destruct (a =? -1)%Z.
  { destruct (Qltb x 3.0); intros [= <- <-]; by split. }
  destruct (Qltb 0.0 (- (x - y))).
  { cbn [mbind result_bind]. destruct (_ && _); intros [= <- <-]; by split. }
  destruct (Qltb (- (x - y)) 0.0); [|done].
  cbn [mbind result_bind]. destruct (_ && _); intros [= <- <-]; by split.
Qed.

Lemma reward_item_ended (C : Collaborators) (batch_size : nat)
    (traj : list Traj) (ended : list bool) (cpu_a_t : list Z)
    (last_dist last_ndtw : list Q) (i : nat) (ob : Observation)
    (d n r m : Q) :
  reward_item C batch_size traj ended cpu_a_t last_dist last_ndtw i ob
  = Ok (d, n, r, m) →
  i < batch_size ∧ d = distance ob ∧
  (ended !! i = Some true → r = 0%Q ∧ m = 0%Q) ∧
  (ended !! i = Some false → m = 1%Q).
Proof.
  unfold reward_item. destruct (batch_size <=? i) eqn:Hi; [done|].
  apply Nat.leb_gt in Hi. intros H.
  bind_inv H as tr Htr. bind_inv H as e He. apply at_index_Ok in He.
  bind_inv H as [r' m'] Hrm. injection H as <- _ <- <-.
  split_and!; [done | done | |].
  - intros He'. rewrite He in He'. injection He' as ->.
    apply shaped_reward_mask in Hrm as [-> Hr]. by rewrite Hr.
  - intros He'. rewrite He in He'. injection He' as ->.
    bind_inv Hrm as a Ha. destruct (a =? -1)%Z.
    + by apply shaped_reward_mask in Hrm as [-> _].
    + bind_inv Hrm as ld Hld. bind_inv Hrm as ln Hln.
      by apply shaped_reward_mask in Hrm as [-> _].
Qed.

(** X12. The arrays of a timestep's reward computation all have
    [batch_size] entries. For every observation the distance recorded is
    its distance to the goal; an item that had ended gets reward 0 and
    mask 0, an item that had not ended gets mask 1. *)
Theorem reward_step_masks (C : Collaborators) (batch_size : nat)
    (perm_obs : list Observation) (traj : list Traj) (ended : list bool)
    (cpu_a_t : list Z) (last_dist last_ndtw dist ndtw_score reward mask : list Q) :
  reward_step C batch_size perm_obs traj ended cpu_a_t last_dist last_ndtw
  = Ok (dist, ndtw_score, reward, mask) →
  length perm_obs ≤ batch_size ∧
  length dist = batch_size ∧ length ndtw_score = batch_size ∧
  length reward = batch_size ∧ length mask = batch_size ∧
  ∀ i ob, perm_obs !! i = Some ob →
    dist !! i = Some (distance ob) ∧
    (ended !! i = Some true → reward !! i = Some 0%Q ∧ mask !! i = Some 0%Q) ∧
    (ended !! i = Some false → mask !! i = Some 1%Q).
Proof.
  unfold reward_step. intros H. bind_inv H as items Hitems.
  injection H as <- <- <- <-. apply mapM_Ok in Hitems.
  assert (length items = length perm_obs) as Hlen.
  { apply Forall2_length in Hitems. unfold enumerate in Hitems.
    by rewrite length_imap in Hitems. }
  assert (length perm_obs ≤ batch_size) as Hle.
  { destruct (decide (length perm_obs = 0)) as [->|Hne]; [lia|].
    destruct (lookup_lt_is_Some_2 perm_obs (length perm_obs - 1)) as [ob Hob];
      [lia|].
    destruct (Forall2_lookup_l _ _ _ (length perm_obs - 1)
                (length perm_obs - 1, ob) Hitems) as ([[[d n] r] m] & _ & Hf).
    { by rewrite enumerate_lookup, Hob. }
    apply reward_item_ended in Hf as (Hi & _). lia. }
  rewrite !length_app, !length_fmap, !length_replicate.
  split_and!; try lia.
  intros i ob Hob.
  destruct (Forall2_lookup_l _ _ _ i (i, ob) Hitems) as ([[[d n] r] m] & Hi & Hf).
  { by rewrite enumerate_lookup, Hob. }
  apply reward_item_ended in Hf as (_ & -> & Hended & Hlive).
  pose proof (lookup_lt_Some _ _ _ Hi) as Hlt.
  rewrite !lookup_app_l by (rewrite length_fmap; lia).
  rewrite !list_lookup_fmap, Hi. simpl.
  split_and!; [done | |].
  - intros He. by destruct (Hended He) as [-> ->].
  - intros He. by rewrite (Hlive He).
Qed.

Lemma reward_step_masks_witness :
  ∃ dist ndtw_score reward mask,
    reward_step toy 2 (toy_obs 1) (traj toy_start) [false; true] [0; -1]%Z
      [15; 12]%Q [0.5; 0.5]%Q
    = Ok (dist, ndtw_score, reward, mask) ∧
    mask !! 0 = Some 1%Q ∧ mask !! 1 = Some 0%Q.
Proof.
  destruct (reward_step toy 2 (toy_obs 1) (traj toy_start) [false; true]
              [0; -1]%Z [15; 12]%Q [0.5; 0.5]%Q)
    as [[[[dist ndtw_score] reward] mask]|] eqn:H;
    [|vm_compute in H; discriminate H].
  exists dist, ndtw_score, reward, mask. split; [reflexivity|].
  destruct (reward_step_masks _ _ _ _ _ _ _ _ _ _ _ _ H)
    as (_ & _ & _ & _ & _ & Hrows).
  split.
  - by destruct (Hrows 0 _ eq_refl) as (_ & _ & Hlive); apply Hlive.
  - by destruct (Hrows 1 _ eq_refl) as (_ & Hended & _); apply Hended.
Defined.

(** X13. The return the backward pass starts from has one entry per batch
    item: 0 for an item that has ended and the critic's value of the last
    state for an item that has not. *)
Theorem bootstrap_values (batch_size : nat) (ended : list bool)
    (last_value discount_reward : list Q) :
  bootstrap batch_size ended last_value = Ok discount_reward →
  length discount_reward = batch_size ∧
  ∀ i, i < batch_size →
    (ended !! i = Some true → discount_reward !! i = Some 0%Q) ∧
    (ended !! i = Some false → discount_reward !! i = last_value !! i
                               ∧ is_Some (last_value !! i)).
Proof.
  unfold bootstrap. intros H. apply mapM_Ok in H.
  split.
  { apply Forall2_length in H. by rewrite length_seq in H. }
  intros i Hi.
  destruct (Forall2_lookup_l _ _ _ i i H) as (x & Hx & Hf).
  { by apply lookup_seq. }
  simpl in Hf. bind_inv Hf as e He. apply at_index_Ok in He.
  rewrite He. split.
  - intros [= ->]. by injection Hf as <-.
  - intros [= ->]. apply at_index_Ok in Hf. rewrite Hf. by split.
Qed.

Lemma bootstrap_values_witness :
  bootstrap 2 [true; false] [0.3; 0.4]%Q = Ok [0; 0.4]%Q.
Proof.
  destruct (bootstrap 2 [true; false] [0.3; 0.4]%Q) as [d|] eqn:H;
    [|discriminate H].
  destruct (bootstrap_values _ _ _ _ H) as (Hlen & Hrows).
  vm_compute in H. symmetry. exact H.
Defined.

(** ** The discounted return in closed form *)

Lemma discounted_sum_Qeq (g a b : Q) (rs : list Q) :
  (a == b)%Q → (discounted_sum g a rs == discounted_sum g b rs)%Q.
Proof.
  intros Hab. induction rs as [|r rs IH]; simpl; [done|].
  unfold discounted_sum in *. simpl. by rewrite IH.
Qed.

Lemma discount_step_lookup (g : Q) (ret r ret' : list Q) :
  length r = length ret →
  discount_step g ret r = Ok ret' →
  length ret' = length ret ∧
  ∀ i v, ret !! i = Some v →
    ret' !! i = Some (v * g + default 0 (r !! i))%Q.
Proof.
  intros Hlen. unfold discount_step, elementwise.
  rewrite length_fmap, Hlen, Nat.eqb_refl. intros [= <-].
  split.
  { rewrite length_zip_with, length_fmap. lia. }
  intros i v Hv.
  destruct (lookup_lt_is_Some_2 r i) as [x Hx].
  { rewrite Hlen. by eapply lookup_lt_Some. }
  by rewrite lookup_zip_with, list_lookup_fmap, Hv, Hx.
Qed.

Lemma discounted_return_closed_form (g : Q) (rewards : list (list Q)) (n : nat) :
  ∀ (ret ret' : list Q),
    n ≤ length rewards →
    Forall (λ r : list Q, length r = length ret) rewards →
    discounted_return g rewards (reverse (seq 0 n)) ret = Ok ret' →
    length ret' = length ret ∧
    ∀ i v, ret !! i = Some v →
      ∃ x, ret' !! i = Some x ∧
           (x == discounted_sum g v (item_rewards i (take n rewards)))%Q.
Proof.
  induction n as [|n IH]; intros ret ret' Hn Hshape H.
  - simpl in H. injection H as <-. split; [done|].
    intros i v Hv. exists v. by rewrite take_0.
  - rewrite seq_S, reverse_app in H. simpl in H.
    bind_inv H as r Hr. apply at_index_Ok in Hr.
    bind_inv H as ret1 Hret1.
    assert (length r = length ret) as Hlr.
    { rewrite Forall_forall in Hshape. apply Hshape.
      by eapply list_elem_of_lookup_2. }
    apply discount_step_lookup in Hret1 as [Hl1 Hstep]; [|done].
    destruct (IH ret1 ret') as [Hl Hrows]; [lia | by rewrite Hl1 | done |].
    split; [congruence|].
    intros i v Hv. destruct (Hrows i _ (Hstep i v Hv)) as (x & Hx & Heq).
    exists x. split; [done|]. rewrite Heq.
    rewrite (take_S_r _ _ _ Hr). unfold item_rewards.
    rewrite fmap_app. simpl. unfold discounted_sum. rewrite foldr_app. simpl.
    apply discounted_sum_Qeq. ring.
Qed.

(** X14. With reward vectors of one entry per batch item, the return that
    the backward pass holds at the end is, for every item, its discounted
    return in Bellman form: [r_0 + g*(r_1 + g*(... + g*v))] over the item's
    rewards in the order of the timesteps, [v] being the value the pass
    started from. *)
Theorem a2c_backward_discounted_sum (C : Collaborators) (args : Args)
    (fb : string) (st : LoopState C) (w w' : World C)
    (ret ret' : list Q) (rl_loss rl_loss' total total' : Q) :
  Forall (λ r : list Q, length r = length ret) (rewards st) →
  a2c_backward C args fb st (reverse (seq 0 (length (rewards st)))) w ret
    rl_loss total = Ok (w', ret', rl_loss', total') →
  length ret' = length ret ∧
  ∀ i v, ret !! i = Some v →
    ∃ x, ret' !! i = Some x ∧
         (x == discounted_sum (gamma args) v (item_rewards i (rewards st)))%Q.
Proof.
  intros Hshape H. apply a2c_backward_return in H.
  destruct (discounted_return_closed_form _ _ _ _ _ (Nat.le_refl _) Hshape H)
    as [Hlen Hrows].
  split; [done|]. intros i v Hv.
  destruct (Hrows i v Hv) as (x & Hx & Heq).
  exists x. split; [done|]. by rewrite firstn_all in Heq.
Qed.

Lemma a2c_backward_discounted_sum_witness :
  ∃ (w' : World toy) (x rl_loss total : Q),
    a2c_backward toy toy_args "teacher" one_item_state
      (reverse (seq 0 (length (rewards one_item_state)))) (0 : World toy)
      [0.25%Q] 0 0
    = Ok (w', [x], rl_loss, total) ∧
    (x == 1.0 + 0.9 * (- 1.0 + 0.9 * (2.0 + 0.9 * 0.25)))%Q.
Proof.
  destruct (a2c_backward toy toy_args "teacher" one_item_state
              (reverse (seq 0 (length (rewards one_item_state))))
              (0 : World toy) [0.25%Q] 0 0)
    as [[[[w' ret] rl_loss] total]|e] eqn:H; [|vm_compute in H; discriminate].
  destruct (a2c_backward_discounted_sum toy toy_args "teacher" one_item_state
              (0 : World toy) w' [0.25%Q] ret 0 rl_loss 0 total
              ltac:(repeat constructor) H) as [Hlen Hrows].
  destruct (Hrows 0 0.25%Q eq_refl) as (x & Hx & Heq).
  destruct ret as [|x' [|]]; [discriminate Hlen | | discriminate Hlen].
  injection Hx as ->.
  exists w', x, rl_loss, total. split; [reflexivity | exact Heq].
Defined.

(** ** A whole rollout *)

(** What a successful call of [rollout] went through. *)
Lemma rollout_run_inv (C : Collaborators) (args : Args) (ag : Agent C)
    (train_ml train_dis_l train_dis_c : option Q) (att_drop_rate : Q)
    (train_rl reset : bool) (o : Outcome C) :
  rollout_run C args ag train_ml train_dis_l train_dis_c att_drop_rate
    train_rl reset = Ok o →
  let rl :=
    if String.eqb (feedback ag) "teacher" || String.eqb (feedback ag) "argmax"
    then false else train_rl in
  let obs := first_obs C ag reset in
  ∃ (sb : SortedBatch) (perm_obs : list Observation) (w0 w' : World C)
    (language_features : Emb C) (st0 st : LoopState C) (dis_loss_l : Q)
    (loss1 loss2 loss4 : PyNum),
    _sort_batch C obs = Ok sb ∧
    at_index_all obs (perm_idx sb) = Ok perm_obs ∧
    initial_state C (episode_len ag) (length obs) w0 perm_obs = Ok st0 ∧
    rollout_loop C args (feedback ag) rl (length obs) sb language_features
      att_drop_rate (episode_len ag) 0 st0 = Ok st ∧
    (if rl then
       ∃ ret rl_loss,
         a2c C args (feedback ag) (length obs) sb language_features
           att_drop_rate st = Ok (w', ret, rl_loss) ∧
         loss1 = py_add (loss ag) (PyTensor rl_loss) ∧
         out_rl_loss o = Some rl_loss
     else loss1 = loss ag ∧ out_rl_loss o = None) ∧
    match train_ml with
    | Some k =>
        ∃ x, ml_loss st = PyTensor x ∧
             loss2 = py_add loss1
                       (PyTensor (x * k / inject_Z (Z.of_nat (length obs))))
    | None => loss2 = loss1
    end ∧
    match train_dis_c with
    | Some k =>
        ∃ d, dis_loss_c st = Some d ∧
             loss4 = py_add (match train_dis_l with
                             | Some k' => py_add loss2 (PyTensor (dis_loss_l * k'))
                             | None => loss2
                             end) (PyTensor (d * k))
    | None => loss4 = match train_dis_l with
                      | Some k' => py_add loss2 (PyTensor (dis_loss_l * k'))
                      | None => loss2
                      end
    end ∧
    match loss4 with
    | PyInt _ => losses (out_agent o) = losses ag ++ [0.0%Q]
    | PyFloat _ => False
    | PyTensor x =>
        episode_len ag ≠ 0 ∧
        losses (out_agent o)
        = losses ag ++ [(x / inject_Z (Z.of_nat (episode_len ag)))%Q]
    end ∧
    loss (out_agent o) = loss4 ∧
    feedback (out_agent o) = feedback ag ∧
    episode_len (out_agent o) = episode_len ag ∧
    out_traj o = traj st ∧ out_rewards o = rewards st ∧ out_masks o = masks st.
Proof.
  intros H. cbv zeta. unfold rollout_run in H. unfold first_obs.
  set (rl := if String.eqb (feedback ag) "teacher"
                || String.eqb (feedback ag) "argmax" then false else train_rl) in *.
  assert (∃ w obs, (if reset then env_reset C (env ag)
                    else (env ag, env_get_obs C (env ag))) = (w, obs)
                   ∧ obs = (if reset then (env_reset C (env ag)).2
                            else env_get_obs C (env ag))) as (w & obs & Hobs & Hobs').
  { destruct reset; [destruct (env_reset C (env ag)) as [w obs]|]; by eexists _, _. }
  rewrite Hobs in H. rewrite <- Hobs'. clear Hobs Hobs'.
  bind_inv H as sb Hsb. bind_inv H as perm_obs Hperm.
  destruct (vln_bert_language C w _) as [w1 text_embeds].
  destruct (rand_like C w1 _) as [w2 noise].
  destruct (vln_bert_language C w2 _) as [w3 text_embeds_drop].
  bind_inv H as st0 Hst0. bind_inv H as st Hloop.
  bind_inv H as [[w' loss1] rlt] Hrl.
  bind_inv H as loss2 Hml. bind_inv H as loss4 Hdc.
  bind_inv H as losses' Hlosses. injection H as <-. simpl.
  eexists sb, perm_obs, w3, w', text_embeds, st0, st, _, loss1, loss2, loss4.
  split_and!; try done.
  - destruct rl.
    + bind_inv Hrl as [[w'' ret] rl_loss] Ha2c. injection Hrl as <- <- <-.
      by exists ret, rl_loss.
    + by injection Hrl as _ <- <-.
  - destruct train_ml as [k|]; [|by injection Hml as <-].
    bind_inv Hml as x Hitem. injection Hml as <-.
    destruct (ml_loss st) as [n|y|y]; [done | done |].
    exists y. split; [done|]. simpl in Hitem. by injection Hitem as <-.
  - destruct train_dis_c as [k|]; [|by injection Hdc as <-].
    destruct (dis_loss_c st) as [d|]; [|done]. injection Hdc as <-.
    by exists d.
  - destruct loss4 as [n|y|y].
    + by injection Hlosses as <-.
    + by bind_inv Hlosses as x Hx.
    + bind_inv Hlosses as x Hx. injection Hx as <-.
      destruct (episode_len ag =? 0) eqn:Hlen; [done|].
      apply Nat.eqb_neq in Hlen. by injection Hlosses as <-.
Qed.

Lemma timestep_traj (C : Collaborators) (args : Args) (fb : string)
    (train_rl : bool) (batch_size : nat) (sb : SortedBatch)
    (language_features : Emb C) (att_drop_rate : Q) (t : nat)
    (st st' : LoopState C) :
  timestep C args fb train_rl batch_size sb language_features att_drop_rate t st
  = Ok st' →
  Forall2 (λ tr tr', traj_instr_id tr' = traj_instr_id tr ∧
                     ∃ rest, path tr' = path tr ++ rest ∧ length rest ≤ 1)
    (traj st) (traj st').
Proof.
  intros H.
  apply timestep_inv in H
    as (leng & vo & vt & logit & target & a_t & cpu & w & w1 & h_t
        & _ & _ & _ & Hact & _).
  apply make_equiv_action_rows in Hact as [Hlen Hrows].
  apply Forall2_same_length_lookup. split; [done|].
  intros i tr tr' Hi Hi'.
  destruct (Hrows i tr Hi) as (tr'' & Htr'' & Hid & Hsame & Hmove).
  rewrite Hi' in Htr''. injection Htr'' as <-. split; [done|].
  destruct (decide (length (perm_idx sb) ≤ i ∨ cpu !! i = Some (-1)%Z))
    as [Hstay|Hgo].
  - rewrite (Hsame Hstay). exists []. split; [by rewrite app_nil_r | simpl; lia].
  - destruct Hmove as [s Hs]; [lia | naive_solver |].
    exists [s]. split; [done | simpl; lia].
Qed.

Lemma rollout_loop_traj (C : Collaborators) (args : Args) (fb : string)
    (train_rl : bool) (batch_size : nat) (sb : SortedBatch)
    (language_features : Emb C) (att_drop_rate : Q) (fuel : nat) :
  ∀ (t : nat) (st st' : LoopState C),
    rollout_loop C args fb train_rl batch_size sb language_features
      att_drop_rate fuel t st = Ok st' →
    Forall2 (λ tr tr', traj_instr_id tr' = traj_instr_id tr ∧
                       ∃ rest, path tr' = path tr ++ rest ∧ length rest ≤ fuel)
      (traj st) (traj st').
Proof.
  induction fuel as [|fuel IH]; intros t st st' H; simpl in H.
  - injection H as <-. apply Forall_Forall2_diag, Forall_forall.
    intros tr _. split; [done|]. exists []. split; [by rewrite app_nil_r | simpl; lia].
  - bind_inv H as st1 Hstep. apply timestep_traj in Hstep.
    destruct (forallb id (ended st1)).
    + injection H as <-. eapply Forall2_impl; [exact Hstep|].
      intros tr tr' (Hid & rest & Hp & Hl). split; [done|].
      exists rest. split; [done | lia].
    + apply IH in H.
      apply Forall2_same_length_lookup. split.
      { rewrite (Forall2_length _ _ _ Hstep). by eapply Forall2_length. }
      intros i tr tr' Hi Hi'.
      destruct (Forall2_lookup_l _ _ _ _ _ Hstep Hi)
        as (tr1 & Hi1 & Hid1 & rest1 & Hp1 & Hl1).
      destruct (Forall2_lookup_lr _ _ _ _ _ _ H Hi1 Hi')
        as (Hid2 & rest2 & Hp2 & Hl2).
      split; [congruence|]. exists (rest1 ++ rest2).
      rewrite Hp2, Hp1, length_app, app_assoc. split; [done | lia].
Qed.

Lemma initial_state_traj (C : Collaborators) (episode_len batch_size : nat)
    (w : World C) (perm_obs : list Observation) (st : LoopState C) :
  initial_state C episode_len batch_size w perm_obs = Ok st →
  traj st = (λ ob, {| traj_instr_id := instr_id ob;
                      path := [(viewpoint ob, heading ob, elevation ob)] |})
            <$> perm_obs ∧
  ml_loss st = PyFloat 0 ∧ dis_loss_c st = None ∧ last_t st = None.
Proof.
  unfold initial_state. intros H.
  bind_inv H as ld Hld. bind_inv H as ln Hln. by injection H as <-.
Qed.

(** X15. [rollout] returns one trajectory per observation of the sorted
    batch, in its order: it carries the observation's instruction id, its
    path starts at the observation's viewpoint, heading and elevation, and
    at most [episode_len] entries follow. *)
Theorem rollout_trajectories (C : Collaborators) (args : Args) (ag : Agent C)
    (train_ml train_dis_l train_dis_c : option Q) (att_drop_rate : Q)
    (train_rl reset : bool) (o : Outcome C) :
  rollout_run C args ag train_ml train_dis_l train_dis_c att_drop_rate
    train_rl reset = Ok o →
  ∃ sb perm_obs,
    _sort_batch C (first_obs C ag reset) = Ok sb ∧
    at_index_all (first_obs C ag reset) (perm_idx sb) = Ok perm_obs ∧
    Forall2 (λ ob tr,
               traj_instr_id tr = instr_id ob ∧
               ∃ rest, path tr = (viewpoint ob, heading ob, elevation ob) :: rest
                       ∧ length rest ≤ episode_len ag)
      perm_obs (out_traj o).
Proof.
  intros H. apply rollout_run_inv in H
    as (sb & perm_obs & w0 & w' & lf & st0 & st & dl & l1 & l2 & l4
        & Hsb & Hperm & Hst0 & Hloop & _ & _ & _ & _ & _ & _ & _ & Htraj & _).
  exists sb, perm_obs. split_and!; [done | done |].
  apply initial_state_traj in Hst0 as (Ht0 & _).
  apply rollout_loop_traj in Hloop. rewrite Ht0, <- Htraj in Hloop.
  apply Forall2_fmap_l in Hloop.
  eapply Forall2_impl; [exact Hloop|].
  intros ob tr (Hid & rest & Hpath & Hlen). simpl in *.
  split; [done|]. by exists rest.
Qed.

Lemma rollout_trajectories_witness :
  ∃ o : Outcome toy,
    rollout_run toy toy_args (toy_agent "teacher") (Some 1%Q) (Some 1%Q)
      (Some 1%Q) 0.5 false true = Ok o ∧
    Forall (λ tr, 1 ≤ length (path tr) ≤ 4) (out_traj o).
Proof.
  assert (is_Ok_bool
            (rollout_run toy toy_args (toy_agent "teacher") (Some 1%Q)
               (Some 1%Q) (Some 1%Q) 0.5 false true) = true) as Hok
    by (vm_compute; reflexivity).
  destruct (rollout_run toy toy_args (toy_agent "teacher") (Some 1%Q)
              (Some 1%Q) (Some 1%Q) 0.5 false true) as [o|] eqn:Ho;
    [|discriminate Hok].
  exists o. split; [reflexivity|].
  destruct (rollout_trajectories _ _ _ _ _ _ _ _ _ _ Ho)
    as (sb & perm_obs & _ & _ & Hall).
  eapply Forall2_Forall_r; [exact Hall|].
  apply Forall_forall. intros ob _ tr (_ & rest & -> & Hlen).
  simpl in *. lia.
Defined.

Lemma rollout_run_agent (C : Collaborators) (args : Args) (ag : Agent C)
    (train_ml train_dis_l train_dis_c : option Q) (att_drop_rate : Q)
    (train_rl reset : bool) (o : Outcome C) :
  rollout_run C args ag train_ml train_dis_l train_dis_c att_drop_rate
    train_rl reset = Ok o →
  (∃ x, losses (out_agent o) = losses ag ++ [x]) ∧
  feedback (out_agent o) = feedback ag ∧
  episode_len (out_agent o) = episode_len ag ∧
  (∀ x, loss (out_agent o) ≠ PyFloat x) ∧
  (train_ml = None → train_dis_l = None → train_dis_c = None →
   feedback ag = "teacher" ∨ feedback ag = "argmax" ∨ train_rl = false →
   loss (out_agent o) = loss ag ∧
   (∀ n, loss ag = PyInt n → losses (out_agent o) = losses ag ++ [0.0%Q])).
Proof.
  intros H. apply rollout_run_inv in H
    as (sb & perm_obs & w0 & w' & lf & st0 & st & dl & l1 & l2 & l4
        & _ & _ & _ & _ & Hrl & Hml & Hdc & Hlosses & Hloss & Hfb & Hlen & _).
  split_and!; [| done | done | |].
  - destruct l4 as [n|y|y]; [eexists; exact Hlosses | done |].
    destruct Hlosses as [_ Hl]. eexists. exact Hl.
  - intros x Hx. rewrite Hloss in Hx. rewrite Hx in Hlosses. exact Hlosses.
  - intros -> -> -> Hoff.
    assert ((if String.eqb (feedback ag) "teacher"
                || String.eqb (feedback ag) "argmax" then false else train_rl)
            = false) as Heff.
    { destruct Hoff as [-> | [-> | ->]]; [done | done |]. by destruct (_ || _). }
    rewrite Heff in Hrl. destruct Hrl as [-> _]. subst l2 l4.
    split; [done|]. intros n Hn. by rewrite Hn in Hlosses.
Qed.

Lemma py_add_tensor (a : PyNum) (y : Q) : ∃ x, py_add a (PyTensor y) = PyTensor x.
Proof. destruct a; by eexists. Qed.

Lemma rollout_run_loss_tensor (C : Collaborators) (args : Args) (ag : Agent C)
    (train_ml train_dis_c : option Q) (k att_drop_rate : Q)
    (train_rl reset : bool) (o : Outcome C) :
  rollout_run C args ag train_ml (Some k) train_dis_c att_drop_rate
    train_rl reset = Ok o →
  ∃ x, loss (out_agent o) = PyTensor x.
Proof.
  intros H. apply rollout_run_inv in H
    as (sb & perm_obs & w0 & w' & lf & st0 & st & dl & l1 & l2 & l4
        & _ & _ & _ & _ & _ & _ & Hdc & _ & Hloss & _).
  rewrite Hloss. destruct train_dis_c as [k'|].
  - destruct Hdc as (d & _ & ->). apply py_add_tensor.
  - rewrite Hdc. apply py_add_tensor.
Qed.

Lemma rollout_inv (C : Collaborators) (args : Args) (ag ag' : Agent C)
    (train_ml train_dis_l train_dis_c : option Q) (att_drop_rate : Q)
    (train_rl reset : bool) (trajs : list Traj) :
  rollout C args ag train_ml train_dis_l train_dis_c att_drop_rate train_rl
    reset = Ok (trajs, ag') →
  ∃ o, rollout_run C args ag train_ml train_dis_l train_dis_c att_drop_rate
         train_rl reset = Ok o ∧ trajs = out_traj o ∧ ag' = out_agent o.
Proof.
  unfold rollout. intros H.
  destruct (rollout_run _ _ _ _ _ _ _ _ _) as [o|e]; [|done].
  injection H as <- <-. by exists o.
Qed.

(** X16. A call of [rollout] that returns has appended exactly one entry
    to [self.losses], left the feedback mode and the episode length as they
    were, and left in [self.loss] a Python int or a torch scalar, never a
    Python float. *)
Theorem rollout_bookkeeping (C : Collaborators) (args : Args) (ag : Agent C)
    (train_ml train_dis_l train_dis_c : option Q) (att_drop_rate : Q)
    (train_rl reset : bool) (o : Outcome C) :
  rollout_run C args ag train_ml train_dis_l train_dis_c att_drop_rate
    train_rl reset = Ok o →
  (∃ x, losses (out_agent o) = losses ag ++ [x]) ∧
  feedback (out_agent o) = feedback ag ∧
  episode_len (out_agent o) = episode_len ag ∧
  (∀ x, loss (out_agent o) ≠ PyFloat x).
Proof.
  intros H. apply rollout_run_agent in H as (Hx & Hfb & Hlen & Hfloat & _).
  done.
Qed.

Lemma rollout_bookkeeping_witness :
  ∃ o : Outcome toy,
    rollout_run toy toy_args (toy_agent "teacher") (Some 1%Q) (Some 1%Q)
      (Some 1%Q) 0.5 false true = Ok o ∧
    ∃ x, losses (out_agent o) = [] ++ [x].
Proof.
  assert (is_Ok_bool
            (rollout_run toy toy_args (toy_agent "teacher") (Some 1%Q)
               (Some 1%Q) (Some 1%Q) 0.5 false true) = true) as Hok
    by (vm_compute; reflexivity).
  destruct (rollout_run toy toy_args (toy_agent "teacher") (Some 1%Q)
              (Some 1%Q) (Some 1%Q) 0.5 false true) as [o|] eqn:Ho;
    [|discriminate Hok].
  exists o. split; [reflexivity|].
  destruct (rollout_bookkeeping _ _ _ _ _ _ _ _ _ _ Ho) as (Hx & _).
  exact Hx.
Defined.

(** X17. A rollout without reinforcement and without any loss weight
    leaves [self.loss] as it found it; when that is a Python int, as
    [test] and [train] set it, the entry appended to [self.losses] is 0.0. *)
Theorem rollout_no_loss_terms (C : Collaborators) (args : Args) (ag : Agent C)
    (att_drop_rate : Q) (train_rl reset : bool) (o : Outcome C) :
  feedback ag = "teacher" ∨ feedback ag = "argmax" ∨ train_rl = false →
  rollout_run C args ag None None None att_drop_rate train_rl reset = Ok o →
  loss (out_agent o) = loss ag ∧
  (∀ n, loss ag = PyInt n → losses (out_agent o) = losses ag ++ [0.0%Q]).
Proof.
  intros Hoff H. apply rollout_run_agent in H as (_ & _ & _ & _ & Hnone).
  by apply Hnone.
Qed.

Lemma rollout_no_loss_terms_witness :
  ∃ o : Outcome toy,
    rollout_run toy toy_args (toy_agent "argmax") None None None 0.5 true true
    = Ok o ∧
    loss (out_agent o) = PyInt 0 ∧ losses (out_agent o) = [0.0%Q].
Proof.
  assert (is_Ok_bool
            (rollout_run toy toy_args (toy_agent "argmax") None None None 0.5
               true true) = true) as Hok
    by (vm_compute; reflexivity).
  destruct (rollout_run toy toy_args (toy_agent "argmax") None None None 0.5
              true true) as [o|] eqn:Ho; [|discriminate Hok].
  exists o. split; [reflexivity|].
  destruct (rollout_no_loss_terms toy toy_args (toy_agent "argmax") 0.5 true
              true o (or_intror (or_introl eq_refl)) Ho) as [Hloss Hlosses].
  split; [exact Hloss | exact (Hlosses 0%Z eq_refl)].
Defined.

(** X18. After [zero_grad], which sets [self.loss] to the float 0., a
    rollout without reinforcement and without any loss weight does not
    return: the guard of line 515 only recognises the int 0. *)
Theorem rollout_after_zero_grad (C : Collaborators) (args : Args)
    (hook : World C → World C) (ag : Agent C) (att_drop_rate : Q)
    (train_rl reset : bool) :
  feedback ag = "teacher" ∨ feedback ag = "argmax" ∨ train_rl = false →
  ∃ e, rollout_run C args (zero_grad hook ag) None None None att_drop_rate
         train_rl reset = Err e.
Proof.
  intros Hoff.
  destruct (rollout_run C args (zero_grad hook ag) None None None att_drop_rate
              train_rl reset) as [o|e] eqn:H; [|by exists e].
  exfalso.
  apply rollout_run_agent in H as (_ & _ & _ & Hfloat & Hnone).
  destruct (Hnone eq_refl eq_refl eq_refl Hoff) as [Hloss _].
  by apply (Hfloat 0%Q).
Qed.

Lemma rollout_after_zero_grad_witness :
  rollout_run toy toy_args (zero_grad (λ w : World toy, w) (toy_agent "argmax")) None None
    None 0.5 true true = Err AttributeError.
Proof.
  destruct (rollout_after_zero_grad toy toy_args (λ w : World toy, w) (toy_agent "argmax")
              0.5 true true (or_intror (or_introl eq_refl))) as [e He].
  rewrite He. f_equal.
  assert (rollout_run toy toy_args (zero_grad (λ w : World toy, w) (toy_agent "argmax"))
            None None None 0.5 true true = Err AttributeError) as H
    by (vm_compute; reflexivity).
  rewrite H in He. injection He as <-. reflexivity.
Defined.

(** X19. With [episode_len = 0] no timestep runs, and [rollout] returns
    only as an evaluation without loss: reinforcement is off, no weight is
    given, [self.loss] is a Python int, and every trajectory is its
    starting point alone. *)
Theorem rollout_zero_timesteps (C : Collaborators) (args : Args) (ag : Agent C)
    (train_ml train_dis_l train_dis_c : option Q) (att_drop_rate : Q)
    (train_rl reset : bool) (o : Outcome C) :
  episode_len ag = 0 →
  rollout_run C args ag train_ml train_dis_l train_dis_c att_drop_rate
    train_rl reset = Ok o →
  train_ml = None ∧ train_dis_l = None ∧ train_dis_c = None ∧
  out_rl_loss o = None ∧ (∃ n, loss ag = PyInt n) ∧
  Forall (λ tr, length (path tr) = 1) (out_traj o).
Proof.
  intros Hlen H. apply rollout_run_inv in H
    as (sb & perm_obs & w0 & w' & lf & st0 & st & dl & l1 & l2 & l4
        & _ & _ & Hst0 & Hloop & Hrl & Hml & Hdc & Hlosses & _ & _ & _
        & Htraj & _).
  rewrite Hlen in Hloop. simpl in Hloop. injection Hloop as <-.
  apply initial_state_traj in Hst0 as (Ht0 & Hml0 & Hdc0 & Hlast).
  assert (out_rl_loss o = None ∧ l1 = loss ag) as [Hnone ->].
  { match type of Hrl with (if ?b then _ else _) => destruct b end.
    - destruct Hrl as (ret & x & Ha2c & _). unfold a2c in Ha2c.
      by rewrite Hlast in Ha2c.
    - by destruct Hrl. }
  destruct train_ml as [k|].
  { destruct Hml as (x & Hx & _). by rewrite Hml0 in Hx. }
  subst l2.
  destruct train_dis_c as [k|].
  { destruct Hdc as (d & Hd & _). by rewrite Hdc0 in Hd. }
  destruct train_dis_l as [k|].
  { subst l4. unfold py_add in Hlosses.
    destruct (loss ag); by destruct Hlosses. }
  subst l4. split_and!; try done.
  - destruct (loss ag) as [n|y|y]; [by exists n | done | by destruct Hlosses].
  - rewrite Htraj, Ht0. apply Forall_fmap, Forall_forall. by intros ob _.
Qed.

Lemma rollout_zero_timesteps_witness :
  ∃ o : Outcome toy,
    rollout_run toy toy_args (toy_agent_steps 0 "argmax") None None None 0.5
      true true = Ok o ∧
    Forall (λ tr, length (path tr) = 1) (out_traj o).
Proof.
  assert (is_Ok_bool
            (rollout_run toy toy_args (toy_agent_steps 0 "argmax") None None
               None 0.5 true true) = true) as Hok
    by (vm_compute; reflexivity).
  destruct (rollout_run toy toy_args (toy_agent_steps 0 "argmax") None None
              None 0.5 true true) as [o|] eqn:Ho; [|discriminate Hok].
  exists o. split; [reflexivity|].
  destruct (rollout_zero_timesteps toy toy_args (toy_agent_steps 0 "argmax")
              None None None 0.5 true true o eq_refl Ho)
    as (_ & _ & _ & _ & _ & Hall).
  exact Hall.
Defined.

(** ** The primitive moves of the actuator *)

Lemma run_calls_replicate (S : Simulator) (call : SimCall) (n : nat) (sim : Sim S) :
  run_calls S sim (replicate n call)
  = Nat.iter n (λ s, makeAction S s call) sim.
Proof.
  unfold run_calls. revert sim. induction n as [|n IH]; intros sim; [done|].
  simpl. rewrite IH. clear IH. induction n as [|n IH]; simpl; [done|].
  by rewrite IH.
Qed.

Lemma run_calls_app (S : Simulator) (sim : Sim S) (c1 c2 : list SimCall) :
  run_calls S sim (c1 ++ c2) = run_calls S (run_calls S sim c1) c2.
Proof. unfold run_calls. by rewrite foldl_app. Qed.

Lemma turn_right_spec (S : Simulator) (fuel : nat) (trg_point : Z) :
  ∀ sim sim' : Sim S,
    turn_right S fuel trg_point sim = Some sim' →
    ∃ turns, turns ≤ fuel ∧
             sim' = run_calls S sim (replicate turns (Adjust (0, 1, 0)%Z)) ∧
             s_viewIndex (getState S sim') = trg_point ∧
             ∀ j, j < turns →
               s_viewIndex (getState S
                 (run_calls S sim (replicate j (Adjust (0, 1, 0)%Z))))
               ≠ trg_point.
Proof.
  induction fuel as [|fuel IH]; intros sim sim' H; simpl in H.
  - destruct (_ =? _)%Z eqn:Heq; [|done]. injection H as <-.
    apply Z.eqb_eq in Heq. exists 0. split_and!; [lia | done | done |].
    intros j Hj. lia.
  - destruct (_ =? _)%Z eqn:Heq.
    + injection H as <-. apply Z.eqb_eq in Heq.
      exists 0. split_and!; [lia | done | done |]. intros j Hj. lia.
    + apply Z.eqb_neq in Heq.
      apply IH in H as (turns & Hle & -> & Hview & Hmin).
      exists (Datatypes.S turns). split_and!; [lia | done | done |].
      intros [|j] Hj; [done|]. apply (Hmin j). lia.
Qed.

(** X20. When the primitive moves of an item succeed, the simulator has
    been sent, in this order: tilts up or tilts down (never both), as many
    as the levels of twelve views between the current and the target view;
    right turns, as few as bring the target view index up; one move to the
    candidate's navigable-location index. The move is made only when the
    viewpoint at that index is the candidate's, and the state returned is
    the one read back after it. *)
Theorem navigate_calls (S : Simulator) (fuel : nat) (sim sim' : Sim S)
    (ob : Observation) (c : Candidate) (state : string * Q * Q) :
  navigate S fuel sim ob c = Some (Ok (sim', state)) →
  let ups := Z.to_nat (pointId c / 12 - viewIndex ob / 12) in
  let downs := Z.to_nat (viewIndex ob / 12 - pointId c / 12) in
  ∃ turns facing,
    turns ≤ fuel ∧ (ups = 0 ∨ downs = 0) ∧
    facing = run_calls S sim
               (replicate ups (Adjust (0, 0, 1)%Z)
                ++ replicate downs (Adjust (0, 0, -1)%Z)
                ++ replicate turns (Adjust (0, 1, 0)%Z)) ∧
    (∀ j, j < turns →
       s_viewIndex (getState S (run_calls S sim
         (replicate ups (Adjust (0, 0, 1)%Z)
          ++ replicate downs (Adjust (0, 0, -1)%Z)
          ++ replicate j (Adjust (0, 1, 0)%Z)))) ≠ pointId c) ∧
    s_viewIndex (getState S facing) = pointId c ∧
    py_index (s_navigableLocations (getState S facing)) (idx c)
    = Ok (viewpointId c) ∧
    sim' = makeAction S facing (GoTo (idx c)) ∧
    state = (s_viewpointId (getState S sim'), s_heading (getState S sim'),
             s_elevation (getState S sim')).
Proof.
  intros H ups downs. unfold navigate in H. cbv zeta in H.
  fold ups downs in H.
  set (tilted := Nat.iter downs _ (Nat.iter ups _ sim)) in H.
  assert (tilted = run_calls S sim
            (replicate ups (Adjust (0, 0, 1)%Z)
             ++ replicate downs (Adjust (0, 0, -1)%Z))) as Htilted.
  { by rewrite run_calls_app, !run_calls_replicate. }
  destruct (turn_right S fuel (pointId c) tilted) as [facing|] eqn:Hturn;
    [|done].
  simpl in H. injection H as H.
  apply turn_right_spec in Hturn as (turns & Hle & -> & Hview & Hmin).
  bind_inv H as reached Hreached.
  destruct (String.eqb (viewpointId c) reached) eqn:Heq; [|done].
  apply String.eqb_eq in Heq as <-. injection H as <- <-.
  exists turns, (run_calls S tilted (replicate turns (Adjust (0, 1, 0)%Z))).
  split_and!; try done.
  - subst ups downs. lia.
  - by rewrite Htilted, <- run_calls_app, <- app_assoc.
  - intros j Hj. rewrite app_assoc, run_calls_app, <- Htilted. by apply Hmin.
Qed.

Lemma navigate_calls_witness :
  ∃ turns,
    navigate toy_simulator 12 (3%Z : Sim toy_simulator) (obs_with_teacher "a")
      {| viewpointId := "a"; pointId := 25; idx := 1; feature := [] |}
    = Some (Ok ((25%Z : Sim toy_simulator), ("here", 0%Q, 0%Q))) ∧
    turns ≤ 12 ∧
    run_calls toy_simulator (3%Z : Sim toy_simulator)
      (replicate 2 (Adjust (0, 0, 1)%Z) ++ replicate 0 (Adjust (0, 0, -1)%Z)
       ++ replicate turns (Adjust (0, 1, 0)%Z)) = 25%Z.
Proof.
  assert (navigate toy_simulator 12 (3%Z : Sim toy_simulator)
            (obs_with_teacher "a")
            {| viewpointId := "a"; pointId := 25; idx := 1; feature := [] |}
          = Some (Ok ((25%Z : Sim toy_simulator), ("here", 0%Q, 0%Q)))) as H
    by (vm_compute; reflexivity).
  destruct (navigate_calls toy_simulator _ _ _ _ _ _ H)
    as (turns & facing & Hle & _ & Hfacing & _ & Hview & _).
  exists turns. split_and!; [exact H | exact Hle |].
  subst facing. exact Hview.
Defined.

(** X21. The primitive moves of an item never end in a move to another
    viewpoint than the candidate's: when the viewpoint at the candidate's
    navigable-location index is a different one the result is an
    [AssertionError], when there is no such index an [IndexError]. *)
Theorem navigate_mismatch (S : Simulator) (fuel : nat) (sim : Sim S)
    (ob : Observation) (c : Candidate) (e : PyError) :
  navigate S fuel sim ob c = Some (Err e) →
  ∃ turns facing,
    facing = run_calls S sim
               (replicate (Z.to_nat (pointId c / 12 - viewIndex ob / 12))
                  (Adjust (0, 0, 1)%Z)
                ++ replicate (Z.to_nat (viewIndex ob / 12 - pointId c / 12))
                     (Adjust (0, 0, -1)%Z)
                ++ replicate turns (Adjust (0, 1, 0)%Z)) ∧
    s_viewIndex (getState S facing) = pointId c ∧
    ((e = AssertionError ∧
      ∃ reached, py_index (s_navigableLocations (getState S facing)) (idx c)
                 = Ok reached ∧ reached ≠ viewpointId c)
     ∨ (e = IndexError ∧
        py_index (s_navigableLocations (getState S facing)) (idx c)
        = Err IndexError)).
Proof.
  intros H. unfold navigate in H. cbv zeta in H.
  set (tilted := Nat.iter _ _ (Nat.iter _ _ sim)) in H.
  assert (tilted = run_calls S sim
            (replicate (Z.to_nat (pointId c / 12 - viewIndex ob / 12))
               (Adjust (0, 0, 1)%Z)
             ++ replicate (Z.to_nat (viewIndex ob / 12 - pointId c / 12))
                  (Adjust (0, 0, -1)%Z))) as Htilted.
  { by rewrite run_calls_app, !run_calls_replicate. }
  destruct (turn_right S fuel (pointId c) tilted) as [facing|] eqn:Hturn;
    [|done].
  simpl in H. injection H as H.
  apply turn_right_spec in Hturn as (turns & Hle & -> & Hview & Hmin).
  exists turns, (run_calls S tilted (replicate turns (Adjust (0, 1, 0)%Z))).
  split_and!; [by rewrite Htilted, <- run_calls_app, <- app_assoc | done |].
  destruct (py_index _ (idx c)) as [reached|e'] eqn:Hreached; simpl in H.
  - destruct (String.eqb (viewpointId c) reached) eqn:Heq; [done|].
    apply String.eqb_neq in Heq. injection H as <-. left.
    split; [done|]. exists reached. split; [done | congruence].
  - injection H as <-. right.
    assert (e' = IndexError) as ->; [|done].
    unfold py_index, at_index in Hreached.
    repeat case_match; congruence.
Qed.

Lemma navigate_mismatch_witness :
  navigate toy_simulator 12 (3%Z : Sim toy_simulator) (obs_with_teacher "a")
    {| viewpointId := "zz"; pointId := 25; idx := 1; feature := [] |}
  = Some (Err AssertionError) ∧
  ∃ turns,
    run_calls toy_simulator (3%Z : Sim toy_simulator)
      (replicate 2 (Adjust (0, 0, 1)%Z) ++ replicate 0 (Adjust (0, 0, -1)%Z)
       ++ replicate turns (Adjust (0, 1, 0)%Z)) = 25%Z.
Proof.
  assert (navigate toy_simulator 12 (3%Z : Sim toy_simulator)
            (obs_with_teacher "a")
            {| viewpointId := "zz"; pointId := 25; idx := 1; feature := [] |}
          = Some (Err AssertionError)) as H
    by (vm_compute; reflexivity).
  split; [exact H|].
  destruct (navigate_mismatch toy_simulator _ _ _ _ _ H)
    as (turns & facing & Hfacing & Hview & _).
  exists turns. subst facing. exact Hview.
Defined.

(** ** The results of a test run *)

Lemma dict_get_set {V} (k k' : string) (v : V) (d : list (string * V)) :
  dict_get k (dict_set k' v d)
  = if String.eqb k' k then Some v else dict_get k d.
Proof.
  induction d as [|[k0 v0] d IH]; simpl; [done|].
  destruct (String.eqb_spec k0 k') as [->|Hne]; simpl.
  - by destruct (String.eqb_spec k' k).
  - rewrite IH. destruct (String.eqb_spec k0 k) as [->|Hne']; [|done].
    by destruct (String.eqb_spec k' k).
Qed.

Lemma dict_get_None {V} (k : string) (d : list (string * V)) :
  dict_get k d = None ↔ k ∉ d.*1.
Proof.
  induction d as [|[k0 v0] d IH]; simpl.
  - split; [intros _; apply not_elem_of_nil | done].
  - rewrite not_elem_of_cons, <- IH.
    destruct (String.eqb_spec k0 k) as [->|Hne].
    + split; [done | by intros [? _]].
    + split; [intros H; split; [congruence | done] | by intros [_ ?]].
Qed.

Lemma dict_get_Some {V} (k : string) (v : V) (d : list (string * V)) :
  dict_get k d = Some v → (k, v) ∈ d.
Proof.
  induction d as [|[k0 v0] d IH]; simpl; [done|].
  destruct (String.eqb_spec k0 k) as [->|Hne].
  - intros [= ->]. apply elem_of_cons. by left.
  - intros H. apply elem_of_cons. right. by apply IH.
Qed.

Lemma dict_get_app_l {V} (k : string) (v : V) (d d' : list (string * V)) :
  dict_get k d = Some v → dict_get k (d ++ d') = Some v.
Proof.
  induction d as [|[k0 v0] d IH]; simpl; [done|].
  by destruct (String.eqb k0 k).
Qed.

Lemma dict_set_new {V} (k : string) (v : V) (d : list (string * V)) :
  dict_get k d = None → dict_set k v d = d ++ [(k, v)].
Proof.
  induction d as [|[k0 v0] d IH]; simpl; [done|].
  destruct (String.eqb k0 k); [done|]. intros H. by rewrite IH.
Qed.

Lemma dict_set_keys {V} (k : string) (v : V) (d : list (string * V)) :
  (dict_set k v d).*1 = if dict_mem k d then d.*1 else d.*1 ++ [k].
Proof.
  unfold dict_mem. induction d as [|[k0 v0] d IH]; [done|].
  cbn [dict_set dict_get]. destruct (String.eqb k0 k); [done|].
  rewrite !fmap_cons, IH. by destruct (dict_get k d).
Qed.

Lemma dict_set_NoDup {V} (k : string) (v : V) (d : list (string * V)) :
  NoDup d.*1 → NoDup (dict_set k v d).*1.
Proof.
  intros Hd. rewrite dict_set_keys. unfold dict_mem.
  destruct (dict_get k d) eqn:Hk; [done|].
  apply NoDup_app. split_and!; [done | | apply NoDup_singleton].
  intros x Hx ->%list_elem_of_singleton. by apply dict_get_None in Hk.
Qed.

Lemma dict_set_Forall {V} (P : string * V → Prop) (k : string) (v : V)
    (d : list (string * V)) :
  Forall P d → P (k, v) → Forall P (dict_set k v d).
Proof.
  intros Hd Hkv. induction Hd as [|[k0 v0] d H0 Hd IH]; simpl.
  - by constructor.
  - destruct (String.eqb_spec k0 k) as [->|Hne]; by constructor.
Qed.

Lemma record_all_spec {C : Collaborators} (trajs : list Traj) :
  ∀ (ag : Agent C) (results : list (string * Path)),
    (record_all trajs ag results).2
    = foldl (λ r tr, dict_set (traj_instr_id tr) (path tr) r) results trajs
    ∧ feedback (record_all trajs ag results).1 = feedback ag
    ∧ losses (record_all trajs ag results).1 = losses ag
    ∧ episode_len (record_all trajs ag results).1 = episode_len ag
    ∧ (loss ag = PyInt 0 → loss (record_all trajs ag results).1 = PyInt 0).
Proof.
  induction trajs as [|tr trajs IH]; intros ag results; [done|].
  change (record_all (tr :: trajs) ag results)
    with (record_all trajs (set_loss_zero ag)
            (dict_set (traj_instr_id tr) (path tr) results)).
  destruct (IH (set_loss_zero ag)
              (dict_set (traj_instr_id tr) (path tr) results))
    as (H1 & H2 & H3 & H4 & Hloss).
  rewrite H1, H2, H3, H4. split_and!; try done. intros _. by apply Hloss.
Qed.

Lemma record_all_NoDup (trajs : list Traj) (results : list (string * Path)) :
  NoDup results.*1 →
  NoDup (foldl (λ r tr, dict_set (traj_instr_id tr) (path tr) r)
           results trajs).*1.
Proof.
  revert results. induction trajs as [|tr trajs IH]; intros results Hnd;
    simpl; [done|].
  by apply IH, dict_set_NoDup.
Qed.

Lemma record_new_cons {C : Collaborators} (tr : Traj) (trajs : list Traj)
    (ag : Agent C) (results : list (string * Path)) (looped : bool) :
  record_new (tr :: trajs) ag results looped
  = if dict_mem (traj_instr_id tr) results
    then record_new trajs ag results true
    else record_new trajs (set_loss_zero ag)
           (dict_set (traj_instr_id tr) (path tr) results) looped.
Proof. unfold record_new. simpl. by destruct (dict_mem _ _). Qed.

Lemma record_new_spec {C : Collaborators} (trajs : list Traj) :
  ∀ (ag ag' : Agent C) (results results' : list (string * Path))
    (looped looped' : bool),
    record_new trajs ag results looped = (ag', results', looped') →
    ∃ added,
      results' = results ++ added
      ∧ (NoDup results.*1 → NoDup results'.*1)
      ∧ Forall (λ kv, ∃ tr, tr ∈ trajs ∧ kv = entry_of tr) added
      ∧ (looped' = false → looped = false ∧ length added = length trajs)
      ∧ feedback ag' = feedback ag ∧ losses ag' = losses ag
      ∧ (loss ag = PyInt 0 → loss ag' = PyInt 0).
Proof.
  induction trajs as [|tr trajs IH];
    intros ag ag' results results' looped looped' H.
  - injection H as <- <- <-. exists []. rewrite app_nil_r.
    split_and!; try done.
  - rewrite record_new_cons in H. unfold dict_mem in H.
    destruct (dict_get (traj_instr_id tr) results) as [v|] eqn:Hk.
    + apply IH in H
        as (added & -> & Hnd & Hall & Hloop & Hfb & Hlosses & Hloss).
      exists added. split_and!; try done.
      * eapply Forall_impl; [exact Hall|]. intros kv (tr' & Hin & ->).
        exists tr'. split; [|done]. apply elem_of_cons. by right.
      * intros Hl. by destruct (Hloop Hl).
    + rewrite (dict_set_new _ _ _ Hk) in H. apply IH in H
        as (added & -> & Hnd & Hall & Hloop & Hfb & Hlosses & Hloss).
      exists (entry_of tr :: added). split_and!; try done.
      * by rewrite <- app_assoc.
      * intros Hr. apply Hnd. rewrite fmap_app. apply NoDup_app.
        split_and!; [done | | apply NoDup_singleton].
        intros x Hx ->%list_elem_of_singleton. by apply dict_get_None in Hk.
      * constructor.
        -- exists tr. split; [|done]. apply elem_of_cons. by left.
        -- eapply Forall_impl; [exact Hall|]. intros kv (tr' & Hin & ->).
           exists tr'. split; [|done]. apply elem_of_cons. by right.
      * intros Hl. destruct (Hloop Hl) as [-> Hlen]. split; [done|].
        simpl. by rewrite Hlen.
      * intros _. by apply Hloss.
Qed.

Lemma test_full_spec {C : Collaborators}
    (rollout_kwargs : Agent C → result (list Traj * Agent C)) (fuel : nat) :
  ∀ (ag ag' : Agent C) (results results' : list (string * Path)),
    test_full rollout_kwargs fuel ag results = Some (Ok (ag', results')) →
    ∃ added,
      results' = results ++ added
      ∧ (NoDup results.*1 → NoDup results'.*1)
      ∧ Forall (from_rollout rollout_kwargs) added.
Proof.
  induction fuel as [|fuel IH]; intros ag ag' results results' H; simpl in H;
    [done|].
  destruct (rollout_kwargs ag) as [[trajs ag1]|e] eqn:Hroll; [|done].
  destruct (record_new trajs ag1 results false) as [[ag2 results2] looped]
    eqn:Hrec.
  apply record_new_spec in Hrec as (added & -> & Hnd & Hall & _).
  assert (Forall (from_rollout rollout_kwargs) added) as Hadded.
  { eapply Forall_impl; [exact Hall|]. intros kv (tr & Hin & ->).
    by exists ag, trajs, ag1, tr. }
  destruct looped.
  - injection H as <- <-. by exists added.
  - apply IH in H as (added' & -> & Hnd' & Hall').
    exists (added ++ added'). split_and!.
    + by rewrite app_assoc.
    + intros Hr. by apply Hnd', Hnd.
    + by apply Forall_app.
Qed.

Lemma dict_set_key_elem {V} (k k' : string) (v : V) (d : list (string * V)) :
  k ∈ (dict_set k' v d).*1 ↔ k = k' ∨ k ∈ d.*1.
Proof.
  rewrite dict_set_keys. unfold dict_mem.
  destruct (dict_get k' d) as [v'|] eqn:Hk'.
  - split; [by right|]. intros [->|H]; [|done].
    apply dict_get_Some in Hk'. apply list_elem_of_fmap.
    by exists (k', v').
  - rewrite elem_of_app, list_elem_of_singleton. tauto.
Qed.

Lemma results_of_log_record (results : list (string * Path))
    (log : list Traj) (tr : Traj) :
  results_of_log results log →
  results_of_log (dict_set (traj_instr_id tr) (path tr) results) (log ++ [tr]).
Proof.
  intros (Hnd & Hkeys & Hall). split_and!.
  - by apply dict_set_NoDup.
  - intros k. rewrite dict_set_key_elem, Hkeys. split.
    + intros [->|(tr' & Hin & Hid)].
      * exists tr. split; [|done]. apply elem_of_app. right.
        by apply list_elem_of_singleton.
      * exists tr'. split; [|done]. apply elem_of_app. by left.
    + intros (tr' & [Hin|Hin]%elem_of_app & Hid).
      * right. by exists tr'.
      * apply list_elem_of_singleton in Hin as ->. by left.
  - apply dict_set_Forall.
    + eapply Forall_impl; [exact Hall|]. intros kv (tr' & Hin & ->).
      exists tr'. split; [|done]. apply elem_of_app. by left.
    + exists tr. split; [|done]. apply elem_of_app. right.
      by apply list_elem_of_singleton.
Qed.

Lemma results_of_log_known (results : list (string * Path))
    (log : list Traj) (tr : Traj) :
  dict_mem (traj_instr_id tr) results = true →
  results_of_log results log → results_of_log results (log ++ [tr]).
Proof.
  unfold dict_mem. intros Hmem (Hnd & Hkeys & Hall).
  destruct (dict_get (traj_instr_id tr) results) as [v|] eqn:Hk; [|done].
  split_and!; [done | |].
  - intros k. rewrite Hkeys. split.
    + intros (tr' & Hin & Hid). exists tr'. split; [|done].
      apply elem_of_app. by left.
    + intros (tr' & [Hin|Hin]%elem_of_app & Hid); [by exists tr'|].
      apply list_elem_of_singleton in Hin as ->.
      apply Hkeys. subst k. apply dict_get_Some in Hk.
      apply list_elem_of_fmap. by exists (traj_instr_id tr, v).
  - eapply Forall_impl; [exact Hall|]. intros kv (tr' & Hin & ->).
    exists tr'. split; [|done]. apply elem_of_app. by left.
Qed.

Lemma record_all_log {C : Collaborators} (trajs : list Traj) :
  ∀ (ag : Agent C) (results : list (string * Path)) (log : list Traj),
    results_of_log results log →
    results_of_log (record_all trajs ag results).2 (log ++ trajs).
Proof.
  induction trajs as [|tr trajs IH]; intros ag results log H.
  - by rewrite app_nil_r.
  - change (record_all (tr :: trajs) ag results)
      with (record_all trajs (set_loss_zero ag)
              (dict_set (traj_instr_id tr) (path tr) results)).
    rewrite (cons_middle tr log trajs), app_assoc.
    by apply IH, results_of_log_record.
Qed.

Lemma record_new_log {C : Collaborators} (trajs : list Traj) :
  ∀ (ag : Agent C) (results : list (string * Path)) (looped : bool)
    (log : list Traj),
    results_of_log results log →
    results_of_log (record_new trajs ag results looped).1.2 (log ++ trajs).
Proof.
  induction trajs as [|tr trajs IH]; intros ag results looped log H.
  - by rewrite app_nil_r.
  - rewrite record_new_cons, (cons_middle tr log trajs), app_assoc.
    destruct (dict_mem (traj_instr_id tr) results) eqn:Hmem.
    + by apply IH, results_of_log_known.
    + by apply IH, results_of_log_record.
Qed.

Lemma test_iters_log_spec {C : Collaborators}
    (rollout_kwargs : Agent C → result (list Traj * Agent C)) (iters : nat) :
  ∀ (ag ag' : Agent C) (results results' : list (string * Path))
    (log : list Traj),
    test_iters rollout_kwargs iters ag results = Ok (ag', results') →
    results_of_log results log →
    Forall (λ tr, ∃ a trajs a',
                    rollout_kwargs a = Ok (trajs, a') ∧ tr ∈ trajs) log →
    ∃ log',
      test_iters_log rollout_kwargs iters ag results log
      = Ok (ag', results', log') ∧
      results_of_log results' log' ∧
      Forall (λ tr, ∃ a trajs a',
                      rollout_kwargs a = Ok (trajs, a') ∧ tr ∈ trajs) log'.
Proof.
  induction iters as [|iters IH]; intros ag ag' results results' log H Hres Hlog;
    simpl in *.
  - injection H as <- <-. by exists log.
  - bind_inv H as p Hp. destruct p as [trajs ag1]. rewrite Hp. simpl.
    pose proof (record_all_log trajs ag1 results log Hres) as Hres1.
    destruct (record_all trajs ag1 results) as [ag2 results2]. simpl in Hres1.
    apply (IH _ _ _ _ (log ++ trajs)) in H; [done | done |].
    apply Forall_app. split; [done|]. apply Forall_forall. intros tr Hin.
    by exists ag, trajs, ag1.
Qed.

Lemma test_full_log_spec {C : Collaborators}
    (rollout_kwargs : Agent C → result (list Traj * Agent C)) (fuel : nat) :
  ∀ (ag ag' : Agent C) (results results' : list (string * Path))
    (log : list Traj),
    test_full rollout_kwargs fuel ag results = Some (Ok (ag', results')) →
    results_of_log results log →
    Forall (λ tr, ∃ a trajs a',
                    rollout_kwargs a = Ok (trajs, a') ∧ tr ∈ trajs) log →
    ∃ log',
      test_full_log rollout_kwargs fuel ag results log
      = Some (Ok (ag', results', log')) ∧
      results_of_log results' log' ∧
      Forall (λ tr, ∃ a trajs a',
                      rollout_kwargs a = Ok (trajs, a') ∧ tr ∈ trajs) log'.
Proof.
  induction fuel as [|fuel IH]; intros ag ag' results results' log H Hres Hlog;
    simpl in *; [done|].
  destruct (rollout_kwargs ag) as [[trajs ag1]|e] eqn:Hp; [|done].
  pose proof (record_new_log trajs ag1 results false log Hres) as Hres1.
  destruct (record_new trajs ag1 results false) as [[ag2 results2] looped].
  simpl in Hres1.
  assert (Forall (λ tr, ∃ a trajs a',
                    rollout_kwargs a = Ok (trajs, a') ∧ tr ∈ trajs)
            (log ++ trajs)) as Hlog1.
  { apply Forall_app. split; [done|]. apply Forall_forall. intros tr Hin.
    by exists ag, trajs, ag1. }
  destruct looped.
  - injection H as <- <-. by exists (log ++ trajs).
  - by apply (IH _ _ _ _ (log ++ trajs)) in H.
Qed.

(** X22. The results of a test run hold every instruction id that a
    rollout of the run returned, each once, and nothing else: each entry
    is the instruction id and the path of a trajectory of the run, and
    every trajectory of the run was returned by a call of the rollout. The
    trajectories of the run are those that the run with a log collects. *)
Theorem base_test_results {C : Collaborators}
    (rollout_kwargs : Agent C → result (list Traj * Agent C))
    (reset_epoch : bool → World C → World C) (fuel : nat) (iters : option nat)
    (ag ag' : Agent C) (results : list (string * Path)) :
  base_test rollout_kwargs reset_epoch fuel iters ag = Some (Ok (ag', results)) →
  ∃ log,
    base_test_log rollout_kwargs reset_epoch fuel iters ag
    = Some (Ok (ag', results, log)) ∧
    NoDup (r_instr_id <$> get_results results) ∧
    (∀ k, k ∈ (r_instr_id <$> get_results results)
          ↔ ∃ tr, tr ∈ log ∧ traj_instr_id tr = k) ∧
    Forall (λ e, ∃ tr, tr ∈ log ∧ r_instr_id e = traj_instr_id tr ∧
                       r_trajectory e = path tr)
      (get_results results) ∧
    Forall (λ tr, ∃ a trajs a',
                    rollout_kwargs a = Ok (trajs, a') ∧ tr ∈ trajs) log.
Proof.
  unfold base_test, base_test_log, get_results. intros H.
  assert (results_of_log [] []) as Hres0.
  { split_and!; [apply NoDup_nil_2 | | done].
    intros k. split; [by intros ?%elem_of_nil|].
    by intros (tr & ?%elem_of_nil & _). }
  assert (∃ log,
            match iters with
            | Some n =>
                Some (test_iters_log rollout_kwargs n
                        {| feedback := feedback ag;
                           episode_len := episode_len ag; loss := PyInt 0;
                           losses := [];
                           env := reset_epoch true (env ag) |} [] [])
            | None =>
                test_full_log rollout_kwargs fuel
                  {| feedback := feedback ag; episode_len := episode_len ag;
                     loss := PyInt 0; losses := [];
                     env := reset_epoch false (env ag) |} [] []
            end = Some (Ok (ag', results, log)) ∧
            results_of_log results log ∧
            Forall (λ tr, ∃ a trajs a',
                            rollout_kwargs a = Ok (trajs, a') ∧ tr ∈ trajs) log)
    as (log & Hrun & (Hnd & Hkeys & Hall) & Hlog).
  { destruct iters as [n|].
    - injection H as H.
      destruct (test_iters_log_spec _ _ _ _ _ _ [] H Hres0 (Forall_nil_2 _))
        as (log & -> & Hres & Hlog).
      by exists log.
    - destruct (test_full_log_spec _ _ _ _ _ _ [] H Hres0 (Forall_nil_2 _))
        as (log & -> & Hres & Hlog).
      by exists log. }
  exists log. rewrite <- list_fmap_compose.
  split_and!; [by destruct iters | done | done | | done].
  apply Forall_fmap. eapply Forall_impl; [exact Hall|].
  intros [k v] (tr & Hin & [= -> ->]). by exists tr.
Qed.

Lemma base_test_results_witness :
  ∃ (ag' : Agent toy) results,
    base_test cycling_rollout (λ _ w, w) 5 None (toy_agent "argmax")
    = Some (Ok (ag', results)) ∧
    NoDup (r_instr_id <$> get_results results) ∧
    "i2" ∈ (r_instr_id <$> get_results results).
Proof.
  assert (match base_test cycling_rollout (λ _ w, w) 5 None
                  (toy_agent "argmax") with
          | Some (Ok _) => true
          | _ => false
          end = true) as Hok by (vm_compute; reflexivity).
  destruct (base_test cycling_rollout (λ _ w, w) 5 None (toy_agent "argmax"))
    as [[[ag' results]|e]|] eqn:H; [| discriminate Hok | discriminate Hok].
  exists ag', results. split; [reflexivity|].
  destruct (base_test_results _ _ _ _ _ _ _ H)
    as (log & Hlog & Hnd & Hkeys & _).
  split; [exact Hnd|]. apply Hkeys.
  assert ((λ o, match o with
                | Some (Ok (_, _, l)) => l !! 2
                | _ => None
                end)
            (base_test_log cycling_rollout (λ _ w, w) 5 None
               (toy_agent "argmax"))
          = Some {| traj_instr_id := "i2";
                    path := [("i2", inject_Z 2, 0%Q)] |}) as Hthird
    by (vm_compute; reflexivity).
  rewrite Hlog in Hthird. simpl in Hthird.
  eexists. split; [eapply list_elem_of_lookup_2; exact Hthird | reflexivity].
Defined.

(** X23. The full round of a test run only appends to the results: the
    entries it starts from keep their place and their paths, whatever the
    later rollouts return for the same instruction ids. *)
Theorem test_full_appends {C : Collaborators}
    (rollout_kwargs : Agent C → result (list Traj * Agent C)) (fuel : nat)
    (ag ag' : Agent C) (results results' : list (string * Path)) :
  test_full rollout_kwargs fuel ag results = Some (Ok (ag', results')) →
  (∃ added, results' = results ++ added) ∧
  ∀ k v, dict_get k results = Some v → dict_get k results' = Some v.
Proof.
  intros H. apply test_full_spec in H as (added & -> & _).
  split; [by exists added|]. intros k v Hk. by apply dict_get_app_l.
Qed.

Lemma test_full_appends_witness :
  ∃ (ag' : Agent toy) results',
    test_full cycling_rollout 5 (toy_agent "argmax") [("i1", [])]
    = Some (Ok (ag', results')) ∧
    dict_get "i1" results' = Some [].
Proof.
  assert (match test_full cycling_rollout 5 (toy_agent "argmax")
                  [("i1", [])] with
          | Some (Ok _) => true
          | _ => false
          end = true) as Hok by (vm_compute; reflexivity).
  destruct (test_full cycling_rollout 5 (toy_agent "argmax") [("i1", [])])
    as [[[ag' results']|e]|] eqn:H; [| discriminate Hok | discriminate Hok].
  exists ag', results'. split; [reflexivity|].
  destruct (test_full_appends _ _ _ _ _ _ H) as [_ Hkeep].
  exact (Hkeep "i1" [] eq_refl).
Defined.

(** X24. In a test run of a number of iterations the path stored for an
    instruction id after a rollout is that of the last trajectory of the
    rollout with this id; without one the entry is as before. *)
Theorem record_all_last_wins {C : Collaborators} (trajs : list Traj)
    (ag : Agent C) (results : list (string * Path)) (k : string) :
  dict_get k (record_all trajs ag results).2
  = match last (filter (λ tr, traj_instr_id tr = k) trajs) with
    | Some tr => Some (path tr)
    | None => dict_get k results
    end.
Proof.
  pose proof (record_all_spec trajs ag results) as (-> & _).
  revert results. induction trajs as [|tr trajs IH] using rev_ind;
    intros results; [done|].
  rewrite foldl_app, filter_app. simpl. rewrite dict_get_set.
  rewrite filter_cons, filter_nil.
  destruct (decide (traj_instr_id tr = k)) as [->|Hne].
  - rewrite String.eqb_refl. by rewrite last_snoc.
  - rewrite app_nil_r. apply String.eqb_neq in Hne. rewrite Hne. apply IH.
Qed.

(** X25. When every rollout returns at least one trajectory and the
    instruction ids come from a finite list, the full round of a test run
    ends within one round more than the list has ids. *)
Theorem test_full_terminates {C : Collaborators}
    (rollout_kwargs : Agent C → result (list Traj * Agent C))
    (reset_epoch : bool → World C → World C) (universe : list string)
    (fuel : nat) (ag : Agent C) :
  (∀ a trajs a', rollout_kwargs a = Ok (trajs, a') →
                 trajs ≠ [] ∧ Forall (λ tr, traj_instr_id tr ∈ universe) trajs) →
  length universe < fuel →
  ∃ r, base_test rollout_kwargs reset_epoch fuel None ag = Some r.
Proof.
  intros Hroll Hfuel. unfold base_test.
  set (ag0 := {| feedback := feedback ag |}). clearbody ag0.
  assert (∀ fuel (a : Agent C) (results : list (string * Path)),
            NoDup results.*1 → results.*1 ⊆ universe →
            length universe < fuel + length results →
            ∃ r, test_full rollout_kwargs fuel a results = Some r) as Hgen.
  { clear fuel Hfuel. induction fuel as [|fuel IH];
      intros a results Hnd Hsub Hlen.
    - exfalso. apply NoDup_submseteq in Hsub; [|done].
      apply submseteq_length in Hsub. rewrite length_fmap in Hsub.
      simpl in Hlen. lia.
    - simpl. destruct (rollout_kwargs a) as [[trajs a1]|e] eqn:Ha;
        [|by eexists].
      destruct (Hroll _ _ _ Ha) as [Hne Hids].
      destruct (record_new trajs a1 results false) as [[a2 results2] looped]
        eqn:Hrec.
      apply record_new_spec in Hrec as (added & -> & Hnd' & Hall & Hloop & _).
      destruct looped; [by eexists|].
      destruct (Hloop eq_refl) as [_ Hadded].
      apply IH.
      + by apply Hnd'.
      + rewrite fmap_app. intros x [Hx|Hx]%elem_of_app; [by apply Hsub|].
        apply list_elem_of_fmap in Hx as ([k v] & -> & Hkv).
        rewrite Forall_forall in Hall. destruct (Hall _ Hkv) as (tr & Hin & [= -> ->]).
        rewrite Forall_forall in Hids. by apply Hids.
      + rewrite length_app, Hadded. destruct trajs; [done|]. simpl in *. lia. }
  apply Hgen; [apply NoDup_nil_2 | | simpl; lia].
  intros x Hx. by apply elem_of_nil in Hx.
Qed.

Lemma test_full_terminates_witness :
  ∃ r, base_test cycling_rollout (λ _ w, w) 4 None (toy_agent "argmax") = Some r.
Proof.
  apply (test_full_terminates cycling_rollout (λ _ w, w) ["i0"; "i1"; "i2"]).
  - intros a trajs a' H. unfold cycling_rollout in H. injection H as <- _.
    split; [discriminate|].
    assert (∀ k, instr_name k ∈ ["i0"; "i1"; "i2"]) as Hin.
    { intros k. unfold instr_name. destruct (k mod 3) as [|[|?]].
      - apply elem_of_cons. left. reflexivity.
      - apply elem_of_cons. right. apply elem_of_cons. left. reflexivity.
      - apply elem_of_cons. right. apply elem_of_cons. right.
        apply elem_of_cons. left. reflexivity. }
    apply Forall_cons. split; [apply Hin|].
    apply Forall_cons. split; [apply Hin | apply Forall_nil_2].
  - simpl. lia.
Defined.

(** ** Test runs and training of the agent *)

Lemma test_iters_losses {C : Collaborators}
    (rollout_kwargs : Agent C → result (list Traj * Agent C)) (fb : string) :
  (∀ a trajs a', rollout_kwargs a = Ok (trajs, a') →
                 feedback a = fb → loss a = PyInt 0 →
                 feedback a' = fb ∧ loss a' = PyInt 0 ∧
                 losses a' = losses a ++ [0.0%Q]) →
  ∀ (iters : nat) (ag ag' : Agent C) (results results' : list (string * Path)),
    test_iters rollout_kwargs iters ag results = Ok (ag', results') →
    feedback ag = fb → loss ag = PyInt 0 →
    feedback ag' = fb ∧ loss ag' = PyInt 0 ∧
    losses ag' = losses ag ++ replicate iters 0.0%Q.
Proof.
  intros Hroll. induction iters as [|iters IH];
    intros ag ag' results results' H Hfb Hloss; simpl in H.
  - injection H as <- <-. by rewrite app_nil_r.
  - bind_inv H as p Hp. destruct p as [trajs ag1].
    destruct (Hroll _ _ _ Hp Hfb Hloss) as (Hfb1 & Hloss1 & Hlosses1).
    pose proof (record_all_spec trajs ag1 results)
      as (_ & Hfb2 & Hlosses2 & _ & Hloss2).
    destruct (record_all trajs ag1 results) as [ag2 results2].
    simpl in Hfb2, Hlosses2, Hloss2.
    apply IH in H as (Hfb' & Hloss' & Hlosses'); [| congruence | by apply Hloss2].
    split_and!; [done | done |].
    rewrite Hlosses', Hlosses2, Hlosses1, <- app_assoc. done.
Qed.

Lemma test_full_losses {C : Collaborators}
    (rollout_kwargs : Agent C → result (list Traj * Agent C)) (fb : string) :
  (∀ a trajs a', rollout_kwargs a = Ok (trajs, a') →
                 feedback a = fb → loss a = PyInt 0 →
                 feedback a' = fb ∧ loss a' = PyInt 0 ∧
                 losses a' = losses a ++ [0.0%Q]) →
  ∀ (fuel : nat) (ag ag' : Agent C) (results results' : list (string * Path)),
    test_full rollout_kwargs fuel ag results = Some (Ok (ag', results')) →
    feedback ag = fb → loss ag = PyInt 0 →
    feedback ag' = fb ∧ loss ag' = PyInt 0 ∧
    ∃ rounds, 1 ≤ rounds ≤ fuel ∧
              losses ag' = losses ag ++ replicate rounds 0.0%Q.
Proof.
  intros Hroll. induction fuel as [|fuel IH];
    intros ag ag' results results' H Hfb Hloss; simpl in H; [done|].
  destruct (rollout_kwargs ag) as [[trajs ag1]|e] eqn:Hp; [|done].
  destruct (Hroll _ _ _ Hp Hfb Hloss) as (Hfb1 & Hloss1 & Hlosses1).
  destruct (record_new trajs ag1 results false) as [[ag2 results2] looped]
    eqn:Hrec.
  apply record_new_spec in Hrec
    as (added & _ & _ & _ & _ & Hfb2 & Hlosses2 & Hloss2).
  destruct looped.
  - injection H as <- <-. split_and!; [congruence | by apply Hloss2 |].
    exists 1. split; [lia|]. by rewrite Hlosses2, Hlosses1.
  - apply IH in H as (Hfb' & Hloss' & rounds & Hr & Hlosses');
      [| congruence | by apply Hloss2].
    split_and!; [done | done |]. exists (Datatypes.S rounds). split; [lia|].
    rewrite Hlosses', Hlosses2, Hlosses1, <- app_assoc. done.
Qed.

(** X26. A test run of the agent in 'teacher' or 'argmax' mode computes no
    loss: it ends with [self.loss] the int 0 and one 0.0 in [self.losses]
    for every rollout made, [iters] of them when [iters] is given. *)
Theorem seq2seq_test_losses (C : Collaborators) (args : Args)
    (mode reset_epoch : bool → World C → World C) (fuel : nat)
    (use_dropout : bool) (fb : string) (iters : option nat)
    (ag ag' : Agent C) (results : list (string * Path)) :
  fb = "teacher" ∨ fb = "argmax" →
  seq2seq_test C args mode reset_epoch fuel use_dropout fb iters ag
  = Some (Ok (ag', results)) →
  feedback ag' = fb ∧ loss ag' = PyInt 0 ∧
  ∃ rounds, losses ag' = replicate rounds 0.0%Q ∧
            (∀ n, iters = Some n → rounds = n) ∧
            (iters = None → 1 ≤ rounds ≤ fuel).
Proof.
  intros Hfb H. unfold seq2seq_test, base_test in H. simpl in H.
  assert (∀ a trajs a',
            rollout C args a None None None 0.5 true true = Ok (trajs, a') →
            feedback a = fb → loss a = PyInt 0 →
            feedback a' = fb ∧ loss a' = PyInt 0 ∧
            losses a' = losses a ++ [0.0%Q]) as Hroll.
  { intros a trajs a' Ha Hfa Hla.
    apply rollout_inv in Ha as (o & Ho & _ & ->).
    apply rollout_run_agent in Ho as (_ & Hfo & _ & _ & Hnone).
    destruct (Hnone eq_refl eq_refl eq_refl) as [Hl Hls].
    { rewrite Hfa. destruct Hfb as [->| ->]; [by left | right; by left]. }
    split_and!; [congruence | congruence | by apply (Hls 0%Z)]. }
  destruct iters as [n|].
  - injection H as H.
    apply (test_iters_losses _ fb Hroll) in H as (Hf & Hl & Hls); [|done..].
    split_and!; [done | done |]. exists n. split_and!; [done | | done].
    by intros n' [= ->].
  - apply (test_full_losses _ fb Hroll) in H
      as (Hf & Hl & rounds & Hr & Hls); [|done..].
    split_and!; [done | done |]. exists rounds. split_and!; [done | done |].
    by intros _.
Qed.

Lemma seq2seq_test_losses_witness :
  ∃ (ag' : Agent toy) results,
    seq2seq_test toy toy_args (λ _ w, w) (λ _ w, w) 5 false "argmax" (Some 2)
      (toy_agent "teacher") = Some (Ok (ag', results)) ∧
    feedback ag' = "argmax" ∧ loss ag' = PyInt 0.
Proof.
  assert (match seq2seq_test toy toy_args (λ _ w, w) (λ _ w, w) 5 false
                  "argmax" (Some 2) (toy_agent "teacher") with
          | Some (Ok _) => true
          | _ => false
          end = true) as Hok by (vm_compute; reflexivity).
  destruct (seq2seq_test toy toy_args (λ _ w, w) (λ _ w, w) 5 false "argmax"
              (Some 2) (toy_agent "teacher")) as [[[ag' results]|e]|] eqn:H;
    [| discriminate Hok | discriminate Hok].
  exists ag', results. split; [reflexivity|].
  destruct (seq2seq_test_losses toy toy_args _ _ _ _ _ _ _ _ _
              (or_intror eq_refl) H) as (Hf & Hl & _).
  split; [exact Hf | exact Hl].
Defined.

Lemma train_iteration_agent (C : Collaborators) (args : Args)
    (targs : TrainArgs) (hooks : TrainHooks C) (fb : string) (reset : bool)
    (ag ag' : Agent C) :
  train_iteration C args targs hooks fb reset ag = Ok ag' →
  (fb = "teacher" ∨ fb = "sample") ∧ feedback ag' = fb ∧
  length (losses ag')
  = length (losses ag)
    + (if String.eqb fb "teacher" then 1
       else if Qeq_bool (ml_weight targs) 0 then 1 else 2) ∧
  ∃ x, loss ag' = PyTensor x.
Proof.
  unfold train_iteration. intros H. bind_inv H as ag1 H1.
  injection H as <-. simpl.
  assert (∀ (a a' : Agent C) ml k dc drop rl f,
            snd <$> rollout C args (set_feedback f a) ml (Some k) dc drop rl
                      reset = Ok a' →
            feedback a' = f ∧ length (losses a') = length (losses a) + 1 ∧
            ∃ x, loss a' = PyTensor x)
    as Hroll.
  { intros a a' ml k dc drop rl f Ha.
    destruct (rollout C args (set_feedback f a) ml (Some k) dc drop rl reset)
      as [[trajs a'']|e] eqn:Hr; [|done].
    injection Ha as ->.
    apply rollout_inv in Hr as (o & Ho & _ & ->).
    pose proof (rollout_run_loss_tensor _ _ _ _ _ _ _ _ _ _ Ho) as Htensor.
    apply rollout_run_agent in Ho as ([x Hx] & Hfo & _).
    simpl in Hx, Hfo. split_and!; [done | | done].
    rewrite Hx, length_app. simpl. lia. }
  destruct (String.eqb_spec fb "teacher") as [->|Hnt].
  - apply Hroll in H1 as (Hf & Hl & Ht). simpl in Hl.
    split_and!; [by left | done | done | done].
  - destruct (String.eqb_spec fb "sample") as [->|Hns]; [|done].
    bind_inv H1 as ag2 H2. apply Hroll in H1 as (Hf & Hl & Ht).
    split_and!; [by right | done | | done].
    destruct (Qeq_bool (ml_weight targs) 0).
    + injection H2 as <-. simpl in Hl. done.
    + apply Hroll in H2 as (_ & Hl2 & _). simpl in Hl2. lia.
Qed.

(** X27. Training with a feedback mode other than 'teacher' and 'sample'
    fails with an [AssertionError] in its first iteration. *)
Theorem train_invalid_feedback (C : Collaborators) (args : Args)
    (targs : TrainArgs) (hooks : TrainHooks C) (n_iters : nat) (fb : string)
    (reset : bool) (ag : Agent C) :
  fb ≠ "teacher" → fb ≠ "sample" → 0 < n_iters →
  train C args targs hooks n_iters fb reset ag = Err AssertionError.
Proof.
  intros Hnt Hns Hn. unfold train. destruct n_iters as [|n]; [lia|].
  simpl. unfold train_iteration.
  apply String.eqb_neq in Hnt, Hns. by rewrite Hnt, Hns.
Qed.

Lemma train_invalid_feedback_witness :
  train toy toy_args toy_targs toy_hooks 2 "argmax" true (toy_agent "teacher")
  = Err AssertionError.
Proof.
  apply train_invalid_feedback; [discriminate | discriminate | lia].
Defined.

(** X28. Training that returns has left the feedback mode it was called
    with, and has started [self.losses] afresh with one entry for every
    rollout: one per iteration in 'teacher' mode, two per iteration in
    'sample' mode, or one when [ml_weight] is zero. After at least one
    iteration [self.loss], which every iteration hands to the backward
    pass, is a torch scalar. *)
Theorem train_bookkeeping (C : Collaborators) (args : Args)
    (targs : TrainArgs) (hooks : TrainHooks C) (n_iters : nat) (fb : string)
    (reset : bool) (ag ag' : Agent C) :
  train C args targs hooks n_iters fb reset ag = Ok ag' →
  feedback ag' = fb ∧
  length (losses ag')
  = n_iters * (if String.eqb fb "teacher" then 1
               else if Qeq_bool (ml_weight targs) 0 then 1 else 2) ∧
  (0 < n_iters → ∃ x, loss ag' = PyTensor x).
Proof.
  unfold train. intros H.
  set (per := if String.eqb fb "teacher" then 1
              else if Qeq_bool (ml_weight targs) 0 then 1 else 2).
  assert (∀ n (a a' : Agent C),
            train_loop C args targs hooks fb reset n a = Ok a' →
            feedback a = fb →
            feedback a' = fb ∧
            length (losses a') = length (losses a) + n * per ∧
            (0 < n → ∃ x, loss a' = PyTensor x)) as Hloop.
  { induction n as [|n IH]; intros a a' Ha Hf; simpl in Ha.
    - injection Ha as <-. split_and!; [done | lia | lia].
    - bind_inv Ha as a1 H1.
      apply train_iteration_agent in H1 as (_ & Hf1 & Hl1 & Ht1).
      destruct n as [|n].
      + simpl in Ha. injection Ha as <-.
        split_and!; [done | fold per in Hl1; lia | done].
      + apply IH in Ha as (Hf' & Hl' & Ht'); [|done].
        split_and!; [done | | intros _; apply Ht'; lia].
        rewrite Hl', Hl1. fold per. lia. }
  destruct (Hloop _ _ _ H eq_refl) as (Hf & Hl & Ht). simpl in Hl. done.
Qed.

Lemma train_bookkeeping_witness :
  ∃ ag' : Agent toy,
    train toy toy_args toy_targs toy_hooks 2 "sample" true (toy_agent "teacher")
    = Ok ag' ∧ feedback ag' = "sample".
Proof.
  assert (is_Ok_bool
            (train toy toy_args toy_targs toy_hooks 2 "sample" true
               (toy_agent "teacher")) = true) as Hok
    by (vm_compute; reflexivity).
  destruct (train toy toy_args toy_targs toy_hooks 2 "sample" true
              (toy_agent "teacher")) as [ag'|e] eqn:H; [|discriminate Hok].
  exists ag'. split; [reflexivity|].
  destruct (train_bookkeeping _ _ _ _ _ _ _ _ _ H) as [Hf _]. exact Hf.
Defined.

(** ** Checkpoints *)

Lemma union_dom_subseteq {V} (loaded own : gmap string V) :
  dom own ⊆ dom loaded → loaded ∪ own = loaded.
Proof.
  intros Hsub. apply map_eq. intros k.
  destruct (loaded !! k) as [v|] eqn:Hk.
  - by apply lookup_union_Some_l.
  - apply lookup_union_None. split; [done|].
    apply not_elem_of_dom. intros Hin. apply Hsub in Hin.
    by apply not_elem_of_dom in Hk.
Qed.

Lemma recover_state_inv (T : Torch) (loadOptim : bool)
    (states : gmap string (Snapshot T)) (name : string) (model model' : Net T)
    (optimizer optimizer' : Optimizer T) (notice : bool) :
  recover_state T loadOptim states name model optimizer
  = inr (model', optimizer', notice) →
  ∃ snapshot,
    states !! name = Some snapshot ∧
    load_state_dict T model (ck_state_dict snapshot ∪ state_dict T model)
    = Some model' ∧
    (if loadOptim
     then opt_load_state_dict T optimizer (ck_optimizer snapshot)
          = Some optimizer'
     else optimizer' = optimizer) ∧
    notice = bool_decide (dom (state_dict T model)
                          ≠ dom (ck_state_dict snapshot)).
Proof.
  unfold recover_state. intros H.
  destruct (states !! name) as [snapshot|]; [|done].
  destruct (load_state_dict T model _) as [m|] eqn:Hm; [|done].
  exists snapshot. destruct loadOptim.
  - destruct (opt_load_state_dict T optimizer _) as [o|] eqn:Ho; [|done].
    by injection H as <- <- <-.
  - by injection H as <- <- <-.
Qed.

(** X29. Loading the file that [save] wrote returns the epoch given to
    [save]. When torch's [load_state_dict] installs what it is given, the
    parameters after the load are the saved ones, completed by the
    network's own for names that were not saved; for networks with the
    names of the saved ones they are the saved parameters and no notice is
    printed. *)
Theorem load_save_round_trip (T : Torch) (loadOptim : bool) (epoch e : Z)
    (path : string) (files : gmap string (gmap string (Snapshot T)))
    (saved nets nets' : Nets T) (notices : list bool) :
  (∀ m d m', load_state_dict T m d = Some m' → state_dict T m' = d) →
  load T loadOptim path (save T epoch path saved files) nets
  = inr (nets', e, notices) →
  e = epoch ∧
  state_dict T (vln_bert_model nets')
  = state_dict T (vln_bert_model saved) ∪ state_dict T (vln_bert_model nets) ∧
  state_dict T (critic_model nets')
  = state_dict T (critic_model saved) ∪ state_dict T (critic_model nets) ∧
  (dom (state_dict T (vln_bert_model nets)) = dom (state_dict T (vln_bert_model saved)) →
   dom (state_dict T (critic_model nets)) = dom (state_dict T (critic_model saved)) →
   state_dict T (vln_bert_model nets') = state_dict T (vln_bert_model saved) ∧
   state_dict T (critic_model nets') = state_dict T (critic_model saved) ∧
   notices = [false; false]).
Proof.
  intros Hinstall H. unfold load, save in H. rewrite lookup_insert_eq in H.
  destruct (recover_state T loadOptim _ "vln_bert" _ _)
    as [e1|[[m1 o1] n1]] eqn:H1; [done|].
  destruct (recover_state T loadOptim _ "critic" _ _)
    as [e2|[[m2 o2] n2]] eqn:H2; [done|].
  apply recover_state_inv in H1 as (s1 & Hs1 & Hm1 & _ & Hn1).
  apply recover_state_inv in H2 as (s2 & Hs2 & Hm2 & _ & Hn2).
  rewrite Hs1 in H. injection H as <- <- <-.
  rewrite lookup_insert_ne in Hs1; [|done].
  rewrite lookup_insert_eq in Hs1, Hs2.
  injection Hs1 as <-. injection Hs2 as <-. simpl in *.
  apply Hinstall in Hm1, Hm2.
  split_and!; [lia | done | done |].
  intros Hd1 Hd2. rewrite Hm1, Hm2.
  rewrite !union_dom_subseteq; [| by rewrite Hd2 | by rewrite Hd1].
  split_and!; [done | done |].
  rewrite Hn1, Hn2, !bool_decide_eq_false_2; [done | by intros ? | by intros ?].
Qed.

Lemma load_save_round_trip_witness :
  ∃ nets' notices,
    load toy_torch true "snap/best" (save toy_torch 7 "snap/best" trained_nets ∅)
      fresh_nets = inr (nets', 7%Z, notices) ∧
    state_dict toy_torch (vln_bert_model nets')
    = state_dict toy_torch (vln_bert_model trained_nets)
      ∪ state_dict toy_torch (vln_bert_model fresh_nets).
Proof.
  assert (match load toy_torch true "snap/best"
                  (save toy_torch 7 "snap/best" trained_nets ∅) fresh_nets with
          | inr _ => true
          | inl _ => false
          end = true) as Hok by (vm_compute; reflexivity).
  destruct (load toy_torch true "snap/best"
              (save toy_torch 7 "snap/best" trained_nets ∅) fresh_nets)
    as [err|[[nets' e] notices]] eqn:H; [discriminate Hok|].
  assert (∀ m d m', load_state_dict toy_torch m d = Some m' →
                    state_dict toy_torch m' = d) as Hinstall.
  { intros m d m' Hm. simpl in *. destruct (decide (dom d = dom m)); [|done].
    by injection Hm as <-. }
  destruct (load_save_round_trip toy_torch _ _ _ _ _ _ _ _ _ Hinstall H)
    as (-> & Hv & _).
  exists nets', notices. split; [reflexivity | exact Hv].
Defined.

(** X30. A load that returns has read the file's entries of both
    networks; the epoch it returns is one less than the stored one; each
    network was handed the stored parameters completed by its own, and
    without [loadOptim] the optimizers are the ones it started with. *)
Theorem load_partial_checkpoint (T : Torch) (loadOptim : bool) (e : Z)
    (path : string) (files : gmap string (gmap string (Snapshot T)))
    (nets nets' : Nets T) (notices : list bool) :
  load T loadOptim path files nets = inr (nets', e, notices) →
  ∃ states sv sc,
    files !! path = Some states ∧
    states !! "vln_bert" = Some sv ∧ states !! "critic" = Some sc ∧
    e = (ck_epoch sv - 1)%Z ∧
    load_state_dict T (vln_bert_model nets)
      (ck_state_dict sv ∪ state_dict T (vln_bert_model nets))
    = Some (vln_bert_model nets') ∧
    load_state_dict T (critic_model nets)
      (ck_state_dict sc ∪ state_dict T (critic_model nets))
    = Some (critic_model nets') ∧
    (∀ k, (ck_state_dict sv ∪ state_dict T (vln_bert_model nets)) !! k
          = match ck_state_dict sv !! k with
            | Some v => Some v
            | None => state_dict T (vln_bert_model nets) !! k
            end) ∧
    (loadOptim = false →
     vln_bert_optimizer nets' = vln_bert_optimizer nets ∧
     critic_optimizer nets' = critic_optimizer nets).
Proof.
  unfold load. intros H.
  destruct (files !! path) as [states|]; [|done].
  destruct (recover_state T loadOptim _ "vln_bert" _ _)
    as [e1|[[m1 o1] n1]] eqn:H1; [done|].
  destruct (recover_state T loadOptim _ "critic" _ _)
    as [e2|[[m2 o2] n2]] eqn:H2; [done|].
  apply recover_state_inv in H1 as (sv & Hsv & Hm1 & Ho1 & _).
  apply recover_state_inv in H2 as (sc & Hsc & Hm2 & Ho2 & _).
  rewrite Hsv in H. injection H as <- <- <-.
  exists states, sv, sc. simpl. split_and!; try done.
  - intros k. rewrite lookup_union.
    destruct (ck_state_dict sv !! k), (state_dict T (vln_bert_model nets) !! k); done.
  - intros ->. done.
Qed.

Lemma load_partial_checkpoint_witness :
  ∃ nets' e notices,
    load toy_torch false "snap/best"
      (save toy_torch 7 "snap/best" trained_nets ∅) fresh_nets
    = inr (nets', e, notices) ∧
    vln_bert_optimizer nets' = vln_bert_optimizer fresh_nets.
Proof.
  assert (match load toy_torch false "snap/best"
                  (save toy_torch 7 "snap/best" trained_nets ∅) fresh_nets with
          | inr _ => true
          | inl _ => false
          end = true) as Hok by (vm_compute; reflexivity).
  destruct (load toy_torch false "snap/best"
              (save toy_torch 7 "snap/best" trained_nets ∅) fresh_nets)
    as [err|[[nets' e] notices]] eqn:H; [discriminate Hok|].
  destruct (load_partial_checkpoint toy_torch _ _ _ _ _ _ _ H)
    as (states & sv & sc & _ & _ & _ & _ & _ & _ & _ & Hopt).
  exists nets', e, notices. split; [reflexivity|].
  destruct (Hopt eq_refl) as [Hv _]. exact Hv.
Defined.
